(** * Nisbets scraper (app.py): a shallow embedding and its verified properties

    The development follows the layout of [app.py]:
    - [PyStr]: the [str] methods the program calls;
    - [Re]: the fragment of Python's [re] its six patterns need;
    - [Soup]: the parsed page as [BeautifulSoup] exposes it;
    - the run-time world (status dictionary, scraper object, data
      directory) and a state/exception/trace monad for the effectful
      methods;
    - [NisbetsScraper] and [URLScraper], method by method;
    - the properties: URL classifier, page fetcher, product extractor, one
      round of the batch loop, run status, crawl frontier, batch window,
      checkpoint cadence; then image files, saving and loading, what a
      batch adds, batches one after the other, the dashboard counters,
      what the crawl collects, the SKU and the price of a record, and the
      URL list on disk.

    Conventions.
    - A Python [str] is represented by its UTF-8 encoding as a Rocq
      [string]; substring tests, prefix tests and splitting on an ASCII
      separator agree with the code-point versions on such encodings.
      Character classes ([\d], [str.isspace]) and case mapping are given on
      the ASCII range.
    - Python [int]s are [Z]; list positions follow Python, negative ones
      included.
    - The network, the lxml parser, [str()] of a tag, [urljoin] and the
      clock are parameters ([env]); a request or a parse may raise.  The
      data directory is reliable: reading and writing its files does not
      raise.  A JSON file may be unreadable.
    - A text file is read with universal newlines and written on a POSIX
      system.
    - The Flask routes, the scheduler and the dashboard template only call
      [run_batch] and [run] and read the status dictionary; they are not
      modelled. *)

From Stdlib Require Import ZArith Ascii String List Bool Lia.
From stdpp Require Import base tactics option list strings pretty gmap sorting.

Set Warnings "-register-all".
#[local] Arguments String.append !s1 s2 : simpl nomatch.

(** ** String methods *)

Module PyStr.

Definition code (c : ascii) : nat := nat_of_ascii c.

Definition in_range (lo hi : nat) (c : ascii) : bool :=
  (lo <=? code c)%nat && (code c <=? hi)%nat.

Definition is_upper : ascii -> bool := in_range 65 90.
Definition is_lower : ascii -> bool := in_range 97 122.
Definition is_alpha (c : ascii) : bool := is_upper c || is_lower c.
Definition is_digit : ascii -> bool := in_range 48 57.

(** [str.isspace] on the ASCII range: TAB..CR, FS..US and the blank. *)
Definition is_space (c : ascii) : bool :=
  in_range 9 13 c || in_range 28 32 c.

Definition lower_char (c : ascii) : ascii :=
  if is_upper c then ascii_of_nat (code c + 32) else c.

Definition upper_char (c : ascii) : ascii :=
  if is_lower c then ascii_of_nat (code c - 32) else c.

Fixpoint map_chars (f : ascii -> ascii) (s : string) : string :=
  match s with
  | EmptyString => EmptyString
  | String c t => String (f c) (map_chars f t)
  end.

(** [s.lower()], [s.upper()] *)
Definition lower : string -> string := map_chars lower_char.
Definition upper : string -> string := map_chars upper_char.

(** [s.startswith(p)] *)
Fixpoint startswith (s p : string) {struct p} : bool :=
  match p with
  | EmptyString => true
  | String b p' =>
      match s with
      | EmptyString => false
      | String a s' => Ascii.eqb a b && startswith s' p'
      end
  end.

(** [sub in s] *)
Fixpoint contains (sub s : string) : bool :=
  startswith s sub ||
  match s with
  | EmptyString => false
  | String _ t => contains sub t
  end.

(** [s.split(sep)] for a one-character separator: never empty. *)
Fixpoint split_on (sep : ascii) (s : string) : list string :=
  match s with
  | EmptyString => [EmptyString]
  | String c t =>
      if Ascii.eqb c sep then EmptyString :: split_on sep t
      else match split_on sep t with
           | h :: r => String c h :: r
           | [] => [String c EmptyString]
           end
  end.

(** [s.split(sep)[0]] and [s.split(sep)[-1]]. *)
Definition first_field (sep : ascii) (s : string) : string :=
  hd EmptyString (split_on sep s).
Definition last_field (sep : ascii) (s : string) : string :=
  List.last (split_on sep s) EmptyString.

(** [s.rstrip(chars)], [s.lstrip(chars)] with the set given as a predicate. *)
Fixpoint rstrip_by (p : ascii -> bool) (s : string) : string :=
  match s with
  | EmptyString => EmptyString
  | String c t =>
      match rstrip_by p t with
      | EmptyString => if p c then EmptyString else String c EmptyString
      | t' => String c t'
      end
  end.

Fixpoint lstrip_by (p : ascii -> bool) (s : string) : string :=
  match s with
  | EmptyString => EmptyString
  | String c t => if p c then lstrip_by p t else s
  end.

(** [s.strip()] *)
Definition strip (s : string) : string := lstrip_by is_space (rstrip_by is_space s).

(** [s.replace(c, '')] for a one-character [c]. *)
Fixpoint remove_char (c : ascii) (s : string) : string :=
  match s with
  | EmptyString => EmptyString
  | String a t => if Ascii.eqb a c then remove_char c t else String a (remove_char c t)
  end.

(** [s[n:]] and [s[:n]] for [n >= 0]. *)
Fixpoint drop (n : nat) (s : string) : string :=
  match n, s with
  | O, _ => s
  | S n', String _ t => drop n' t
  | S _, EmptyString => EmptyString
  end.

Fixpoint take (n : nat) (s : string) : string :=
  match n, s with
  | O, _ => EmptyString
  | S n', String c t => String c (take n' t)
  | S _, EmptyString => EmptyString
  end.

(** [all(p(c) for c in s)] *)
Fixpoint all_chars (p : ascii -> bool) (s : string) : bool :=
  match s with
  | EmptyString => true
  | String c t => p c && all_chars p t
  end.

(** Truthiness of a [str]: non-empty. *)
Definition truthy (s : string) : bool :=
  match s with EmptyString => false | _ => true end.

(** A string without a line break (LF or CR). *)
Definition one_line (u : string) : bool :=
  all_chars (fun a => negb (Ascii.eqb a "010") && negb (Ascii.eqb a "013")) u.

(** [str(n)] for a non-negative [int]. *)
Definition of_nat (n : nat) : string := pretty (N.of_nat n).

End PyStr.

(** ** Regular expressions

    The patterns of the program repeat single-character classes only, so a
    repetition is matched by its run length.  [rmatch] returns every way the
    pattern can match at the current position in the order in which Python's
    backtracking matcher tries them; the head of the list is the match that
    [re] reports. *)

Module Re.
Import PyStr.

Inductive regex : Type :=
| REps
| RChar (p : ascii -> bool)
| RSeq (r1 r2 : regex)
| RAlt (r1 r2 : regex)
| RRep (p : ascii -> bool) (lo : nat) (hi : option nat)   (* greedy p{lo,hi} *)
| RGroup (i : nat) (r : regex)
| RBol                                                     (* ^ *)
| REol.                                                    (* $ *)
Arguments RRep p lo%_nat hi.
Arguments RGroup i%_nat r.

Record mstate : Type := MState {
  m_pos : nat;                             (* offset into the subject *)
  m_rest : string;                         (* the subject from [m_pos] on *)
  m_groups : list (nat * (nat * nat))      (* group number, span *)
}.

(** Length of the longest run of [p] at the head of [s], capped by [hi]. *)
Fixpoint run_length (p : ascii -> bool) (hi : option nat) (s : string) : nat :=
  match s with
  | EmptyString => O
  | String c t =>
      match hi with
      | Some O => O
      | Some (S h) => if p c then S (run_length p (Some h) t) else O
      | None => if p c then S (run_length p None t) else O
      end
  end.

Definition advance (st : mstate) (n : nat) : mstate :=
  MState (m_pos st + n) (drop n (m_rest st)) (m_groups st).

(** [$] without MULTILINE: at the end, or before a final newline. *)
Definition at_eol (s : string) : bool :=
  match s with
  | EmptyString => true
  | String c EmptyString => Ascii.eqb c "010"%char
  | _ => false
  end.

Fixpoint rmatch (r : regex) (st : mstate) : list mstate :=
  match r with
  | REps => [st]
  | RChar p =>
      match m_rest st with
      | String c _ => if p c then [advance st 1] else []
      | EmptyString => []
      end
  | RSeq r1 r2 => List.flat_map (rmatch r2) (rmatch r1 st)
  | RAlt r1 r2 => rmatch r1 st ++ rmatch r2 st
  | RRep p lo hi =>
      let n := run_length p hi (m_rest st) in
      List.map (advance st) (List.rev (List.seq lo (S n - lo)))
  | RGroup i r =>
      List.map (fun st' =>
                  MState (m_pos st') (m_rest st')
                         ((i, (m_pos st, m_pos st')) :: m_groups st'))
               (rmatch r st)
  | RBol => if (m_pos st =? 0)%nat then [st] else []
  | REol => if at_eol (m_rest st) then [st] else []
  end.

(** The characters a pattern can consume, and whether it is free of [^]. *)
Fixpoint accepts (r : regex) (c : ascii) : bool :=
  match r with
  | RChar p | RRep p _ _ => p c
  | RSeq r1 r2 | RAlt r1 r2 => accepts r1 c || accepts r2 c
  | RGroup _ r => accepts r c
  | REps | RBol | REol => false
  end.

Fixpoint bol_free (r : regex) : bool :=
  match r with
  | RSeq r1 r2 | RAlt r1 r2 => bol_free r1 && bol_free r2
  | RGroup _ r => bol_free r
  | RBol => false
  | REps | RChar _ | RRep _ _ _ | REol => true
  end.

(** A match object: the span of the whole match and the groups. *)
Record rmatch_obj : Type := MatchObj {
  mo_start : nat;
  mo_end : nat;
  mo_rest : string;
  mo_groups : list (nat * (nat * nat))
}.

(** Leftmost match starting at [pos] or later. *)
Fixpoint search_from (r : regex) (pos : nat) (rest : string) : option rmatch_obj :=
  match rmatch r (MState pos rest []) with
  | st :: _ => Some (MatchObj pos (m_pos st) (m_rest st) (m_groups st))
  | [] =>
      match rest with
      | EmptyString => None
      | String _ t => search_from r (S pos) t
      end
  end.

(** [re.search(r, s)] *)
Definition search (r : regex) (s : string) : option rmatch_obj := search_from r 0 s.

Fixpoint group_span (i : nat) (gs : list (nat * (nat * nat))) : option (nat * nat) :=
  match gs with
  | [] => None
  | (j, sp) :: t => if (i =? j)%nat then Some sp else group_span i t
  end.

(** [m.group(i)] for [i >= 1] on subject [s]; a group that took no part
    in the match gives the empty string here. *)
Definition group (s : string) (m : rmatch_obj) (i : nat) : string :=
  match group_span i (mo_groups m) with
  | Some (a, b) => take (b - a) (drop a s)
  | None => EmptyString
  end.

(** [re.sub(r, repl, s)]: non-overlapping matches left to right, the text
    between them copied.  [repl] builds the replacement from the match.
    The patterns it is used with never match the empty string; an empty
    match is stepped over by copying one character. *)
Fixpoint sub_from (fuel : nat) (r : regex) (repl : rmatch_obj -> string)
         (pos : nat) (rest : string) : string :=
  match fuel with
  | O => rest
  | S fuel' =>
      match rest with
      | EmptyString => EmptyString
      | String c t =>
          match rmatch r (MState pos rest []) with
          | st :: _ =>
              if (m_pos st =? pos)%nat
              then String c (sub_from fuel' r repl (S pos) t)
              else repl (MatchObj pos (m_pos st) (m_rest st) (m_groups st))
                   +:+ sub_from fuel' r repl (m_pos st) (m_rest st)
          | [] => String c (sub_from fuel' r repl (S pos) t)
          end
      end
  end.

Definition sub (r : regex) (repl : rmatch_obj -> string) (s : string) : string :=
  sub_from (S (String.length s)) r repl 0 s.

(** Pattern syntax. *)
Definition lit_char (c : ascii) : regex := RChar (Ascii.eqb c).

Fixpoint lit (s : string) : regex :=
  match s with
  | EmptyString => REps
  | String c t => RSeq (lit_char c) (lit t)
  end.

Definition not_char (c : ascii) (a : ascii) : bool := negb (Ascii.eqb a c).

(** [.] matches anything but a newline. *)
Definition dot : ascii -> bool := not_char "010"%char.

Definition not_slash : ascii -> bool := not_char "/".

End Re.

(** ** The parsed page

    What [BeautifulSoup(html, 'lxml')] hands to the program: a tree of
    elements and text.  The parser itself is a collaborator (see [env]); the
    queries the program runs on its result are defined here. *)

Module Soup.
Import PyStr.

Inductive node : Type :=
| NText (s : string)
| NElem (tag : string) (attrs : list (string * string)) (kids : list node).

(** All nodes below [n], in document order. *)
Fixpoint descendants (n : node) : list node :=
  match n with
  | NText _ => []
  | NElem _ _ kids => List.flat_map (fun k => k :: descendants k) kids
  end.

(** The text strings below (and including) [n], in document order. *)
Fixpoint strings (n : node) : list string :=
  match n with
  | NText s => [s]
  | NElem _ _ kids => List.flat_map strings kids
  end.

Fixpoint assoc (k : string) (l : list (string * string)) : option string :=
  match l with
  | [] => None
  | (k', v) :: t => if String.eqb k k' then Some v else assoc k t
  end.

(** [tag.get(k)] *)
Definition get (n : node) (k : string) : option string :=
  match n with
  | NText _ => None
  | NElem _ attrs _ => assoc k attrs
  end.

(** [tag.get(k) or ''], and [tag[k]] where the attribute is present. *)
Definition attr_or_empty (n : node) (k : string) : string :=
  match get n k with Some v => v | None => EmptyString end.

Definition has_tag (t : string) (n : node) : bool :=
  match n with
  | NText _ => false
  | NElem t' _ _ => String.eqb t t'
  end.

(** Whitespace-separated words, as the parser splits a [class] value. *)
Fixpoint words_go (cur : string) (s : string) : list string :=
  match s with
  | EmptyString => if truthy cur then [cur] else []
  | String c t =>
      if is_space c
      then (if truthy cur then cur :: words_go EmptyString t else words_go EmptyString t)
      else words_go (cur +:+ String c EmptyString) t
  end.
Definition words : string -> list string := words_go EmptyString.

Definition has_class (c : string) (n : node) : bool :=
  match get n "class" with
  | Some v => existsb (String.eqb c) (words v)
  | None => false
  end.

(** The CSS selectors of the program: [h1], [.price], [[data-price]],
    [#product-description]. *)
Inductive selector : Type :=
| SelTag (t : string)
| SelClass (c : string)
| SelAttr (a : string)
| SelId (i : string).

Definition selects (sel : selector) (n : node) : bool :=
  match sel with
  | SelTag t => has_tag t n
  | SelClass c => has_class c n
  | SelAttr a => match get n a with Some _ => true | None => false end
  | SelId i => match get n "id" with Some v => String.eqb i v | None => false end
  end.

(** [soup.select_one(sel)]: the first match in document order, or [None]. *)
Definition select_one (sel : selector) (soup : node) : option node :=
  List.find (selects sel) (descendants soup).

(** [soup.find_all(tag)] *)
Definition find_all (t : string) (soup : node) : list node :=
  List.filter (has_tag t) (descendants soup).

Fixpoint join (l : list string) : string :=
  match l with
  | [] => EmptyString
  | s :: t => s +:+ join t
  end.

(** [elem.get_text()] and [elem.get_text(strip=True)]: the latter strips
    every string and leaves out those that become empty. *)
Definition get_text (n : node) : string := join (strings n).
Definition get_text_strip (n : node) : string :=
  join (List.filter truthy (List.map strip (strings n))).

End Soup.

(** ** Data model *)

Local Open Scope Z_scope.

(** Python exceptions the program meets: an index out of range, and whatever
    a collaborator (HTTP client, parser, URL library) raises. *)
Inductive exn : Type :=
| IndexError
| LibraryError (msg : string).

(** [str(e)] *)
Definition exn_str (e : exn) : string :=
  match e with
  | IndexError => "list index out of range"
  | LibraryError msg => msg
  end.

Inductive outcome (A : Type) : Type :=
| Val (a : A)
| Exc (e : exn).
Arguments Val {A} a.
Arguments Exc {A} e.

(** The variant, image, metafield and product dictionaries of
    [extract_product]. *)
Record variant : Type := Variant {
  v_title : string;
  v_price : string;
  v_sku : string;
  v_inventory_management : string;
  v_inventory_policy : string;
  v_requires_shipping : bool;
  v_taxable : bool;
  v_weight_unit : string;
  v_currency : string
}.

Record image : Type := Image {
  img_src : string;
  img_local_path : string;
  img_filename : string
}.

Record metafield : Type := Metafield {
  mf_namespace : string;
  mf_key : string;
  mf_value : string;
  mf_type : string
}.

Record product : Type := Product {
  title : string;
  body_html : string;
  vendor : string;
  product_type : string;
  tags : list string;
  status : string;
  variants : list variant;
  images : list image;
  metafields : list metafield;
  source_url : string;
  source_sku : string;
  source_price : string;
  scraped_at : string
}.

(** [scraper_status], the process-wide status dictionary. *)
Record run_status : Type := RunStatus {
  running : bool;
  last_run : option string;
  products_scraped : Z;
  total_urls : Z;
  current_index : Z;
  failed_count : Z;
  current_product : option string;
  error : option string
}.

(** One assignment [scraper_status[key] = value]. *)
Inductive status_write : Type :=
| SetRunning (b : bool)
| SetLastRun (ts : string)
| SetProductsScraped (n : Z)
| SetTotalUrls (n : Z)
| SetCurrentIndex (i : Z)
| SetFailedCount (n : Z)
| SetCurrentProduct (u : option string)
| SetError (msg : option string).

Definition apply_write (wr : status_write) (s : run_status) : run_status :=
  match wr with
  | SetRunning b =>
      RunStatus b (last_run s) (products_scraped s) (total_urls s)
                (current_index s) (failed_count s) (current_product s) (error s)
  | SetLastRun ts =>
      RunStatus (running s) (Some ts) (products_scraped s) (total_urls s)
                (current_index s) (failed_count s) (current_product s) (error s)
  | SetProductsScraped n =>
      RunStatus (running s) (last_run s) n (total_urls s)
                (current_index s) (failed_count s) (current_product s) (error s)
  | SetTotalUrls n =>
      RunStatus (running s) (last_run s) (products_scraped s) n
                (current_index s) (failed_count s) (current_product s) (error s)
  | SetCurrentIndex i =>
      RunStatus (running s) (last_run s) (products_scraped s) (total_urls s)
                i (failed_count s) (current_product s) (error s)
  | SetFailedCount n =>
      RunStatus (running s) (last_run s) (products_scraped s) (total_urls s)
                (current_index s) n (current_product s) (error s)
  | SetCurrentProduct u =>
      RunStatus (running s) (last_run s) (products_scraped s) (total_urls s)
                (current_index s) (failed_count s) u (error s)
  | SetError msg =>
      RunStatus (running s) (last_run s) (products_scraped s) (total_urls s)
                (current_index s) (failed_count s) (current_product s) msg
  end.

(** The module-level initial value of [scraper_status]. *)
Definition initial_status : run_status :=
  RunStatus false None 0 0 0 0 None None.

(** The fields of a [NisbetsScraper] object that change during a run. *)
Record scraper : Type := Scraper {
  products : list product;
  failed_urls : list string;
  last_scraped_index : Z
}.

(** [NisbetsScraper.__init__] *)
Definition new_scraper : scraper := Scraper [] [] 0.

(** [progress.json] and [products.json] as [save_progress] and
    [save_products] write them. *)
Record checkpoint : Type := Checkpoint {
  cp_last_index : Z;
  cp_failed_urls : list string;
  cp_timestamp : string
}.

Record catalog : Type := Catalog {
  info_source : string;
  info_updated : string;
  info_total : Z;
  info_failed : Z;
  cat_products : list product;
  cat_failed_urls : list string
}.

(** A JSON file on disk either loads to a value of the expected shape or
    makes [json.load] (or the [.get] after it) raise. *)
Inductive json_file (A : Type) : Type :=
| Unreadable
| Loads (a : A).
Arguments Unreadable {A}.
Arguments Loads {A} a.

(** The data directory (and the bundled URL list next to the program).
    A text file is the list of its lines. *)
Record disk : Type := Disk {
  urls_file : option (list string);
  bundled_urls_file : option (list string);
  progress_file : option (json_file checkpoint);
  output_file : option (json_file catalog);
  image_files : list string
}.

Record world : Type := World {
  w_status : run_status;
  w_self : scraper;
  w_disk : disk;
  w_requests : nat;     (* HTTP requests issued so far *)
  w_ticks : nat         (* readings of the clock so far *)
}.

(** What the HTTP client gives back for one GET. *)
Inductive http_result : Type :=
| Response (status_code : Z) (text : string)
| Failed (e : exn).

(** The collaborators of the program: the network (the answer to the n-th
    request), the lxml parser, [str()] of a tag, [urljoin], the clock, and
    the [DATA_DIR] setting. *)
Record env : Type := Env {
  http : nat -> string -> http_result;
  lxml : string -> outcome Soup.node;
  tag_str : Soup.node -> string;
  urljoin : string -> string -> outcome string;
  isoformat_now : nat -> string;
  DATA_DIR : string
}.

(** ** Effects

    A computation reads and updates the [world], ends normally or with an
    exception, and leaves a trace: the calls to collaborators and the status
    assignments in program order, each with the world as it stood right after
    it.  The trace is what a dashboard reader or a crash can observe. *)

Inductive event : Type :=
| EvStatus (wr : status_write)
| EvGet (url : string)
| EvSleep (lo hi : Z)
| EvParse (html : string)
| EvWriteProducts
| EvWriteProgress
| EvWriteImage (path : string).

Definition trace : Type := list (event * world).

Definition M (A : Type) : Type := world -> outcome A * world * trace.

Definition ret {A} (a : A) : M A := fun w => (Val a, w, []).

Definition raise {A} (e : exn) : M A := fun w => (Exc e, w, []).

Definition bind {A B} (m : M A) (k : A -> M B) : M B :=
  fun w =>
    match m w with
    | (Val a, w1, t1) =>
        match k a w1 with
        | (r, w2, t2) => (r, w2, t1 ++ t2)
        end
    | (Exc e, w1, t1) => (Exc e, w1, t1)
    end.

Notation "x <- m ;; k" := (bind m (fun x => k))
  (at level 100, m at next level, right associativity).
Notation "m ;; k" := (bind m (fun _ => k))
  (at level 100, right associativity).

(** [try: m / except Exception as e: h e] *)
Definition try_except {A} (m : M A) (h : exn -> M A) : M A :=
  fun w =>
    match m w with
    | (Exc e, w1, t1) =>
        match h e w1 with
        | (r, w2, t2) => (r, w2, t1 ++ t2)
        end
    | r => r
    end.

(** [try: m / finally: fin] *)
Definition try_finally {A} (m : M A) (fin : M unit) : M A :=
  fun w =>
    match m w with
    | (r, w1, t1) =>
        match fin w1 with
        | (Val _, w2, t2) => (r, w2, t1 ++ t2)
        | (Exc e, w2, t2) => (Exc e, w2, t1 ++ t2)
        end
    end.

Definition emit (e : event) : M unit := fun w => (Val tt, w, [(e, w)]).

Definition set_self (s : scraper) : M unit :=
  fun w => (Val tt, World (w_status w) s (w_disk w) (w_requests w) (w_ticks w), []).

Definition set_disk (d : disk) : M unit :=
  fun w => (Val tt, World (w_status w) (w_self w) d (w_requests w) (w_ticks w), []).

Definition get_self : M scraper := fun w => (Val (w_self w), w, []).
Definition get_disk : M disk := fun w => (Val (w_disk w), w, []).

(** [scraper_status[key] = value] *)
Definition set_status (wr : status_write) : M unit :=
  fun w =>
    let w' := World (apply_write wr (w_status w)) (w_self w) (w_disk w)
                    (w_requests w) (w_ticks w) in
    (Val tt, w', [(EvStatus wr, w')]).

(** Control flow of a loop body: fall through to the next round, or
    [return v] out of the enclosing function. *)
Inductive loop_ctl (A : Type) : Type :=
| Continue
| Return (v : A).
Arguments Continue {A}.
Arguments Return {A} v.

Fixpoint for_each {A} (l : list A) (body : A -> M unit) : M unit :=
  match l with
  | [] => ret tt
  | a :: t => body a ;; for_each t body
  end.

(** [range(a, b)]: the [n] consecutive integers from [a], for
    [n = max(0, b - a)]. *)
Definition range_from (a : Z) (n : nat) : list Z :=
  List.map (fun j => a + Z.of_nat j) (List.seq 0 n).

Definition range (a b : Z) : list Z := range_from a (Z.to_nat (b - a)).

(** [len(l)] *)
Definition len {A} (l : list A) : Z := Z.of_nat (List.length l).

(** [l[i]]: a negative index counts from the end; out of range raises. *)
Definition item {A} (l : list A) (i : Z) : option A :=
  let j := if i <? 0 then len l + i else i in
  if j <? 0 then None else List.nth_error l (Z.to_nat j).

Definition index {A} (l : list A) (i : Z) : M A :=
  match item l i with
  | Some a => ret a
  | None => raise IndexError
  end.

(** [os.path.join(a, b)] and [os.path.basename(p)] *)
Definition path_join (a b : string) : string :=
  if PyStr.startswith b "/" then b
  else if negb (PyStr.truthy a) then b
  else if PyStr.truthy (PyStr.last_field "/" a) then a +:+ "/" +:+ b
  else a +:+ b.

Definition basename (p : string) : string := PyStr.last_field "/" p.

(** [x or y] on strings *)
Definition str_or (x y : string) : string := if PyStr.truthy x then x else y.

(** ** NisbetsScraper *)

Module NisbetsScraper.
Import PyStr Re Soup.

Section WithEnv.
Variable E : env.

Definition images_dir : string := path_join (DATA_DIR E) "images".

(** [datetime.now().isoformat()] *)
Definition now : M string :=
  fun w =>
    (Val (isoformat_now E (w_ticks w)),
     World (w_status w) (w_self w) (w_disk w) (w_requests w) (S (w_ticks w)),
     []).

(** [self.scraper.get(url, timeout=30)] with the two attributes read from
    the response. *)
Definition scraper_get (url : string) : M (Z * string) :=
  fun w =>
    let w' := World (w_status w) (w_self w) (w_disk w) (S (w_requests w)) (w_ticks w) in
    match http E (w_requests w) url with
    | Response code text => (Val (code, text), w', [(EvGet url, w')])
    | Failed e => (Exc e, w', [(EvGet url, w')])
    end.

(** [BeautifulSoup(html, 'lxml')] *)
Definition BeautifulSoup (html : string) : M node :=
  fun w =>
    match lxml E html with
    | Val soup => (Val soup, w, [(EvParse html, w)])
    | Exc e => (Exc e, w, [(EvParse html, w)])
    end.

Definition init_scraper : M unit := ret tt.

(** [time.sleep(random.uniform(min_sec, max_sec))]: the bounds are
    recorded, the drawn duration is not. *)
Definition random_delay (min_sec max_sec : Z) : M unit :=
  emit (EvSleep min_sec max_sec).

Fixpoint fetch_page (url : string) (retries : nat) : M (option string) :=
  match retries with
  | O => ret None
  | S attempts_left =>
      ctl <- try_except
               (resp <- scraper_get url ;;
                if fst resp =? 200 then ret (Return (Some (snd resp)))
                else if fst resp =? 404 then ret (Return None)
                else (random_delay 3 6 ;; ret Continue))
               (fun _ => random_delay 3 6 ;; ret Continue) ;;
      match ctl with
      | Return v => ret v
      | Continue => fetch_page url attempts_left
      end
  end.

Definition write_image (filepath : string) : M unit :=
  d <- get_disk ;;
  set_disk (Disk (urls_file d) (bundled_urls_file d) (progress_file d)
                 (output_file d) (filepath :: image_files d)) ;;
  emit (EvWriteImage filepath).

Definition download_image (url sku : string) (idx : nat) : M (option string) :=
  try_except
    (let ext := if contains ".png" (lower url) then ".png" else ".jpg" in
     let filename := sku +:+ "_" +:+ of_nat idx +:+ ext in
     let filepath := path_join images_dir filename in
     d <- get_disk ;;
     if existsb (String.eqb filepath) (image_files d) then ret (Some filepath)
     else
       resp <- scraper_get url ;;
       if fst resp =? 200 then (write_image filepath ;; ret (Some filepath))
       else ret None)
    (fun _ => ret None).

(** The patterns of [extract_product].  The currency sign of the price
    pattern is written in the source as the two characters U+00C2 U+00A3
    (bytes C3 82 C2 A3). *)
Definition sku_url_re : regex :=
  RSeq (lit_char "/")
       (RSeq (RGroup 1 (RSeq (RRep is_alpha 1 (Some 4%nat)) (RRep is_digit 2 (Some 6%nat))))
             REol).

Definition price_prefix : string :=
  String "195" (String "130" (String "194" (String "163" EmptyString))).

Definition price_re : regex :=
  RSeq (lit price_prefix)
       (RGroup 1 (RSeq (RRep (fun c => is_digit c || Ascii.eqb c ",") 1 None)
                       (RSeq (RRep (Ascii.eqb ".") 0 (Some 1%nat))
                             (RRep is_digit 0 None)))).

Definition size_re : regex :=
  RSeq (lit_char "/")
       (RSeq (RGroup 1 (RAlt (lit "small_new")
                       (RAlt (lit "medium")
                       (RAlt (lit "medium2_new") (lit "large_new")))))
             (lit_char "/")).

Definition base_re : regex :=
  RSeq (RRep dot 0 None)
       (RSeq (lit_char "/")
       (RSeq (RGroup 1 (RRep (not_char "/") 1 None))
       (RSeq (lit_char ".")
       (RSeq (RGroup 2 (RAlt (lit "jpg") (lit "png")))
             (RRep dot 0 None))))).

(** The selector loops: the first selector that yields a result wins. *)
Fixpoint probe_price (sels : list selector) (soup : node) : option string :=
  match sels with
  | [] => None
  | sel :: rest =>
      match select_one sel soup with
      | Some price_elem =>
          let text := get_text price_elem in
          match search price_re text with
          | Some price_match => Some (remove_char "," (group text price_match 1%nat))
          | None => probe_price rest soup
          end
      | None => probe_price rest soup
      end
  end.

Fixpoint probe_elem (sels : list selector) (soup : node) : option node :=
  match sels with
  | [] => None
  | sel :: rest =>
      match select_one sel soup with
      | Some elem => Some elem
      | None => probe_elem rest soup
      end
  end.

Definition price_selectors : list selector :=
  [SelClass "product-price"; SelClass "price"; SelAttr "data-price"].
Definition description_selectors : list selector :=
  [SelClass "product-description"; SelClass "description"; SelId "product-description"].
Definition brand_selectors : list selector :=
  [SelClass "product-brand"; SelClass "brand-name"; SelAttr "data-brand"].

(** The image loop; [seen] and [images] are the two accumulators. *)
Fixpoint collect_images (imgs : list node) (sku : string)
         (seen : list string) (images : list image) : M (list image) :=
  match imgs with
  | [] => ret images
  | img :: rest =>
      let src := str_or (attr_or_empty img "src") (attr_or_empty img "data-src") in
      if contains "prodimage" src && contains "media.nisbets.com" src then
        let src := sub size_re (fun _ => "/largezoom/") src in
        let low := lower src in
        let base := sub base_re (fun m => group low m 1%nat) low in
        if existsb (String.eqb base) seen then collect_images rest sku seen images
        else
          local <- download_image src sku (List.length images + 1)%nat ;;
          match local with
          | Some path =>
              if truthy path
              then collect_images rest sku (base :: seen)
                                  (images ++ [Image src path (basename path)])
              else collect_images rest sku (base :: seen) images
          | None => collect_images rest sku (base :: seen) images
          end
      else collect_images rest sku seen images
  end.

(** The dictionary [extract_product] starts from. *)
Definition blank_product (url ts : string) : product :=
  Product "" "" "Nisbets" "" [] "draft" [] [] [] url "" "" ts.

Definition default_variant (price : option string) (sku : string) : variant :=
  Variant "Default"
          (match price with Some p => str_or p "0.00" | None => "0.00" end)
          sku "shopify" "deny" true true "kg" "GBP".

Definition uk_metafields : list metafield :=
  [Metafield "product" "currency" "GBP" "single_line_text_field";
   Metafield "product" "country_of_origin" "United Kingdom" "single_line_text_field"].

(** The fields read off the URL and the parsed page. *)
Definition sku_of_url (url : string) : string :=
  match search sku_url_re url with
  | Some url_match => upper (group url url_match 1%nat)
  | None => EmptyString
  end.

Definition title_of (soup : node) : string :=
  match select_one (SelTag "h1") soup with
  | Some title_elem => get_text_strip title_elem
  | None => EmptyString
  end.

Definition description_of (soup : node) : string :=
  match probe_elem description_selectors soup with
  | Some desc_elem => tag_str E desc_elem
  | None => EmptyString
  end.

Definition brand_of (soup : node) : string :=
  match probe_elem brand_selectors soup with
  | Some brand_elem => get_text_strip brand_elem
  | None => "Nisbets"
  end.

(** The body of the [try] block.  Parsing is its first statement and the
    only one that can raise on this model of the page, so an exception
    leaves the dictionary as it was created. *)
Definition extract_fields (html url ts : string) : M product :=
  soup <- BeautifulSoup html ;;
  let sku := sku_of_url url in
  let price := probe_price price_selectors soup in
  imgs <- collect_images (find_all "img" soup) sku [] [] ;;
  ret (Product (title_of soup) (description_of soup) (brand_of soup) ""
               ["SKU:" +:+ sku; "UK"; "Nisbets UK"; "GBP"]
               "draft" [default_variant price sku] (List.firstn 10%nat imgs)
               uk_metafields url sku
               (match price with Some p => p | None => EmptyString end) ts).

Definition extract_product (html url : string) : M product :=
  ts <- now ;;
  try_except (extract_fields html url ts)
             (fun _ => ret (blank_product url ts)).

Definition clean_lines (lines : list string) : list string :=
  List.filter truthy (List.map strip lines).

(** What [load_urls] reads: the run-time list, else the bundled one. *)
Definition loaded_urls (d : disk) : list string :=
  match urls_file d with
  | Some lines => clean_lines lines
  | None =>
      match bundled_urls_file d with
      | Some lines => clean_lines lines
      | None => []
      end
  end.

Definition load_urls : M (list string) :=
  d <- get_disk ;;
  ret (loaded_urls d).

Definition load_progress : M bool :=
  d <- get_disk ;;
  match progress_file d with
  | Some (Loads data) =>
      s <- get_self ;;
      set_self (Scraper (products s) (cp_failed_urls data) (cp_last_index data)) ;;
      ret true
  | _ => ret false
  end.

Definition save_progress (idx : Z) : M unit :=
  s <- get_self ;;
  ts <- now ;;
  d <- get_disk ;;
  set_disk (Disk (urls_file d) (bundled_urls_file d)
                 (Some (Loads (Checkpoint idx (failed_urls s) ts)))
                 (output_file d) (image_files d)) ;;
  emit EvWriteProgress.

Definition load_products : M bool :=
  d <- get_disk ;;
  match output_file d with
  | Some (Loads data) =>
      s <- get_self ;;
      set_self (Scraper (cat_products data) (failed_urls s) (last_scraped_index s)) ;;
      ret true
  | _ => ret false
  end.

Definition save_products : M unit :=
  s <- get_self ;;
  ts <- now ;;
  d <- get_disk ;;
  set_disk (Disk (urls_file d) (bundled_urls_file d) (progress_file d)
                 (Some (Loads (Catalog "Nisbets UK" ts (len (products s))
                                       (len (failed_urls s)) (products s)
                                       (failed_urls s))))
                 (image_files d)) ;;
  emit EvWriteProducts.

(** One round of the [for i in range(start, end)] loop of [run_batch], in
    the three parts it has: fetching, recording the result, and advancing
    with the periodic save. *)
Definition record_result (url : string) (html : option string) : M unit :=
  if match html with Some h => truthy h | None => false end
  then
    product <- extract_product (match html with Some h => h | None => EmptyString end) url ;;
    if truthy (title product)
    then
      s <- get_self ;;
      set_self (Scraper (products s ++ [product]) (failed_urls s) (last_scraped_index s)) ;;
      set_status (SetProductsScraped (len (products s ++ [product])))
    else ret tt
  else
    s <- get_self ;;
    set_self (Scraper (products s) (failed_urls s ++ [url]) (last_scraped_index s)) ;;
    set_status (SetFailedCount (len (failed_urls s ++ [url]))).

Definition advance_and_save (i : Z) : M unit :=
  s <- get_self ;;
  set_self (Scraper (products s) (failed_urls s) (i + 1)) ;;
  random_delay 1 2 ;;
  if (i + 1) mod 25 =? 0
  then (save_products ;; save_progress (i + 1))
  else ret tt.

Definition batch_iteration (urls : list string) (i : Z) : M unit :=
  url <- index urls i ;;
  set_status (SetCurrentIndex (i + 1)) ;;
  set_status (SetCurrentProduct (Some url)) ;;
  html <- fetch_page url 3%nat ;;
  record_result url html ;;
  advance_and_save i.

Definition no_urls_message : string := "No URLs found. Run URL scraper first.".

(** The [try] block of [run_batch] in its parts: loading the saved state
    and publishing it (giving [start]), the loop, and the final save.  The
    early [return] is the first branch. *)
Definition resume (total : Z) : M Z :=
  load_products ;;
  load_progress ;;
  s <- get_self ;;
  set_status (SetTotalUrls total) ;;
  set_status (SetCurrentIndex (last_scraped_index s)) ;;
  set_status (SetProductsScraped (len (products s))) ;;
  ret (last_scraped_index s).

Definition finish : M unit :=
  save_products ;;
  s <- get_self ;;
  save_progress (last_scraped_index s) ;;
  ts <- now ;;
  set_status (SetLastRun ts).

Definition run_batch_body (batch_size : Z) : M unit :=
  init_scraper ;;
  urls <- load_urls ;;
  match urls with
  | [] =>
      set_status (SetError (Some no_urls_message)) ;;
      set_status (SetRunning false)
  | _ =>
      start <- resume (len urls) ;;
      let end_ := Z.min (start + batch_size) (len urls) in
      for_each (range start end_) (batch_iteration urls) ;;
      finish
  end.

Definition run_batch (batch_size : Z) : M unit :=
  set_status (SetRunning true) ;;
  set_status (SetError None) ;;
  try_finally
    (try_except (run_batch_body batch_size)
                (fun e => set_status (SetError (Some (exn_str e)))))
    (set_status (SetRunning false) ;;
     set_status (SetCurrentProduct None)).

End WithEnv.
(** Names for what [download_image] and [extract_product] compute on the
    way. *)
Section Files.
Variable E : env.

(** The file name and the path [download_image] derives from its
    arguments, and [os.path.exists] for an image file. *)
Definition image_name (url sku : string) (idx : nat) : string :=
  sku +:+ "_" +:+ of_nat idx +:+ (if contains ".png" (lower url) then ".png" else ".jpg").

Definition image_target (url sku : string) (idx : nat) : string :=
  path_join (images_dir E) (image_name url sku idx).

Definition stored (d : disk) (path : string) : bool :=
  existsb (String.eqb path) (image_files d).

(** The descriptor [im] is the [j]-th (from 0) that [extract_product]
    stored for [sku]: its file is the one [download_image] names with the
    number [j + 1]. *)
Definition numbered_image (sku : string) (j : nat) (im : image) : Prop :=
  img_local_path im = image_target (img_src im) sku (j + 1) /\
  img_filename im = basename (img_local_path im).

(** The shape of a SKU as [extract_product] stores it: one to four
    capital letters, then two to six digits. *)
Definition sku_shaped (s : string) : Prop :=
  exists letters digits,
    s = letters +:+ digits /\
    all_chars is_upper letters = true /\ all_chars is_digit digits = true /\
    (1 <= String.length letters <= 4)%nat /\ (2 <= String.length digits <= 6)%nat.

(** A digit or the decimal point. *)
Definition decimal_char (c : ascii) : bool := is_digit c || Ascii.eqb c ".".

End Files.

End NisbetsScraper.

(** ** URLScraper *)

Module URLScraper.
Import PyStr Re Soup.

Definition base_url : string := "https://www.nisbets.co.uk".

Definition product_skip : list string :=
  ["/c/"; "/cat/"; "/login"; "/basket"; "/checkout"; "/help"; "/blog"].

(** [/[a-zA-Z]{1,4}\d{2,6}$] *)
Definition sku_re : regex :=
  RSeq (RRep is_alpha 1 (Some 4%nat)) (RSeq (RRep is_digit 2 (Some 6%nat)) REol).
Definition product_re : regex := RSeq (lit_char "/") sku_re.

(** [^[a-zA-Z]{1,4}\d{2,6}$], the shape of a final path segment. *)
Definition segment_re : regex := RSeq RBol sku_re.

(** [re.search(r, s)] finds a match. *)
Definition matches (r : regex) (s : string) : bool :=
  match search r s with Some _ => true | None => false end.

Definition is_product_url (url : string) : bool :=
  if negb (startswith url base_url) then false
  else
    let path := first_field "?" url in
    if existsb (fun s => contains s (lower path)) product_skip then false
    else matches product_re path.

Definition category_skip : list string :=
  ["/login"; "/basket"; "/checkout"; "/account"; "/help"; ".pdf"; ".jpg"].
Definition category_patterns : list string :=
  ["/c/"; "-equipment"; "-supplies"; "catering"; "refrigeration"].

Definition is_category_url (url : string) : bool :=
  if negb (startswith url base_url) then false
  else
    let path := lower (first_field "?" url) in
    if existsb (fun s => contains s path) category_skip then false
    else existsb (fun p => contains p path) category_patterns.

(** The three sets of a [URLScraper] object. *)
Record crawler : Type := Crawler {
  product_links : gset string;
  category_links : gset string;
  visited : gset string
}.

(** [URLScraper.__init__] *)
Definition new_crawler : crawler := Crawler ∅ ∅ ∅.

(** The body of the link loop of [scrape_page] for one normalised link. *)
Definition classify (full : string) (c : crawler) : crawler :=
  if is_product_url full
  then Crawler ({[full]} ∪ product_links c) (category_links c) (visited c)
  else if is_category_url full && negb (bool_decide (full ∈ visited c))
       then Crawler (product_links c) ({[full]} ∪ category_links c) (visited c)
       else c.

(** No member of the pending or visited category sets is a product URL. *)
Definition frontier_clean (c : crawler) : Prop :=
  (forall u, u ∈ category_links c -> is_product_url u = false) /\
  (forall u, u ∈ visited c -> is_product_url u = false).

Section WithEnv.
Variable E : env.

(** [soup.find_all('a', href=True)] *)
Definition anchors (soup : node) : list node :=
  List.filter (fun n => match get n "href" with Some _ => true | None => false end)
              (find_all "a" soup).

(** The link loop.  An exception of [urljoin] leaves it, and the bare
    [except: pass] of [scrape_page] keeps what was collected so far. *)
Fixpoint scrape_links (l : list node) (c : crawler) : crawler :=
  match l with
  | [] => c
  | a :: rest =>
      match urljoin E base_url (attr_or_empty a "href") with
      | Exc _ => c
      | Val joined =>
          let full := rstrip_by (Ascii.eqb "/") (first_field "?" joined) in
          scrape_links rest (classify full c)
      end
  end.

(** [scrape_page], given what [self.scraper.get(url, timeout=30)] did. *)
Definition scrape_page (r : http_result) (c : crawler) : crawler :=
  match r with
  | Response code text =>
      if negb (code =? 200) then c
      else match lxml E text with
           | Val soup => scrape_links (anchors soup) c
           | Exc _ => c
           end
  | Failed _ => c
  end.

(** [self.category_links.pop()] returning [url], and [self.visited.add(url)]. *)
Definition pop (url : string) (c : crawler) : crawler :=
  Crawler (product_links c) (category_links c ∖ {[url]}) (visited c).
Definition visit (url : string) (c : crawler) : crawler :=
  Crawler (product_links c) (category_links c) ({[url]} ∪ visited c).

(** The states [run] goes through, with the value of [pages].  The set
    [pop] may return any member, and the network may answer anything.  The
    object outlives a run, so a run may start from the state an earlier one
    left.  Status updates, sleeping and [save_urls] do not touch the three
    sets and are left out. *)
Inductive crawl_reach (max_pages : nat) : crawler -> nat -> Prop :=
| reach_first r :
    crawl_reach max_pages (scrape_page r new_crawler) 0
| reach_again c n r :
    crawl_reach max_pages c n ->
    crawl_reach max_pages (scrape_page r c) 0
| reach_skip c n url :
    crawl_reach max_pages c n ->
    (n < max_pages)%nat ->
    url ∈ category_links c ->
    url ∈ visited c ->
    crawl_reach max_pages (pop url c) n
| reach_visit c n url r :
    crawl_reach max_pages c n ->
    (n < max_pages)%nat ->
    url ∈ category_links c ->
    url ∉ visited c ->
    crawl_reach max_pages (scrape_page r (visit url (pop url c))) (S n).

End WithEnv.
(** A link without a query part. *)
Definition no_query (u : string) : bool := all_chars (not_char "?") u.

(** Every collected link is what its set says, and no pending category
    link has been visited. *)
Definition classified (c : crawler) : Prop :=
  (forall u, u ∈ product_links c -> is_product_url u = true /\ no_query u = true) /\
  (forall u, u ∈ category_links c -> is_category_url u = true /\ u ∉ visited c) /\
  (forall u, u ∈ visited c -> is_category_url u = true).

(** [sorted(self.product_links)]: strings compare by code point, which on
    UTF-8 encodings is the order of the bytes. *)
Definition sorted_links (c : crawler) : list string :=
  merge_sort String.le (elements (product_links c)).

Definition newline : string := String "010" EmptyString.

(** The text [save_urls] writes: every link followed by a newline (the
    data directory is on a POSIX system, where the newline is written as
    it is). *)
Definition urls_text (c : crawler) : string :=
  join (List.map (fun u => u +:+ newline) (sorted_links c)).

(** The lines of a text file as [for line in f] yields them: a line ends
    after LF, CR or CR LF, and the terminator is handed over as LF. *)
Fixpoint text_lines (s : string) : list string :=
  match s with
  | EmptyString => []
  | String c t =>
      if Ascii.eqb c "010" then newline :: text_lines t
      else if Ascii.eqb c "013" then
        match t with
        | String c' t' =>
            if Ascii.eqb c' "010" then newline :: text_lines t'
            else newline :: text_lines t
        | EmptyString => [newline]
        end
      else
        match text_lines t with
        | [] => [String c EmptyString]
        | l :: r => String c l :: r
        end
  end.

(** [save_urls]: the run-time URL list is replaced. *)
Definition save_urls (c : crawler) (d : disk) : disk :=
  Disk (Some (text_lines (urls_text c))) (bundled_urls_file d) (progress_file d)
       (output_file d) (image_files d).

End URLScraper.

(** ** Observations on runs *)

Definition outcome_of {A} (x : outcome A * world * trace) : outcome A := fst (fst x).
Definition world_of {A} (x : outcome A * world * trace) : world := snd (fst x).
Definition trace_of {A} (x : outcome A * world * trace) : trace := snd x.
Arguments outcome_of {A} x /.
Arguments world_of {A} x /.
Arguments trace_of {A} x /.

(** The events of a trace, without the snapshots. *)
Definition events (t : trace) : list event := List.map fst t.

(** Calls to collaborators, as opposed to status assignments and writes of
    the two JSON files. *)
Definition io_event (e : event) : bool :=
  match e with
  | EvGet _ | EvSleep _ _ | EvParse _ | EvWriteImage _ => true
  | EvStatus _ | EvWriteProducts | EvWriteProgress => false
  end.

(** [w'] differs from [w] at most in the request and clock counters and in
    the image files. *)
Definition frame (w w' : world) : Prop :=
  w_self w' = w_self w /\
  w_status w' = w_status w /\
  urls_file (w_disk w') = urls_file (w_disk w) /\
  bundled_urls_file (w_disk w') = bundled_urls_file (w_disk w) /\
  progress_file (w_disk w') = progress_file (w_disk w) /\
  output_file (w_disk w') = output_file (w_disk w).

(** A computation that only talks to collaborators. *)
Definition io_only {A} (m : M A) : Prop :=
  forall w,
    frame w (world_of (m w)) /\
    Forall (fun ew => io_event (fst ew) = true /\ frame w (snd ew)) (trace_of (m w)).

(** A computation that always ends normally. *)
Definition total {A} (m : M A) : Prop :=
  forall w, exists a, outcome_of (m w) = Val a.

(** [hoare Pre m Post]: started in a world satisfying [Pre], [m] ends with
    an outcome, a world and a trace satisfying [Post]. *)
Definition hoare {A} (Pre : world -> Prop) (m : M A)
           (Post : outcome A -> world -> trace -> Prop) : Prop :=
  forall w, Pre w -> Post (outcome_of (m w)) (world_of (m w)) (trace_of (m w)).

(** Every snapshot of a trace satisfies [D]. *)
Definition throughout (D : world -> Prop) (t : trace) : Prop :=
  Forall (fun ew => D (snd ew)) t.

(** The URLs announced as [current_product], in order: the URLs a batch
    attempted. *)
Definition announced (e : event) : list string :=
  match e with
  | EvStatus (SetCurrentProduct (Some url)) => [url]
  | _ => []
  end.

Definition attempted (t : trace) : list string :=
  List.flat_map (fun ew => announced (fst ew)) t.

(** The world right after a batch round announced [url] at position [i]. *)
Definition started (i : Z) (url : string) (w : world) : world :=
  World (apply_write (SetCurrentProduct (Some url))
                     (apply_write (SetCurrentIndex (i + 1)) (w_status w)))
        (w_self w) (w_disk w) (w_requests w) (w_ticks w).

(** The world right after [run_batch] made its two assignments at entry. *)
Definition entered (w : world) : world :=
  World (apply_write (SetError None) (apply_write (SetRunning true) (w_status w)))
        (w_self w) (w_disk w) (w_requests w) (w_ticks w).

(** Where a new process would resume: the index in [progress.json], or 0
    when the file is missing or unreadable. *)
Definition resume_point (d : disk) : Z :=
  match progress_file d with
  | Some (Loads cp) => cp_last_index cp
  | _ => 0
  end.

(** The URLs attempted in memory but not covered by the checkpoint on
    disk: what a crash in this world loses. *)
Definition unsaved (w : world) : Z :=
  last_scraped_index (w_self w) - resume_point (w_disk w).

(** [w'] has the position and the checkpoint file of [w]. *)
Definition same_checkpoint (w w' : world) : Prop :=
  last_scraped_index (w_self w') = last_scraped_index (w_self w) /\
  progress_file (w_disk w') = progress_file (w_disk w).

(** Between two saves: what is unsaved is what was attempted since the
    last multiple of 25, at most. *)
Definition within_cadence (w : world) : Prop :=
  unsaved w <= last_scraped_index (w_self w) mod 25.

(** Catalog and checkpoint on disk agree with the scraper object. *)
Definition persisted (w : world) : Prop :=
  exists cat cp,
    output_file (w_disk w) = Some (Loads cat) /\
    cat_products cat = products (w_self w) /\
    cat_failed_urls cat = failed_urls (w_self w) /\
    progress_file (w_disk w) = Some (Loads cp) /\
    cp_last_index cp = last_scraped_index (w_self w) /\
    cp_failed_urls cp = failed_urls (w_self w).

(** The object after [load_products()] and [load_progress()]: the catalog
    replaces [products] when [products.json] loads, the checkpoint
    replaces [failed_urls] and [last_scraped_index] when [progress.json]
    loads; what does not load keeps its value in memory. *)
Definition resumed (w : world) : scraper :=
  let s := w_self w in
  let s1 := match output_file (w_disk w) with
            | Some (Loads cat) =>
                Scraper (cat_products cat) (failed_urls s) (last_scraped_index s)
            | _ => s
            end in
  match progress_file (w_disk w) with
  | Some (Loads cp) => Scraper (products s1) (cp_failed_urls cp) (cp_last_index cp)
  | _ => s1
  end.

(** The status after [run_batch] published what it resumed from. *)
Definition resumed_status (total : Z) (w : world) : run_status :=
  apply_write (SetProductsScraped (len (products (resumed w))))
    (apply_write (SetCurrentIndex (last_scraped_index (resumed w)))
       (apply_write (SetTotalUrls total) (w_status w))).

(** What a batch leaves of the data directory: the two URL lists as they
    were, and every image file that was there. *)
Definition kept (d d' : disk) : Prop :=
  urls_file d' = urls_file d /\
  bundled_urls_file d' = bundled_urls_file d /\
  forall p, NisbetsScraper.stored d p = true -> NisbetsScraper.stored d' p = true.

(** Every image of the record has its file in the data directory. *)
Definition on_disk (d : disk) (p : product) : Prop :=
  Forall (fun im => NisbetsScraper.stored d (img_local_path im) = true) (images p).

(** From [w] to [w'] the scraper object grew by records and failures that
    stem from the URLs [att], at most one entry per URL. *)
Definition batch_progress (att : list string) (w w' : world) : Prop :=
  kept (w_disk w) (w_disk w') /\
  exists ps fs,
    products (w_self w') = products (w_self w) ++ ps /\
    failed_urls (w_self w') = failed_urls (w_self w) ++ fs /\
    Forall (fun p => title p <> EmptyString /\ In (source_url p) att /\
                     on_disk (w_disk w') p) ps /\
    Forall (fun u => In u att) fs /\
    (length ps + length fs <= length att)%nat.

(** The dashboard counters agree with the scraper object: [total] URLs,
    the number of records, and the position. *)
Definition published (total : Z) (w : world) : Prop :=
  total_urls (w_status w) = total /\
  products_scraped (w_status w) = len (products (w_self w)) /\
  current_index (w_status w) = last_scraped_index (w_self w).

(** A response that makes [fetch_page] sleep and try again: any status
    other than 200 and 404, or an exception of the client. *)
Definition is_transient (r : http_result) : bool :=
  match r with
  | Response code _ => negb (code =? 200) && negb (code =? 404)
  | Failed _ => true
  end.

(** [j] rounds of "request, then sleep 3 to 6 seconds". *)
Fixpoint retry_events (url : string) (j : nat) : list event :=
  match j with
  | O => []
  | S j' => EvGet url :: EvSleep 3 6 :: retry_events url j'
  end.

(** The world after [j] more requests. *)
Definition bump_by (j : nat) (w : world) : world :=
  World (w_status w) (w_self w) (w_disk w) (w_requests w + j) (w_ticks w).

(** ** Scenarios

    Concrete collaborators and worlds on which the program is run below. *)

Module Scenario.
Import PyStr Soup.

Definition widget_url : string := "https://www.nisbets.co.uk/a/ab12345".

(** A page with a heading and a price element, and the tree the parser
    builds for it. *)
Definition widget_html : string :=
  "<html><body><h1>Widget</h1><span class='price'>£12.50</span></body></html>".

Definition widget_page : node :=
  NElem "[document]" []
    [NElem "html" []
       [NElem "body" []
          [NElem "h1" [] [NText "Widget"];
           NElem "span" [("class", "price")] [NText "£12.50"]]]].

(** The network serves the page at every request, the parser knows it. *)
Definition widget_env : env :=
  Env (fun _ _ => Response 200 widget_html)
      (fun html => if String.eqb html widget_html then Val widget_page
                   else Exc (LibraryError "unexpected markup"))
      (fun _ => EmptyString)
      (fun _ href => Val href)
      (fun n => "2026-01-01T00:00:0" +:+ of_nat n)
      "/app/data".

(** A new process: one URL in the run-time list, no checkpoint, no
    catalog. *)
Definition widget_world : world :=
  World initial_status new_scraper
        (Disk (Some [widget_url]) None None None []) 0 0.

(** An installation whose parser raises on every page. *)
Definition parser_down_env : env :=
  Env (fun _ _ => Response 200 widget_html)
      (fun _ => Exc (LibraryError "Couldn't find a tree builder with the features you requested: lxml"))
      (fun _ => EmptyString)
      (fun _ href => Val href)
      (fun n => of_nat n)
      "/app/data".

(** A network that answers 503, then raises, then serves a page, then
    answers 404, and 500 from then on. *)
Definition flaky_env : env :=
  Env (fun n _ =>
         match n with
         | 0%nat => Response 503 "busy"
         | 1%nat => Failed (LibraryError "Read timed out")
         | 2%nat => Response 200 "<h1>ok</h1>"
         | 3%nat => Response 404 "gone"
         | _ => Response 500 "error"
         end)
      (fun _ => Exc (LibraryError "no parser"))
      (fun _ => EmptyString)
      (fun _ href => Val href)
      (fun n => of_nat n)
      "/app/data".

(** Every page is gone, and twenty-five URLs wait in a new process. *)
Definition gone_env : env :=
  Env (fun _ _ => Response 404 "gone")
      (fun _ => Exc (LibraryError "no parser"))
      (fun _ => EmptyString)
      (fun _ href => Val href)
      (fun n => of_nat n)
      "/app/data".

Definition backlog_urls : list string :=
  List.map (fun j => "https://www.nisbets.co.uk/p/ab" +:+ of_nat (100 + j)) (List.seq 0 25).

Definition backlog_world : world :=
  World initial_status new_scraper (Disk (Some backlog_urls) None None None []) 0 0.

(** The same backlog with a checkpoint at 20. *)
Definition resumed_world : world :=
  World initial_status new_scraper
        (Disk (Some backlog_urls) None
              (Some (Loads (Checkpoint 20 [] "2026-01-01T00:00:00"))) None [])
        0 0.

(** A page without a heading. *)
Definition untitled_html : string := "<html><body><p>Coming soon</p></body></html>".

Definition untitled_page : node :=
  NElem "[document]" []
    [NElem "html" [] [NElem "body" [] [NElem "p" [] [NText "Coming soon"]]]].

Definition untitled_env : env :=
  Env (fun _ _ => Response 200 untitled_html)
      (fun _ => Val untitled_page)
      (fun _ => EmptyString)
      (fun _ href => Val href)
      (fun n => of_nat n)
      "/app/data".

(** A server that answers 200 with nothing in the body. *)
Definition empty_env : env :=
  Env (fun _ _ => Response 200 EmptyString)
      (fun _ => Exc (LibraryError "no parser"))
      (fun _ => EmptyString)
      (fun _ href => Val href)
      (fun n => of_nat n)
      "/app/data".

(** A listing page with two links: one that both classifiers accept, and
    a category. *)
Definition both_url : string := "https://www.nisbets.co.uk/catering/ab123".

Definition listing_page : node :=
  NElem "[document]" []
    [NElem "html" []
       [NElem "body" []
          [NElem "a" [("href", "/catering/ab123")] [NText "Whisk"];
           NElem "a" [("href", "/ovens/c/12?page=2")] [NText "Ovens"]]]].

Definition listing_env : env :=
  Env (fun _ _ => Response 200 "<html>listing</html>")
      (fun _ => Val listing_page)
      (fun _ => EmptyString)
      (fun base href => Val (base +:+ href))
      (fun n => of_nat n)
      "/app/data".

Definition idle_world (requests : nat) : world :=
  World initial_status new_scraper (Disk None None None None []) requests 0.

(** A product page with a heading and three pictures: two sizes of the
    same product image, and a logo from another host. *)
Definition gallery_page : node :=
  NElem "[document]" []
    [NElem "html" []
       [NElem "body" []
          [NElem "h1" [] [NText " Whisk "];
           NElem "img" [("src", "https://media.nisbets.com/asset/prodimage/medium/k546_whisk.jpg")] [];
           NElem "img" [("data-src", "https://media.nisbets.com/asset/prodimage/small_new/K546_whisk.JPG?w=90")] [];
           NElem "img" [("src", "https://www.nisbets.co.uk/static/logo.png")] []]]].

(** Every request is answered with 200 and every page parses to the
    gallery. *)
Definition gallery_env : env :=
  Env (fun _ _ => Response 200 "<html>gallery</html>")
      (fun _ => Val gallery_page)
      (fun _ => EmptyString)
      (fun base href => Val (base +:+ href))
      (fun n => of_nat n)
      "/app/data".

Definition whisk_url : string := "https://www.nisbets.co.uk/vogue-whisk/k546".

Definition gallery_world : world :=
  World initial_status new_scraper (Disk (Some [whisk_url]) None None None []) 0 0.

Definition whisk_image : string :=
  "https://media.nisbets.com/asset/prodimage/largezoom/k546_whisk.jpg".
Definition whisk_image_2 : string :=
  "https://media.nisbets.com/asset/prodimage/largezoom/k546_side.jpg".

(** The backlog with a checkpoint that points before the list. *)
Definition corrupt_world : world :=
  World initial_status new_scraper
        (Disk (Some backlog_urls) None
              (Some (Loads (Checkpoint (-30) [] "2026-01-01T00:00:00"))) None [])
        0 0.

(** The backlog with a checkpoint file that does not load, in a process
    that already worked through three URLs. *)
Definition unreadable_world : world :=
  World initial_status (Scraper [] [] 3)
        (Disk (Some backlog_urls) None (Some Unreadable) None [])
        0 0.

End Scenario.

(** * Properties *)

Import PyStr Re Soup NisbetsScraper URLScraper.

(** ** The definitions on small inputs *)

Example split_query : split_on "?" "/p/ab123?ref=1?x" = ["/p/ab123"; "ref=1"; "x"].
Proof. reflexivity. Qed.

Example normalise_link :
  rstrip_by (Ascii.eqb "/") (first_field "?" "https://www.nisbets.co.uk/ovens/c/12/?page=2")
  = "https://www.nisbets.co.uk/ovens/c/12".
Proof. reflexivity. Qed.

Example sku_from_url :
  sku_of_url "https://www.nisbets.co.uk/a/ab12345" = "AB12345" /\
  sku_of_url "https://www.nisbets.co.uk/a/abcde12" = EmptyString /\
  sku_of_url "https://www.nisbets.co.uk/a/ab1" = EmptyString.
Proof. repeat split; vm_compute; reflexivity. Qed.

Example price_with_separator :
  option_map (fun m => remove_char "," (group "now Â£1,234.50 each" m 1))
             (search price_re "now Â£1,234.50 each") = Some "1234.50".
Proof. vm_compute. reflexivity. Qed.

Example image_size_and_base :
  sub size_re (fun _ => "/largezoom/")
      "https://media.nisbets.com/asset/core/prodimage/medium/AB123_x.JPG"
    = "https://media.nisbets.com/asset/core/prodimage/largezoom/AB123_x.JPG" /\
  sub base_re (fun m => group "https://media.nisbets.com/prodimage/largezoom/ab123_x.jpg?w=1" m 1)
      "https://media.nisbets.com/prodimage/largezoom/ab123_x.jpg?w=1"
    = "ab123_x".
Proof. split; vm_compute; reflexivity. Qed.

Example classify_samples :
  is_product_url "https://www.nisbets.co.uk/vogue-whisk/k546" = true /\
  is_product_url "https://www.nisbets.co.uk/ovens/c/k546" = false /\
  is_product_url "https://example.org/vogue-whisk/k546" = false /\
  is_category_url "https://www.nisbets.co.uk/Kitchen-Equipment" = true /\
  is_category_url "https://www.nisbets.co.uk/help/catering" = false.
Proof. repeat split; vm_compute; reflexivity. Qed.

Example python_indexing :
  item ["a"; "b"; "c"] (-1) = Some "c" /\ item ["a"; "b"; "c"] 3 = None /\
  item ["a"; "b"; "c"] (-4) = None /\ range 3 6 = [3; 4; 5] /\ range 6 3 = [].
Proof. repeat split; reflexivity. Qed.

Example image_path :
  path_join (path_join "/app/data" "images") "AB123_1.jpg" = "/app/data/images/AB123_1.jpg" /\
  basename "/app/data/images/AB123_1.jpg" = "AB123_1.jpg".
Proof. split; reflexivity. Qed.

(** ** Strings *)

Section StringFacts.
Import PyStr.

Lemma append_assoc (a b c : string) : (a +:+ b) +:+ c = a +:+ (b +:+ c).
Proof. induction a as [|x a IH]; simpl; [reflexivity | now rewrite IH]. Qed.

Lemma take_drop (n : nat) (s : string) : take n s +:+ drop n s = s.
Proof.
  revert s; induction n as [|n IH]; intros [|c t]; simpl; try reflexivity.
  now rewrite IH.
Qed.

Lemma all_chars_app (p : ascii -> bool) (a b : string) :
  all_chars p (a +:+ b) = all_chars p a && all_chars p b.
Proof.
  induction a as [|x a IH]; simpl; [reflexivity|].
  now rewrite IH, andb_assoc.
Qed.

Lemma all_chars_weaken (p q : ascii -> bool) (s : string) :
  (forall c, p c = true -> q c = true) ->
  all_chars p s = true -> all_chars q s = true.
Proof.
  intros Hpq; induction s as [|c t IH]; simpl; [reflexivity|].
  intros [Hc Ht]%andb_prop. rewrite (Hpq _ Hc). now apply IH.
Qed.

Lemma startswith_map (f : ascii -> ascii) (s p : string) :
  startswith s p = true -> startswith (map_chars f s) (map_chars f p) = true.
Proof.
  revert s; induction p as [|b p IH]; intros s H; simpl; [reflexivity|].
  destruct s as [|a s]; simpl in *; [discriminate|].
  apply andb_prop in H as [Hab Hrest].
  apply Ascii.eqb_eq in Hab; subst b.
  rewrite Ascii.eqb_refl; simpl. now apply IH.
Qed.

Lemma contains_map (f : ascii -> ascii) (sub s : string) :
  contains sub s = true -> contains (map_chars f sub) (map_chars f s) = true.
Proof.
  induction s as [|c t IH]; simpl; intros H.
  - rewrite orb_false_r in *. now apply (startswith_map f EmptyString).
  - apply orb_prop in H as [H|H].
    + apply (startswith_map f (String c t)) in H. simpl in H. now rewrite H.
    + rewrite (IH H). apply orb_true_r.
Qed.

Lemma split_on_nonempty (sep : ascii) (s : string) : split_on sep s <> [].
Proof.
  destruct s as [|c t]; simpl; [discriminate|].
  destruct (Ascii.eqb c sep); [discriminate|].
  destruct (split_on sep t); discriminate.
Qed.

(** [(pre + sep + suf).split(sep) == pre.split(sep) + suf.split(sep)] *)
Lemma split_on_app (sep : ascii) (pre suf : string) :
  split_on sep (pre +:+ String sep suf) = split_on sep pre ++ split_on sep suf.
Proof.
  induction pre as [|c pre IH]; simpl.
  - now rewrite Ascii.eqb_refl.
  - destruct (Ascii.eqb c sep); [now rewrite IH|].
    rewrite IH. pose proof (split_on_nonempty sep pre) as Hne.
    destruct (split_on sep pre); [contradiction | reflexivity].
Qed.

Lemma split_on_whole (sep : ascii) (s : string) :
  all_chars (fun c => negb (Ascii.eqb c sep)) s = true -> split_on sep s = [s].
Proof.
  induction s as [|c t IH]; simpl; [reflexivity|].
  intros [Hc Ht]%andb_prop. apply negb_true_iff in Hc. rewrite Hc.
  now rewrite (IH Ht).
Qed.

Lemma last_field_app (sep : ascii) (pre suf : string) :
  all_chars (fun c => negb (Ascii.eqb c sep)) suf = true ->
  last_field sep (pre +:+ String sep suf) = suf.
Proof.
  intros Hsuf. unfold last_field.
  rewrite split_on_app, (split_on_whole _ _ Hsuf).
  apply List.last_last.
Qed.

End StringFacts.

(** ** The matcher *)

Section RegexFacts.
Import PyStr Re.

Lemma run_length_take (p : ascii -> bool) (hi : option nat) (s : string) (j : nat) :
  (j <= run_length p hi s)%nat -> all_chars p (take j s) = true.
Proof.
  revert hi j; induction s as [|c t IH]; intros hi j Hj.
  - simpl in Hj. now replace j with O by lia.
  - destruct j as [|j]; [reflexivity|]. simpl in *.
    destruct hi as [[|h]|]; try lia; destruct (p c) eqn:Hc; try lia; simpl;
      [apply (IH (Some h) j) | apply (IH None j)]; lia.
Qed.

(** What a match consumes is a prefix of the input made of characters the
    pattern accepts. *)
Lemma rmatch_consumed (r : regex) :
  forall st st', In st' (rmatch r st) ->
    exists w, m_rest st = w +:+ m_rest st' /\ all_chars (accepts r) w = true.
Proof.
  induction r as [|p|r1 IH1 r2 IH2|r1 IH1 r2 IH2|p lo hi|i r IH| |];
    intros st st' Hin; simpl in Hin.
  - destruct Hin as [<-|[]]. now exists EmptyString.
  - destruct (m_rest st) as [|c t] eqn:Hrest; [destruct Hin|].
    destruct (p c) eqn:Hc; [|destruct Hin].
    destruct Hin as [<-|[]]. exists (String c EmptyString).
    simpl. rewrite Hrest. simpl. now rewrite Hc.
  - apply in_flat_map in Hin as (st1 & H1 & H2).
    destruct (IH1 _ _ H1) as (w1 & E1 & A1).
    destruct (IH2 _ _ H2) as (w2 & E2 & A2).
    exists (w1 +:+ w2). split.
    + now rewrite E1, E2, append_assoc.
    + rewrite all_chars_app. apply andb_true_intro; split.
      * eapply all_chars_weaken; [|exact A1]. simpl. intros c ->. reflexivity.
      * eapply all_chars_weaken; [|exact A2]. simpl. intros c ->. apply orb_true_r.
  - apply in_app_or in Hin as [Hin|Hin].
    + destruct (IH1 _ _ Hin) as (w & E1 & A1). exists w. split; [exact E1|].
      eapply all_chars_weaken; [|exact A1]. simpl. intros c ->. reflexivity.
    + destruct (IH2 _ _ Hin) as (w & E2 & A2). exists w. split; [exact E2|].
      eapply all_chars_weaken; [|exact A2]. simpl. intros c ->. apply orb_true_r.
  - apply in_map_iff in Hin as (j & <- & Hj).
    apply in_rev, in_seq in Hj.
    exists (take j (m_rest st)). split.
    + simpl. now rewrite take_drop.
    + simpl. apply (run_length_take p hi). lia.
  - apply in_map_iff in Hin as (st1 & <- & H1). simpl.
    exact (IH _ _ H1).
  - destruct (m_pos st =? 0)%nat; [|destruct Hin].
    destruct Hin as [<-|[]]. now exists EmptyString.
  - destruct (at_eol (m_rest st)); [|destruct Hin].
    destruct Hin as [<-|[]]. now exists EmptyString.
Qed.

Lemma rmatch_seq (r1 r2 : regex) (st st' : mstate) :
  In st' (rmatch (RSeq r1 r2) st) <->
  exists st1, In st1 (rmatch r1 st) /\ In st' (rmatch r2 st1).
Proof. simpl. apply in_flat_map. Qed.

Lemma rmatch_eol (st st' : mstate) :
  In st' (rmatch REol st) -> at_eol (m_rest st') = true.
Proof.
  simpl. destruct (at_eol (m_rest st)) eqn:H; [|intros []].
  now intros [<-|[]].
Qed.

Lemma flat_map_rests (f g : mstate -> list mstate) (l1 l2 : list mstate) :
  List.map m_rest l1 = List.map m_rest l2 ->
  (forall a b, m_rest a = m_rest b ->
               List.map m_rest (f a) = List.map m_rest (g b)) ->
  List.map m_rest (List.flat_map f l1) = List.map m_rest (List.flat_map g l2).
Proof.
  intros Hl Hfg. revert l2 Hl; induction l1 as [|a l1 IH]; intros [|b l2] Hl;
    simpl in *; try discriminate; [reflexivity|].
  injection Hl as Hab Hl. rewrite !map_app. f_equal; [now apply Hfg | now apply IH].
Qed.

(** Without [^] the ways a pattern matches depend on the remaining input
    only, not on the offset. *)
Lemma rmatch_rests (r : regex) :
  bol_free r = true ->
  forall st st', m_rest st = m_rest st' ->
    List.map m_rest (rmatch r st) = List.map m_rest (rmatch r st').
Proof.
  induction r as [|p|r1 IH1 r2 IH2|r1 IH1 r2 IH2|p lo hi|i r IH| |];
    intros Hb st st' Hrest; simpl in *.
  - now rewrite Hrest.
  - rewrite Hrest. destruct (m_rest st') as [|c t] eqn:Hrest'; [reflexivity|].
    destruct (p c); [|reflexivity]. simpl. now rewrite Hrest, Hrest'.
  - apply andb_prop in Hb as [Hb1 Hb2].
    apply flat_map_rests; [now apply IH1 | intros a b; now apply IH2].
  - apply andb_prop in Hb as [Hb1 Hb2].
    rewrite !map_app. f_equal; [now apply IH1 | now apply IH2].
  - rewrite Hrest, !List.map_map. apply List.map_ext. intros j. simpl. now rewrite Hrest.
  - rewrite !List.map_map. simpl.
    change (List.map (fun x => m_rest x) (rmatch r st)
            = List.map (fun x => m_rest x) (rmatch r st')).
    now apply IH.
  - discriminate.
  - rewrite Hrest. destruct (at_eol (m_rest st')); simpl; now rewrite ?Hrest.
Qed.

Lemma rmatch_nonempty_rests (r : regex) (st st' : mstate) :
  bol_free r = true -> m_rest st = m_rest st' ->
  rmatch r st <> [] -> rmatch r st' <> [].
Proof.
  intros Hb Hrest Hne Hnil.
  pose proof (rmatch_rests r Hb st st' Hrest) as H.
  rewrite Hnil in H. simpl in H. now destruct (rmatch r st).
Qed.

(** A successful search found a position where the pattern matches. *)
Lemma search_from_found (r : regex) (rest : string) :
  forall pos m, search_from r pos rest = Some m ->
    exists pre suf, rest = pre +:+ suf /\
                    rmatch r (MState (pos + String.length pre) suf []) <> [].
Proof.
  induction rest as [|c t IH]; intros pos m H; simpl in H.
  - destruct (rmatch r (MState pos EmptyString [])) eqn:Hm; [discriminate|].
    exists EmptyString, EmptyString. simpl. rewrite Nat.add_0_r, Hm. now split.
  - destruct (rmatch r (MState pos (String c t) [])) eqn:Hm.
    + destruct (IH _ _ H) as (pre & suf & -> & Hne).
      exists (String c pre), suf. split; [reflexivity|].
      simpl. now rewrite Nat.add_succ_r.
    + exists EmptyString, (String c t). simpl. rewrite Nat.add_0_r, Hm. now split.
Qed.

Lemma nonempty_in {A} (l : list A) : l <> [] -> exists a, In a l.
Proof. destruct l as [|a l]; [contradiction | exists a; now left]. Qed.

Lemma in_nonempty {A} (a : A) (l : list A) : In a l -> l <> [].
Proof. intros H ->. destruct H. Qed.

Lemma rmatch_lit_char (c : ascii) (st st' : mstate) :
  In st' (rmatch (lit_char c) st) ->
  exists t, m_rest st = String c t /\ m_rest st' = t.
Proof.
  unfold lit_char; simpl. destruct (m_rest st) as [|d t] eqn:Hrest; [intros []|].
  destruct (Ascii.eqb_spec c d) as [<-|]; [|intros []].
  intros [<-|[]]. exists t. split; [reflexivity|]. simpl. now rewrite Hrest.
Qed.

Lemma search_at_start (r : regex) (s : string) :
  rmatch r (MState 0 s []) <> [] -> search r s <> None.
Proof.
  unfold search. intros Hne.
  destruct s; simpl; destruct (rmatch r _); try contradiction; discriminate.
Qed.

End RegexFacts.

(** ** URL classifier *)

Section ClassifierFacts.
Import PyStr Re URLScraper.

Lemma sku_re_accepts_no_slash (c : ascii) :
  accepts sku_re c = true -> not_slash c = true.
Proof.
  unfold not_slash, not_char. destruct (Ascii.eqb_spec c "/") as [->|]; [|reflexivity].
  vm_compute. intros H; discriminate H.
Qed.

Lemma at_eol_no_slash (s : string) : at_eol s = true -> all_chars not_slash s = true.
Proof.
  destruct s as [|c [|d t]]; simpl; try reflexivity; try discriminate.
  intros ->%Ascii.eqb_eq. reflexivity.
Qed.

(** Where the SKU shape matches up to [$], no slash follows. *)
Lemma sku_re_no_slash (st : mstate) :
  rmatch sku_re st <> [] -> all_chars not_slash (m_rest st) = true.
Proof.
  intros Hne. destruct (rmatch sku_re st) as [|st' l] eqn:Hm; [contradiction|].
  assert (Hin : In st' (rmatch sku_re st)) by (rewrite Hm; now left).
  destruct (rmatch_consumed _ _ _ Hin) as (w & Hw & Hacc).
  unfold sku_re in Hin.
  apply rmatch_seq in Hin as (st1 & _ & Hin).
  apply rmatch_seq in Hin as (st2 & _ & Hin).
  apply rmatch_eol in Hin.
  rewrite Hw, all_chars_app. apply andb_true_intro; split.
  - eapply all_chars_weaken; [apply sku_re_accepts_no_slash | exact Hacc].
  - now apply at_eol_no_slash.
Qed.

Lemma matches_true (r : regex) (s : string) :
  matches r s = true <-> search r s <> None.
Proof. unfold matches. destruct (search r s); split; congruence. Qed.

(** [re.search] of the product pattern in [path] succeeds only if the part
    of [path] after its last slash has the SKU shape. *)
Lemma product_re_segment (path : string) :
  matches product_re path = true ->
  matches segment_re (last_field "/" path) = true.
Proof.
  intros H. apply matches_true in H.
  destruct (search product_re path) as [m|] eqn:Hs; [clear H | contradiction].
  apply search_from_found in Hs as (pre & suf & -> & Hne).
  apply nonempty_in in Hne as (st' & Hin).
  apply rmatch_seq in Hin as (st1 & Hslash & Hsku).
  apply rmatch_lit_char in Hslash as (seg & Hsuf & Hseg).
  simpl in Hsuf. subst suf.
  assert (Hne : rmatch sku_re st1 <> []) by (eapply in_nonempty; exact Hsku).
  rewrite (last_field_app "/" pre seg)
    by (rewrite <- Hseg; exact (sku_re_no_slash _ Hne)).
  apply matches_true, search_at_start.
  apply (rmatch_nonempty_rests sku_re st1 (MState 0 seg [])) in Hne;
    [|reflexivity|exact Hseg].
  apply nonempty_in in Hne as (st2 & Hin).
  apply (in_nonempty st2). apply rmatch_seq.
  exists (MState 0 seg []). split; [now left | exact Hin].
Qed.

Lemma product_skip_lower (s : string) : In s product_skip -> lower s = s.
Proof. simpl. intros H. repeat destruct H as [<-|H]; try reflexivity. destruct H. Qed.

Lemma existsb_false {A} (f : A -> bool) (l : list A) (a : A) :
  existsb f l = false -> In a l -> f a = false.
Proof.
  intros H Hin. destruct (f a) eqn:Hfa; [|reflexivity].
  assert (existsb f l = true) by (apply existsb_exists; eauto). congruence.
Qed.

(** C8. What [is_product_url] accepts has a final path segment matching
    [^[a-zA-Z]{1,4}\d{2,6}$] and a query-stripped path free of the seven
    product blocklist substrings; what [is_category_url] accepts has a
    lower-cased query-stripped path with one of the five allowlist
    substrings and none of the seven category blocklist substrings. *)
Theorem url_classifier_sound (url : string) :
  (is_product_url url = true ->
     matches segment_re (last_field "/" (first_field "?" url)) = true /\
     forall s, In s product_skip -> contains s (first_field "?" url) = false)
  /\
  (is_category_url url = true ->
     (exists p, In p category_patterns /\
                contains p (lower (first_field "?" url)) = true) /\
     forall s, In s category_skip ->
               contains s (lower (first_field "?" url)) = false).
Proof.
  split.
  - unfold is_product_url. destruct (negb (startswith url base_url)); [discriminate|].
    destruct (existsb _ product_skip) eqn:Hskip; [discriminate|].
    intros Hm. split; [now apply product_re_segment|].
    intros s Hs.
    pose proof (existsb_false _ _ s Hskip Hs) as Hlow. simpl in Hlow.
    destruct (contains s (first_field "?" url)) eqn:Hc; [|reflexivity].
    apply (contains_map lower_char) in Hc. fold lower in Hc.
    rewrite (product_skip_lower s Hs) in Hc. congruence.
  - unfold is_category_url. destruct (negb (startswith url base_url)); [discriminate|].
    destruct (existsb _ category_skip) eqn:Hskip; [discriminate|].
    intros Hp. split.
    + apply existsb_exists in Hp as (p & Hin & Hc). now exists p.
    + intros s Hs. exact (existsb_false _ _ s Hskip Hs).
Qed.

Lemma url_classifier_sound_witness :
  (matches segment_re
     (last_field "/" (first_field "?" "https://www.nisbets.co.uk/p/ab12345?ref=1")) = true /\
   forall s, In s product_skip ->
     contains s (first_field "?" "https://www.nisbets.co.uk/p/ab12345?ref=1") = false)
  /\
  ((exists p, In p category_patterns /\
     contains p (lower (first_field "?" "https://www.nisbets.co.uk/Catering-Supplies/c/1")) = true) /\
   forall s, In s category_skip ->
     contains s (lower (first_field "?" "https://www.nisbets.co.uk/Catering-Supplies/c/1")) = false).
Proof.
  split.
  - apply (url_classifier_sound "https://www.nisbets.co.uk/p/ab12345?ref=1").
    vm_compute. reflexivity.
  - apply (url_classifier_sound "https://www.nisbets.co.uk/Catering-Supplies/c/1").
    vm_compute. reflexivity.
Defined.

End ClassifierFacts.

(** ** The monad *)

Section MonadFacts.

Lemma frame_refl (w : world) : frame w w.
Proof. repeat split. Qed.

Lemma frame_trans (w1 w2 w3 : world) : frame w1 w2 -> frame w2 w3 -> frame w1 w3.
Proof.
  unfold frame. intros (a1 & a2 & a3 & a4 & a5 & a6) (b1 & b2 & b3 & b4 & b5 & b6).
  repeat split; congruence.
Qed.

Lemma io_only_ret {A} (a : A) : io_only (ret a).
Proof. intros w. split; [apply frame_refl | constructor]. Qed.

Lemma io_only_raise {A} (e : exn) : io_only (@raise A e).
Proof. intros w. split; [apply frame_refl | constructor]. Qed.

Lemma io_only_seq (w w1 : world) (t1 t2 : trace) :
  frame w w1 ->
  Forall (fun ew => io_event (fst ew) = true /\ frame w (snd ew)) t1 ->
  Forall (fun ew => io_event (fst ew) = true /\ frame w1 (snd ew)) t2 ->
  Forall (fun ew : event * world => io_event (fst ew) = true /\ frame w (snd ew)) (t1 ++ t2).
Proof.
  intros Hf H1 H2. apply Forall_app; split; [exact H1|].
  eapply Forall_impl; [exact H2|]. intros ew [He Hw]. split; [exact He|].
  eapply frame_trans; eassumption.
Qed.

Lemma io_only_bind {A B} (m : M A) (k : A -> M B) :
  io_only m -> (forall a, io_only (k a)) -> io_only (bind m k).
Proof.
  intros Hm Hk w. unfold bind. specialize (Hm w).
  destruct (m w) as [[[a|e] w1] t1]; simpl in Hm; destruct Hm as [Hf1 Ht1].
  - specialize (Hk a w1). destruct (k a w1) as [[r w2] t2]; simpl in *.
    destruct Hk as [Hf2 Ht2]. split; [eapply frame_trans; eassumption|].
    now apply (io_only_seq w w1).
  - simpl. now split.
Qed.

Lemma io_only_try_except {A} (m : M A) (h : exn -> M A) :
  io_only m -> (forall e, io_only (h e)) -> io_only (try_except m h).
Proof.
  intros Hm Hh w. unfold try_except. specialize (Hm w).
  destruct (m w) as [[[a|e] w1] t1]; simpl in Hm; destruct Hm as [Hf1 Ht1].
  - simpl. now split.
  - specialize (Hh e w1). destruct (h e w1) as [[r w2] t2]; simpl in *.
    destruct Hh as [Hf2 Ht2]. split; [eapply frame_trans; eassumption|].
    now apply (io_only_seq w w1).
Qed.

Lemma io_only_emit (e : event) : io_event e = true -> io_only (emit e).
Proof.
  intros He w. split; [apply frame_refl|].
  constructor; [|constructor]. split; [exact He | apply frame_refl].
Qed.

Lemma io_only_get_disk : io_only get_disk.
Proof. intros w. split; [apply frame_refl | constructor]. Qed.

Lemma io_only_get_self : io_only get_self.
Proof. intros w. split; [apply frame_refl | constructor]. Qed.

Lemma bind_val {A B} (m : M A) (k : A -> M B) (w : world) (a : A) :
  outcome_of (m w) = Val a ->
  bind m k w =
  (outcome_of (k a (world_of (m w))), world_of (k a (world_of (m w))),
   trace_of (m w) ++ trace_of (k a (world_of (m w)))).
Proof.
  intros H. unfold bind. destruct (m w) as [[r w1] t1]. simpl in *. subst r.
  now destruct (k a w1) as [[r w2] t2].
Qed.

Lemma total_ret {A} (a : A) : total (ret a).
Proof. intros w. now exists a. Qed.

Lemma total_bind {A B} (m : M A) (k : A -> M B) :
  total m -> (forall a, total (k a)) -> total (bind m k).
Proof.
  intros Hm Hk w. unfold bind. destruct (Hm w) as [a Ha].
  destruct (m w) as [[r w1] t1]; simpl in Ha; subst r.
  destruct (Hk a w1) as [b Hb].
  destruct (k a w1) as [[r w2] t2]; simpl in *. now exists b.
Qed.

Lemma total_try_except {A} (m : M A) (h : exn -> M A) :
  (forall e, total (h e)) -> total (try_except m h).
Proof.
  intros Hh w. unfold try_except.
  destruct (m w) as [[[a|e] w1] t1]; simpl.
  - now exists a.
  - destruct (Hh e w1) as [b Hb].
    destruct (h e w1) as [[r w2] t2]; simpl in *. now exists b.
Qed.

End MonadFacts.

(** ** Hoare rules *)

Section HoareFacts.

Lemma hoare_conseq {A} (Pre Pre' : world -> Prop) (m : M A)
      (Post Post' : outcome A -> world -> trace -> Prop) :
  hoare Pre m Post ->
  (forall w, Pre' w -> Pre w) ->
  (forall r w t, Post r w t -> Post' r w t) ->
  hoare Pre' m Post'.
Proof. intros H HP HQ w Hw. apply HQ, H, HP, Hw. Qed.

Lemma hoare_ret {A} (Pre : world -> Prop) (a : A)
      (Post : outcome A -> world -> trace -> Prop) :
  (forall w, Pre w -> Post (Val a) w []) -> hoare Pre (ret a) Post.
Proof. intros H w Hw. now apply H. Qed.

Lemma hoare_bind {A B} (Pre : world -> Prop) (m : M A) (k : A -> M B)
      (Mid : outcome A -> world -> trace -> Prop)
      (Post : outcome B -> world -> trace -> Prop) :
  hoare Pre m Mid ->
  (forall a t1, hoare (fun w => Mid (Val a) w t1) (k a)
                      (fun r w t2 => Post r w (t1 ++ t2))) ->
  (forall e w t, Mid (Exc e) w t -> Post (Exc e) w t) ->
  hoare Pre (bind m k) Post.
Proof.
  intros Hm Hk He w Hw. specialize (Hm w Hw). unfold bind.
  destruct (m w) as [[[a|e] w1] t1]; simpl in Hm.
  - specialize (Hk a t1 w1 Hm). destruct (k a w1) as [[r w2] t2]. exact Hk.
  - simpl. now apply He.
Qed.

(** The loop rule: [Inv] relates the items still to come, the world and
    the trace since the loop began; an exception ends the loop. *)
Lemma hoare_for_each {A} (body : A -> M unit)
      (Inv : list A -> world -> trace -> Prop)
      (PostE : exn -> world -> trace -> Prop) :
  (forall a rest t0,
      hoare (fun w => Inv (a :: rest) w t0) (body a)
            (fun r w t => match r with
                          | Val _ => Inv rest w (t0 ++ t)
                          | Exc e => PostE e w (t0 ++ t)
                          end)) ->
  forall l t0,
    hoare (fun w => Inv l w t0) (for_each l body)
          (fun r w t => match r with
                        | Val _ => Inv [] w (t0 ++ t)
                        | Exc e => PostE e w (t0 ++ t)
                        end).
Proof.
  intros Hbody l. induction l as [|a rest IH]; intros t0.
  - apply hoare_ret. intros w Hw. now rewrite app_nil_r.
  - simpl. eapply hoare_bind; [apply (Hbody a rest t0) | |].
    + intros u t1. simpl. eapply hoare_conseq; [apply (IH (t0 ++ t1)) | auto |].
      intros r w t. now rewrite app_assoc.
    + intros e w t H. exact H.
Qed.

Lemma attempted_cons (e : event) (w : world) (t : trace) :
  attempted ((e, w) :: t) = announced e ++ attempted t.
Proof. reflexivity. Qed.

Lemma attempted_app (t1 t2 : trace) :
  attempted (t1 ++ t2) = attempted t1 ++ attempted t2.
Proof. unfold attempted. apply flat_map_app. Qed.

Lemma attempted_io (t : trace) :
  Forall (fun ew => io_event (fst ew) = true) t -> attempted t = [].
Proof.
  induction 1 as [|[e w] t He _ IH]; [reflexivity|].
  unfold attempted in *. simpl. rewrite IH. simpl in He.
  destruct e as [wr| | | | | |]; try reflexivity. discriminate He.
Qed.

Lemma throughout_app (D : world -> Prop) (t1 t2 : trace) :
  throughout D t1 -> throughout D t2 -> throughout D (t1 ++ t2).
Proof. intros H1 H2. apply Forall_app. now split. Qed.

End HoareFacts.

(** ** Page fetcher *)

Section FetchFacts.
Import PyStr Re Soup NisbetsScraper.
Variable E : env.

Lemma io_only_now : io_only (now E).
Proof. intros w. split; [repeat split | constructor]. Qed.

Lemma io_only_scraper_get (url : string) : io_only (scraper_get E url).
Proof.
  intros w. unfold scraper_get.
  destruct (http E (w_requests w) url); simpl;
    (split; [repeat split | constructor; [split; [reflexivity | repeat split] | constructor]]).
Qed.

Lemma io_only_BeautifulSoup (html : string) : io_only (BeautifulSoup E html).
Proof.
  intros w. unfold BeautifulSoup.
  destruct (lxml E html); simpl;
    (split; [repeat split | constructor; [split; [reflexivity | repeat split] | constructor]]).
Qed.

Lemma io_only_random_delay (a b : Z) : io_only (random_delay a b).
Proof. now apply io_only_emit. Qed.

Lemma io_only_write_image (path : string) : io_only (write_image path).
Proof.
  intros w. unfold write_image, bind, get_disk, set_disk, emit; simpl.
  split; [repeat split | constructor; [split; [reflexivity | repeat split] | constructor]].
Qed.

Lemma io_only_fetch_page (url : string) (retries : nat) :
  io_only (fetch_page E url retries).
Proof.
  induction retries as [|n IH]; simpl; [apply io_only_ret|].
  apply io_only_bind.
  - apply io_only_try_except.
    + apply io_only_bind; [apply io_only_scraper_get|]. intros resp.
      destruct (fst resp =? 200); [apply io_only_ret|].
      destruct (fst resp =? 404); [apply io_only_ret|].
      apply io_only_bind; [apply io_only_random_delay | intros; apply io_only_ret].
    + intros e. apply io_only_bind; [apply io_only_random_delay | intros; apply io_only_ret].
  - intros [|v]; [exact IH | apply io_only_ret].
Qed.

Lemma total_random_delay (a b : Z) : total (random_delay a b).
Proof. intros w. now exists tt. Qed.

(** No exception escapes [fetch_page]. *)
Lemma total_fetch_page (url : string) (retries : nat) :
  total (fetch_page E url retries).
Proof.
  induction retries as [|n IH]; simpl; [apply total_ret|].
  apply total_bind.
  - apply total_try_except. intros e.
    apply total_bind; [apply total_random_delay | intros; apply total_ret].
  - intros [|v]; [exact IH | apply total_ret].
Qed.

Lemma bump_by_succ (j : nat) (w : world) : bump_by j (bump_by 1 w) = bump_by (S j) w.
Proof. unfold bump_by; simpl. f_equal. lia. Qed.

Lemma fetch_page_200 (url body : string) (k : nat) (w : world) :
  http E (w_requests w) url = Response 200 body ->
  fetch_page E url (S k) w = (Val (Some body), bump_by 1 w, [(EvGet url, bump_by 1 w)]).
Proof.
  intros H. cbn [fetch_page]. unfold bind, try_except, scraper_get, bump_by.
  rewrite H. simpl. now rewrite Nat.add_1_r.
Qed.

Lemma fetch_page_404 (url body : string) (k : nat) (w : world) :
  http E (w_requests w) url = Response 404 body ->
  fetch_page E url (S k) w = (Val None, bump_by 1 w, [(EvGet url, bump_by 1 w)]).
Proof.
  intros H. cbn [fetch_page]. unfold bind, try_except, scraper_get, bump_by.
  rewrite H. simpl. now rewrite Nat.add_1_r.
Qed.

Lemma fetch_page_retry (url : string) (k : nat) (w : world) :
  is_transient (http E (w_requests w) url) = true ->
  fetch_page E url (S k) w =
  (outcome_of (fetch_page E url k (bump_by 1 w)),
   world_of (fetch_page E url k (bump_by 1 w)),
   (EvGet url, bump_by 1 w) :: (EvSleep 3 6, bump_by 1 w)
     :: trace_of (fetch_page E url k (bump_by 1 w))).
Proof.
  intros H. cbn [fetch_page].
  unfold bind at 1. unfold try_except, bind at 1, scraper_get, bump_by.
  rewrite Nat.add_1_r.
  destruct (http E (w_requests w) url) as [code text|e]; simpl in H |- *.
  - apply andb_prop in H as [H1 H2].
    apply negb_true_iff in H1, H2. rewrite H1, H2. simpl.
    now destruct (fetch_page E url k _) as [[r w'] t].
  - now destruct (fetch_page E url k _) as [[r w'] t].
Qed.

(** After [j] transient answers the remaining attempts run as from a
    fresh call, with the [j] rounds in front of the trace. *)
Lemma fetch_page_retries (url : string) (j k : nat) :
  forall w,
    (forall i, (i < j)%nat -> is_transient (http E (w_requests w + i) url) = true) ->
    outcome_of (fetch_page E url (j + k) w) = outcome_of (fetch_page E url k (bump_by j w)) /\
    world_of (fetch_page E url (j + k) w) = world_of (fetch_page E url k (bump_by j w)) /\
    events (trace_of (fetch_page E url (j + k) w)) =
      retry_events url j ++ events (trace_of (fetch_page E url k (bump_by j w))).
Proof.
  induction j as [|j IH]; intros w H.
  - replace (bump_by 0 w) with w by (destruct w; unfold bump_by; simpl; f_equal; lia).
    now repeat split.
  - change (S j + k)%nat with (S (j + k)).
    rewrite fetch_page_retry by (specialize (H O); rewrite Nat.add_0_r in H; apply H; lia).
    destruct (IH (bump_by 1 w)) as (H1 & H2 & H3).
    { intros i Hi. simpl. replace (w_requests w + 1 + i)%nat with (w_requests w + S i)%nat by lia.
      apply H. lia. }
    rewrite bump_by_succ in *.
    set (x := fetch_page E url (j + k) (bump_by 1 w)) in *.
    unfold outcome_of, world_of, trace_of, events in *.
    cbn [fst snd List.map retry_events]. rewrite H1, H2, H3. now repeat split.
Qed.

(** The three ways the attempts can go, by the answers of the network from
    the current request on. *)
Lemma fetch_page_answer_200 (url body : string) (j : nat) (w : world) :
  (j < 3)%nat ->
  (forall i, (i < j)%nat -> is_transient (http E (w_requests w + i) url) = true) ->
  http E (w_requests w + j) url = Response 200 body ->
  outcome_of (fetch_page E url 3 w) = Val (Some body) /\
  events (trace_of (fetch_page E url 3 w)) = retry_events url j ++ [EvGet url] /\
  w_requests (world_of (fetch_page E url 3 w)) = (w_requests w + j + 1)%nat.
Proof.
  intros Hj Htr H200.
  destruct (fetch_page_retries url j (3 - j) w Htr) as (H1 & H2 & H3).
  replace (j + (3 - j))%nat with 3%nat in * by lia.
  destruct (3 - j)%nat as [|k] eqn:Hk; [lia|].
  rewrite (fetch_page_200 url body k (bump_by j w)) in * by exact H200.
  simpl in *. rewrite H1, H2, H3. repeat split; simpl; lia.
Qed.

Lemma fetch_page_answer_404 (url body : string) (j : nat) (w : world) :
  (j < 3)%nat ->
  (forall i, (i < j)%nat -> is_transient (http E (w_requests w + i) url) = true) ->
  http E (w_requests w + j) url = Response 404 body ->
  outcome_of (fetch_page E url 3 w) = Val None /\
  events (trace_of (fetch_page E url 3 w)) = retry_events url j ++ [EvGet url] /\
  w_requests (world_of (fetch_page E url 3 w)) = (w_requests w + j + 1)%nat.
Proof.
  intros Hj Htr H404.
  destruct (fetch_page_retries url j (3 - j) w Htr) as (H1 & H2 & H3).
  replace (j + (3 - j))%nat with 3%nat in * by lia.
  destruct (3 - j)%nat as [|k] eqn:Hk; [lia|].
  rewrite (fetch_page_404 url body k (bump_by j w)) in * by exact H404.
  simpl in *. rewrite H1, H2, H3. repeat split; simpl; lia.
Qed.

Lemma fetch_page_exhausted (url : string) (w : world) :
  (forall i, (i < 3)%nat -> is_transient (http E (w_requests w + i) url) = true) ->
  outcome_of (fetch_page E url 3 w) = Val None /\
  events (trace_of (fetch_page E url 3 w)) = retry_events url 3 /\
  w_requests (world_of (fetch_page E url 3 w)) = (w_requests w + 3)%nat.
Proof.
  intros Htr.
  destruct (fetch_page_retries url 3 0 w Htr) as (H1 & H2 & H3).
  simpl in *. rewrite H1, H2, H3. repeat split.
Qed.

(** C3. [fetch_page] with its three attempts: a 200 answer returns the
    body; a 404 answer returns absent at once, with no further request;
    every other status and every exception of the client is followed by a
    sleep of 3 to 6 seconds and the next attempt, and after three such
    answers the result is absent; no exception escapes. *)
Theorem fetch_page_contract (url : string) (w : world) :
  (exists r, outcome_of (fetch_page E url 3 w) = Val r) /\
  (forall j body,
      (j < 3)%nat ->
      (forall i, (i < j)%nat -> is_transient (http E (w_requests w + i) url) = true) ->
      http E (w_requests w + j) url = Response 200 body ->
      outcome_of (fetch_page E url 3 w) = Val (Some body) /\
      events (trace_of (fetch_page E url 3 w)) = retry_events url j ++ [EvGet url] /\
      w_requests (world_of (fetch_page E url 3 w)) = (w_requests w + j + 1)%nat) /\
  (forall j body,
      (j < 3)%nat ->
      (forall i, (i < j)%nat -> is_transient (http E (w_requests w + i) url) = true) ->
      http E (w_requests w + j) url = Response 404 body ->
      outcome_of (fetch_page E url 3 w) = Val None /\
      events (trace_of (fetch_page E url 3 w)) = retry_events url j ++ [EvGet url] /\
      w_requests (world_of (fetch_page E url 3 w)) = (w_requests w + j + 1)%nat) /\
  ((forall i, (i < 3)%nat -> is_transient (http E (w_requests w + i) url) = true) ->
      outcome_of (fetch_page E url 3 w) = Val None /\
      events (trace_of (fetch_page E url 3 w)) = retry_events url 3 /\
      w_requests (world_of (fetch_page E url 3 w)) = (w_requests w + 3)%nat).
Proof.
  split; [apply total_fetch_page|]. split; [|split].
  - intros j body. apply fetch_page_answer_200.
  - intros j body. apply fetch_page_answer_404.
  - apply fetch_page_exhausted.
Qed.

End FetchFacts.

Lemma fetch_page_contract_witness :
    (outcome_of (fetch_page Scenario.flaky_env "https://www.nisbets.co.uk/p/ab123" 3
                            (Scenario.idle_world 0)) = Val (Some "<h1>ok</h1>") /\
     events (trace_of (fetch_page Scenario.flaky_env "https://www.nisbets.co.uk/p/ab123" 3
                                  (Scenario.idle_world 0)))
       = retry_events "https://www.nisbets.co.uk/p/ab123" 2
           ++ [EvGet "https://www.nisbets.co.uk/p/ab123"] /\
     w_requests (world_of (fetch_page Scenario.flaky_env "https://www.nisbets.co.uk/p/ab123" 3
                                      (Scenario.idle_world 0))) = 3%nat)
    /\
    (outcome_of (fetch_page Scenario.flaky_env "https://www.nisbets.co.uk/p/ab123" 3
                            (Scenario.idle_world 3)) = Val None /\
     events (trace_of (fetch_page Scenario.flaky_env "https://www.nisbets.co.uk/p/ab123" 3
                                  (Scenario.idle_world 3)))
       = [EvGet "https://www.nisbets.co.uk/p/ab123"] /\
     w_requests (world_of (fetch_page Scenario.flaky_env "https://www.nisbets.co.uk/p/ab123" 3
                                      (Scenario.idle_world 3))) = 4%nat)
    /\
    (outcome_of (fetch_page Scenario.flaky_env "https://www.nisbets.co.uk/p/ab123" 3
                            (Scenario.idle_world 4)) = Val None /\
     events (trace_of (fetch_page Scenario.flaky_env "https://www.nisbets.co.uk/p/ab123" 3
                                  (Scenario.idle_world 4)))
       = retry_events "https://www.nisbets.co.uk/p/ab123" 3 /\
     w_requests (world_of (fetch_page Scenario.flaky_env "https://www.nisbets.co.uk/p/ab123" 3
                                      (Scenario.idle_world 4))) = 7%nat).
Proof.
    split; [|split].
    - apply (proj1 (proj2 (fetch_page_contract Scenario.flaky_env
               "https://www.nisbets.co.uk/p/ab123" (Scenario.idle_world 0))) 2%nat "<h1>ok</h1>").
      + lia.
      + intros [|[|i]] Hi; [reflexivity | reflexivity | lia].
      + reflexivity.
    - apply (proj1 (proj2 (proj2 (fetch_page_contract Scenario.flaky_env
               "https://www.nisbets.co.uk/p/ab123" (Scenario.idle_world 3)))) 0%nat "gone").
      + lia.
      + intros i Hi. lia.
      + reflexivity.
    - apply (proj2 (proj2 (proj2 (fetch_page_contract Scenario.flaky_env
               "https://www.nisbets.co.uk/p/ab123" (Scenario.idle_world 4))))).
      intros [|[|[|i]]] Hi; [reflexivity | reflexivity | reflexivity | lia].
Defined.

(** ** Product extractor *)

Section ExtractFacts.
Variable E : env.

Lemma io_only_download_image (url sku : string) (idx : nat) :
  io_only (download_image E url sku idx).
Proof.
  unfold download_image. apply io_only_try_except; [|intros; apply io_only_ret].
  apply io_only_bind; [apply io_only_get_disk|]. intros d.
  destruct (existsb _ _); [apply io_only_ret|].
  apply io_only_bind; [apply io_only_scraper_get|]. intros resp.
  destruct (fst resp =? 200); [|apply io_only_ret].
  apply io_only_bind; [apply io_only_write_image | intros; apply io_only_ret].
Qed.

Lemma total_download_image (url sku : string) (idx : nat) :
  total (download_image E url sku idx).
Proof. apply total_try_except. intros e. apply total_ret. Qed.

Lemma io_only_collect_images (imgs : list node) (sku : string) :
  forall seen images, io_only (collect_images E imgs sku seen images).
Proof.
  induction imgs as [|img rest IH]; intros seen images; simpl; [apply io_only_ret|].
  destruct (_ && _); [|apply IH].
  destruct (existsb _ seen); [apply IH|].
  apply io_only_bind; [apply io_only_download_image|].
  intros [path|]; [destruct (truthy path)|]; apply IH.
Qed.

Lemma total_collect_images (imgs : list node) (sku : string) :
  forall seen images, total (collect_images E imgs sku seen images).
Proof.
  induction imgs as [|img rest IH]; intros seen images; simpl; [apply total_ret|].
  destruct (_ && _); [|apply IH].
  destruct (existsb _ seen); [apply IH|].
  apply total_bind; [apply total_download_image|].
  intros [path|]; [destruct (truthy path)|]; apply IH.
Qed.

Lemma io_only_extract_product (html url : string) :
  io_only (extract_product E html url).
Proof.
  unfold extract_product. apply io_only_bind; [apply io_only_now|]. intros ts.
  apply io_only_try_except; [|intros; apply io_only_ret].
  unfold extract_fields. apply io_only_bind; [apply io_only_BeautifulSoup|]. intros soup.
  apply io_only_bind; [apply io_only_collect_images | intros; apply io_only_ret].
Qed.

Lemma total_now : total (now E).
Proof. intros w. now eexists. Qed.

(** No exception escapes [extract_product]. *)
Lemma total_extract_product (html url : string) :
  total (extract_product E html url).
Proof.
  unfold extract_product. apply total_bind; [apply total_now|]. intros ts.
  apply total_try_except. intros e. apply total_ret.
Qed.

(** The record built when the page parses. *)
Lemma extract_product_parsed (html url : string) (soup : node) (w : world) :
  lxml E html = Val soup ->
  exists imgs,
    outcome_of (extract_product E html url w) =
    Val (Product (title_of soup) (description_of E soup) (brand_of soup) ""
                 ["SKU:" +:+ sku_of_url url; "UK"; "Nisbets UK"; "GBP"] "draft"
                 [default_variant (probe_price price_selectors soup) (sku_of_url url)]
                 (List.firstn 10%nat imgs) uk_metafields url (sku_of_url url)
                 (match probe_price price_selectors soup with
                  | Some p => p
                  | None => EmptyString
                  end)
                 (isoformat_now E (w_ticks w))).
Proof.
  intros Hparse. unfold extract_product, bind at 1, now, try_except, extract_fields.
  unfold bind at 1, BeautifulSoup. rewrite Hparse.
  set (w1 := World _ _ _ _ (S (w_ticks w))).
  unfold bind.
  destruct (total_collect_images (find_all "img" soup) (sku_of_url url) [] [] w1) as [imgs Himgs].
  destruct (collect_images E _ _ _ _ w1) as [[r w2] t2]. simpl in Himgs. subst r.
  exists imgs. reflexivity.
Qed.

(** The record returned when the parser raises. *)
Lemma extract_product_rejected (html url : string) (e : exn) (w : world) :
  lxml E html = Exc e ->
  outcome_of (extract_product E html url w) =
  Val (blank_product url (isoformat_now E (w_ticks w))).
Proof.
  intros Hparse. unfold extract_product, bind at 1, now, try_except, extract_fields.
  unfold bind at 1, BeautifulSoup. now rewrite Hparse.
Qed.

(** C6, as the code has it.  [extract_product] always returns a record and
    never raises.  If the page parses, the record has exactly one variant;
    its price is the extracted price when one was found and is not empty,
    and "0.00" otherwise, and its sku is the record's [source_sku].  If the
    parser raises, the record is the one the function started from: it has
    no variant. *)
Theorem extract_product_variant (html url : string) (w : world) :
  exists p,
    outcome_of (extract_product E html url w) = Val p /\
    match lxml E html with
    | Val soup =>
        exists v, variants p = [v] /\
                  v_sku v = source_sku p /\
                  v_price v = match probe_price price_selectors soup with
                              | Some price => if truthy price then price else "0.00"
                              | None => "0.00"
                              end
    | Exc _ => variants p = [] /\ title p = EmptyString
    end.
Proof.
  destruct (lxml E html) as [soup|e] eqn:Hparse.
  - destruct (extract_product_parsed html url soup w Hparse) as [imgs Hp].
    eexists. split; [exact Hp|]. simpl.
    eexists. split; [reflexivity|]. split; [reflexivity|].
    unfold default_variant, str_or; simpl. reflexivity.
  - eexists. split; [exact (extract_product_rejected html url e w Hparse)|].
    now split.
Qed.

End ExtractFacts.

(** C6, as the claim has it, fails where the parser raises: the record that
    comes back has no variant at all. *)
Lemma extract_product_variant_counterexample :
  exists p,
    outcome_of (extract_product Scenario.parser_down_env Scenario.widget_html
                                Scenario.widget_url Scenario.widget_world) = Val p /\
    ~ (exists v, variants p = [v]).
Proof.
  eexists. split; [vm_compute; reflexivity|].
  intros [v Hv]. vm_compute in Hv. discriminate Hv.
Qed.

(** The price pattern asks for the two characters U+00C2 U+00A3 in front of
    the digits: a pound sign alone does not match, the mis-decoded pair does. *)
Example price_pattern_pound_sign :
  search price_re "£12.50" = None /\
  option_map (fun m => group "Â£12.50" m 1) (search price_re "Â£12.50") = Some "12.50".
Proof. split; vm_compute; reflexivity. Qed.

(** C1, on the code.  The batch over the one URL ending in [/ab12345], from
    a new process without checkpoint, with the page served and parsed:
    the catalog has one record with title "Widget", source_sku "AB12345"
    and the four tags, and the checkpoint is at 1; but the variant price is
    "0.00", and [source_price] is empty. *)
Theorem end_to_end_widget :
  let w := world_of (run_batch Scenario.widget_env 100 Scenario.widget_world) in
  exists p v cat cp,
    products (w_self w) = [p] /\
    output_file (w_disk w) = Some (Loads cat) /\ cat_products cat = [p] /\
    title p = "Widget" /\
    source_sku p = "AB12345" /\
    tags p = ["SKU:AB12345"; "UK"; "Nisbets UK"; "GBP"] /\
    variants p = [v] /\ v_price v = "0.00" /\ source_price p = EmptyString /\
    progress_file (w_disk w) = Some (Loads cp) /\ cp_last_index cp = 1 /\
    cp_failed_urls cp = [].
Proof.
  vm_compute. do 4 eexists. repeat split.
Qed.

(** ** One round of the batch loop *)

Section IterationFacts.
Variable E : env.

Lemma record_result_failed (url : string) (html : option string) (w : world) :
  match html with Some h => truthy h | None => false end = false ->
  record_result E url html w =
  (let w' := World (apply_write (SetFailedCount (len (failed_urls (w_self w) ++ [url])))
                                (w_status w))
                   (Scraper (products (w_self w)) (failed_urls (w_self w) ++ [url])
                            (last_scraped_index (w_self w)))
                   (w_disk w) (w_requests w) (w_ticks w) in
   (Val tt, w', [(EvStatus (SetFailedCount (len (failed_urls (w_self w) ++ [url]))), w')])).
Proof. intros H. unfold record_result. rewrite H. reflexivity. Qed.

Lemma record_result_untitled (url html : string) (p : product) (w : world) :
  truthy html = true ->
  outcome_of (extract_product E html url w) = Val p ->
  truthy (title p) = false ->
  record_result E url (Some html) w =
  (Val tt, world_of (extract_product E html url w), trace_of (extract_product E html url w)).
Proof.
  intros Hh Hp Ht. unfold record_result. rewrite Hh. unfold bind.
  destruct (extract_product E html url w) as [[r w1] t1]. simpl in *. subst r.
  rewrite Ht. simpl. now rewrite app_nil_r.
Qed.

Lemma record_result_titled (url html : string) (p : product) (w : world) :
  truthy html = true ->
  outcome_of (extract_product E html url w) = Val p ->
  truthy (title p) = true ->
  w_self (world_of (record_result E url (Some html) w)) =
    Scraper (products (w_self w) ++ [p]) (failed_urls (w_self w))
            (last_scraped_index (w_self w)) /\
  outcome_of (record_result E url (Some html) w) = Val tt.
Proof.
  intros Hh Hp Ht. unfold record_result. rewrite Hh. unfold bind.
  destruct (io_only_extract_product E html url w) as [(Hself & _) _].
  destruct (extract_product E html url w) as [[r w1] t1]. simpl in *. subst r.
  rewrite Ht. simpl. now rewrite Hself.
Qed.

Lemma total_record_result (url : string) (html : option string) :
  total (record_result E url html).
Proof.
  intros w. destruct (match html with Some h => truthy h | None => false end) eqn:Hh.
  - destruct html as [h|]; [|discriminate].
    destruct (total_extract_product E h url w) as [p Hp].
    destruct (truthy (title p)) eqn:Ht.
    + exists tt. now apply (record_result_titled url h p w).
    + exists tt. now rewrite (record_result_untitled url h p w).
  - exists tt. now rewrite record_result_failed.
Qed.

Lemma advance_and_save_self (i : Z) (w : world) :
  outcome_of (advance_and_save E i w) = Val tt /\
  w_self (world_of (advance_and_save E i w)) =
    Scraper (products (w_self w)) (failed_urls (w_self w)) (i + 1).
Proof.
  unfold advance_and_save, bind, get_self, set_self, random_delay, emit; simpl.
  destruct ((i + 1) mod 25 =? 0); simpl; now split.
Qed.

Lemma advance_and_save_events (i : Z) (w : world) :
  events (trace_of (advance_and_save E i w)) =
  EvSleep 1 2 :: (if (i + 1) mod 25 =? 0 then [EvWriteProducts; EvWriteProgress] else []).
Proof.
  unfold advance_and_save, bind, get_self, set_self, random_delay, emit; simpl.
  destruct ((i + 1) mod 25 =? 0); reflexivity.
Qed.

(** A round whose URL exists, cut at its three parts. *)
Lemma batch_iteration_unfold (urls : list string) (i : Z) (url : string)
      (html : option string) (w : world) :
  item urls i = Some url ->
  outcome_of (fetch_page E url 3 (started i url w)) = Val html ->
  let f := fetch_page E url 3 (started i url w) in
  let g := record_result E url html (world_of f) in
  let h := advance_and_save E i (world_of g) in
  outcome_of (batch_iteration E urls i w) = Val tt /\
  world_of (batch_iteration E urls i w) = world_of h /\
  exists w1,
    w_self w1 = w_self w /\ w_disk w1 = w_disk w /\
    trace_of (batch_iteration E urls i w) =
      (EvStatus (SetCurrentIndex (i + 1)), w1)
        :: (EvStatus (SetCurrentProduct (Some url)), started i url w)
        :: trace_of f ++ trace_of g ++ trace_of h.
Proof.
  intros Hitem Hf. cbv zeta.
  destruct (total_record_result url html
              (world_of (fetch_page E url 3 (started i url w)))) as [[] Hg].
  destruct (advance_and_save_self i
              (world_of (record_result E url html
                 (world_of (fetch_page E url 3 (started i url w)))))) as [Hh _].
  unfold batch_iteration.
  rewrite (bind_val (index urls i) _ w url) by (unfold index; now rewrite Hitem).
  assert (Hidx : index urls i w = (Val url, w, [])) by (unfold index; now rewrite Hitem).
  rewrite Hidx. cbn [outcome_of world_of trace_of fst snd].
  rewrite (bind_val (set_status _) _ w tt) by reflexivity.
  cbn [outcome_of world_of trace_of fst snd set_status].
  rewrite (bind_val (set_status _) _ _ tt) by reflexivity.
  cbn [outcome_of world_of trace_of fst snd set_status w_status w_self w_disk w_requests w_ticks].
  fold (started i url w).
  rewrite (bind_val (fetch_page E url 3) _ _ html) by exact Hf.
  rewrite (bind_val (record_result E url html) _ _ tt) by exact Hg.
  cbn [outcome_of world_of trace_of fst snd].
  split; [exact Hh|]. split; [reflexivity|].
  eexists. split; [|split; [|reflexivity]]; reflexivity.
Qed.

(** C7. In a round of the batch loop: a page that was fetched but yields a
    record with an empty title adds nothing to the catalog and nothing to
    [failed_urls]; a fetch that returned absent adds nothing to the catalog
    and adds the URL to [failed_urls] once, at the end. *)
Theorem batch_iteration_accounting (urls : list string) (i : Z) (url : string) (w : world) :
  item urls i = Some url ->
  (forall html p,
      outcome_of (fetch_page E url 3 (started i url w)) = Val (Some html) ->
      truthy html = true ->
      outcome_of (extract_product E html url
                    (world_of (fetch_page E url 3 (started i url w)))) = Val p ->
      title p = EmptyString ->
      products (w_self (world_of (batch_iteration E urls i w))) = products (w_self w) /\
      failed_urls (w_self (world_of (batch_iteration E urls i w))) = failed_urls (w_self w))
  /\
  (outcome_of (fetch_page E url 3 (started i url w)) = Val None ->
      products (w_self (world_of (batch_iteration E urls i w))) = products (w_self w) /\
      failed_urls (w_self (world_of (batch_iteration E urls i w)))
        = failed_urls (w_self w) ++ [url]).
Proof.
  intros Hitem.
  destruct (io_only_fetch_page E url 3 (started i url w)) as [(Hfself & _) _].
  change (w_self (started i url w)) with (w_self w) in Hfself.
  split.
  - intros html p Hf Hh Hp Ht.
    destruct (batch_iteration_unfold urls i url _ w Hitem Hf) as (_ & -> & _).
    destruct (advance_and_save_self i
                (world_of (record_result E url (Some html)
                             (world_of (fetch_page E url 3 (started i url w))))))
      as [_ ->].
    rewrite (record_result_untitled url html p) by (try assumption; now rewrite Ht).
    destruct (io_only_extract_product E html url
                (world_of (fetch_page E url 3 (started i url w)))) as [(Hxself & _) _].
    cbn [world_of fst snd products failed_urls]. unfold world_of in *.
    now rewrite Hxself, Hfself.
  - intros Hf.
    destruct (batch_iteration_unfold urls i url _ w Hitem Hf) as (_ & -> & _).
    destruct (advance_and_save_self i
                (world_of (record_result E url None
                             (world_of (fetch_page E url 3 (started i url w))))))
      as [_ ->].
    rewrite record_result_failed by reflexivity.
    cbn [world_of fst snd products failed_urls w_self]. unfold world_of in *.
    now rewrite Hfself.
Qed.

(** C9. A 200 answer with an empty body, at the first attempt or after
    transient ones, makes [fetch_page] return the empty string, and the
    round treats it as a failed fetch: the URL goes to [failed_urls], the
    catalog is untouched, and after that answer the round issues no parse
    and no further request. *)
Theorem empty_body_is_a_failure (urls : list string) (i : Z) (url : string)
        (j : nat) (w : world) :
  item urls i = Some url ->
  (j < 3)%nat ->
  (forall a, (a < j)%nat -> is_transient (http E (w_requests w + a) url) = true) ->
  http E (w_requests w + j) url = Response 200 EmptyString ->
  outcome_of (fetch_page E url 3 (started i url w)) = Val (Some EmptyString) /\
  failed_urls (w_self (world_of (batch_iteration E urls i w)))
    = failed_urls (w_self w) ++ [url] /\
  products (w_self (world_of (batch_iteration E urls i w))) = products (w_self w) /\
  events (trace_of (batch_iteration E urls i w)) =
    [EvStatus (SetCurrentIndex (i + 1)); EvStatus (SetCurrentProduct (Some url))]
    ++ retry_events url j
    ++ [EvGet url; EvStatus (SetFailedCount (len (failed_urls (w_self w) ++ [url])));
        EvSleep 1 2]
    ++ (if (i + 1) mod 25 =? 0 then [EvWriteProducts; EvWriteProgress] else []).
Proof.
  intros Hitem Hj Htr Hget.
  destruct (fetch_page_answer_200 E url EmptyString j (started i url w) Hj Htr Hget)
    as (Hout & Hev & _).
  split; [exact Hout|].
  destruct (io_only_fetch_page E url 3 (started i url w)) as [(Hfself & _) _].
  change (w_self (started i url w)) with (w_self w) in Hfself.
  destruct (batch_iteration_unfold urls i url _ w Hitem Hout) as (_ & Hw & w1 & _ & _ & Ht).
  rewrite Hw, Ht. clear Hw Ht.
  destruct (advance_and_save_self i
              (world_of (record_result E url (Some EmptyString)
                           (world_of (fetch_page E url 3 (started i url w))))))
    as [_ ->].
  unfold events. rewrite !map_cons, !map_app.
  fold (events (trace_of (advance_and_save E i
              (world_of (record_result E url (Some EmptyString)
                           (world_of (fetch_page E url 3 (started i url w)))))))).
  fold (events (trace_of (fetch_page E url 3 (started i url w)))).
  rewrite advance_and_save_events, Hev.
  rewrite record_result_failed by reflexivity.
  cbn [world_of trace_of fst snd products failed_urls w_self List.map].
  unfold world_of in *. rewrite Hfself.
  repeat split. cbn [fst app]. rewrite <- !app_assoc. reflexivity.
Qed.

End IterationFacts.

(** ** Run status around a batch *)

Section StatusFacts.
Variable E : env.

(** Whatever the [try] block does, [run_batch] returns normally with
    [running] cleared. *)
Lemma run_batch_clears_running (batch_size : Z) (w : world) :
  outcome_of (run_batch E batch_size w) = Val tt /\
  running (w_status (world_of (run_batch E batch_size w))) = false /\
  current_product (w_status (world_of (run_batch E batch_size w))) = None.
Proof.
  unfold run_batch.
  rewrite (bind_val (set_status _) _ w tt) by reflexivity.
  cbn [outcome_of world_of trace_of fst snd set_status].
  rewrite (bind_val (set_status _) _ _ tt) by reflexivity.
  cbn [outcome_of world_of trace_of fst snd set_status].
  unfold try_finally, try_except.
  destruct (run_batch_body E batch_size _) as [[[[]|e] w1] t1]; simpl; repeat split.
Qed.

(** With no URL to load the batch does four more status assignments after
    the two at entry, and nothing else. *)
Lemma run_batch_no_urls (batch_size : Z) (w : world) :
  loaded_urls (w_disk w) = [] ->
  events (trace_of (run_batch E batch_size w)) =
    [EvStatus (SetRunning true); EvStatus (SetError None);
     EvStatus (SetError (Some no_urls_message)); EvStatus (SetRunning false);
     EvStatus (SetRunning false); EvStatus (SetCurrentProduct None)] /\
  w_disk (world_of (run_batch E batch_size w)) = w_disk w /\
  w_self (world_of (run_batch E batch_size w)) = w_self w /\
  w_requests (world_of (run_batch E batch_size w)) = w_requests w /\
  error (w_status (world_of (run_batch E batch_size w))) = Some no_urls_message.
Proof.
  intros Hno.
  unfold run_batch, run_batch_body, try_finally, try_except, init_scraper, load_urls.
  unfold bind, ret, get_disk, set_status. cbn [w_disk w_status w_self w_requests w_ticks].
  rewrite Hno. simpl. repeat split.
Qed.


End StatusFacts.



(** ** Crawl frontier *)

Section CrawlFacts.
Variable E : env.

Lemma frontier_clean_new : frontier_clean new_crawler.
Proof. split; intros u Hu; simpl in Hu; now apply not_elem_of_empty in Hu. Qed.

Lemma classify_product (full : string) (c : crawler) :
  is_product_url full = true ->
  classify full c = Crawler ({[full]} ∪ product_links c) (category_links c) (visited c).
Proof. intros H. unfold classify. now rewrite H. Qed.

Lemma frontier_clean_classify (full : string) (c : crawler) :
  frontier_clean c -> frontier_clean (classify full c).
Proof.
  intros [Hc Hv]. unfold classify.
  destruct (is_product_url full) eqn:Hp; [now split|].
  destruct (is_category_url full && negb (bool_decide (full ∈ visited c))); [|now split].
  split; [|exact Hv]. simpl. intros u Hu.
  apply elem_of_union in Hu as [Hu|Hu]; [|now apply Hc].
  apply elem_of_singleton in Hu. now subst u.
Qed.

Lemma frontier_clean_scrape_links (l : list node) :
  forall c, frontier_clean c -> frontier_clean (scrape_links E l c).
Proof.
  induction l as [|a rest IH]; intros c Hc; simpl; [exact Hc|].
  destruct (urljoin E base_url (attr_or_empty a "href")); [|exact Hc].
  now apply IH, frontier_clean_classify.
Qed.

Lemma frontier_clean_scrape_page (r : http_result) (c : crawler) :
  frontier_clean c -> frontier_clean (scrape_page E r c).
Proof.
  intros Hc. unfold scrape_page. destruct r as [code text|e]; [|exact Hc].
  destruct (negb (code =? 200)); [exact Hc|].
  destruct (lxml E text); [|exact Hc].
  now apply frontier_clean_scrape_links.
Qed.

Lemma frontier_clean_pop (url : string) (c : crawler) :
  frontier_clean c -> frontier_clean (pop url c).
Proof.
  intros [Hc Hv]. split; [|exact Hv]. simpl. intros u Hu.
  apply elem_of_difference in Hu as [Hu _]. now apply Hc.
Qed.

Lemma frontier_clean_visit (url : string) (c : crawler) :
  is_product_url url = false -> frontier_clean c -> frontier_clean (visit url c).
Proof.
  intros Hurl [Hc Hv]. split; [exact Hc|]. simpl. intros u Hu.
  apply elem_of_union in Hu as [Hu|Hu]; [|now apply Hv].
  apply elem_of_singleton in Hu. now subst u.
Qed.

(** C10. In every state a crawl reaches, no URL of the pending category
    set and no visited URL satisfies [is_product_url]; and a link that
    satisfies [is_product_url] is put with the products and leaves the
    pending set as it was, whatever [is_category_url] says about it. *)
Theorem crawl_frontier_has_no_product (max_pages : nat) (c : crawler) (n : nat) :
  crawl_reach E max_pages c n ->
  (forall u, u ∈ category_links c -> is_product_url u = false) /\
  (forall u, u ∈ visited c -> is_product_url u = false) /\
  (forall full, is_product_url full = true ->
     product_links (classify full c) = {[full]} ∪ product_links c /\
     category_links (classify full c) = category_links c /\
     visited (classify full c) = visited c).
Proof.
  intros Hreach.
  assert (Hclean : frontier_clean c).
  { induction Hreach as [r|c n r _ IH|c n url _ IH _ _ _|c n url r _ IH _ Hin _].
    - apply frontier_clean_scrape_page, frontier_clean_new.
    - now apply frontier_clean_scrape_page.
    - now apply frontier_clean_pop.
    - apply frontier_clean_scrape_page, frontier_clean_visit.
      + destruct IH as [Hc _]. now apply Hc.
      + now apply frontier_clean_pop. }
  destruct Hclean as [Hc Hv]. split; [exact Hc|]. split; [exact Hv|].
  intros full Hp. now rewrite (classify_product full c Hp).
Qed.

End CrawlFacts.

(** ** The batch window *)

Section WindowFacts.
Variable E : env.

Lemma range_from_succ (a : Z) (n : nat) :
  range_from a (S n) = a :: range_from (a + 1) n.
Proof.
  unfold range_from. simpl. f_equal; [lia|].
  rewrite <- seq_shift, List.map_map. apply List.map_ext. intros j. lia.
Qed.

Lemma nth_error_skipn {A} (l : list A) (k d : nat) :
  nth_error (skipn k l) d = nth_error l (k + d).
Proof.
  revert l; induction k as [|k IH]; intros l; [reflexivity|].
  destruct l as [|x l]; [now destruct d | apply IH].
Qed.

Lemma firstn_snoc {A} (l : list A) (d : nat) (x : A) :
  nth_error l d = Some x -> firstn (S d) l = firstn d l ++ [x].
Proof.
  revert l; induction d as [|d IH]; intros [|y l] H; try discriminate.
  - injection H as ->. reflexivity.
  - simpl in *. now rewrite <- (IH l H).
Qed.

Lemma item_nonneg {A} (l : list A) (i : Z) :
  0 <= i -> item l i = nth_error l (Z.to_nat i).
Proof.
  intros Hi. unfold item.
  destruct (i <? 0) eqn:H1; [apply Z.ltb_lt in H1; lia|].
  now rewrite H1.
Qed.

Lemma attempted_framed (w : world) (t : trace) :
  Forall (fun ew => io_event (fst ew) = true /\ frame w (snd ew)) t -> attempted t = [].
Proof.
  intros H. apply attempted_io. eapply Forall_impl; [exact H|]. now intros ew [He _].
Qed.

Lemma attempted_fetch_page (url : string) (n : nat) (w : world) :
  attempted (trace_of (fetch_page E url n w)) = [].
Proof. apply (attempted_framed w), io_only_fetch_page. Qed.

Lemma attempted_extract_product (html url : string) (w : world) :
  attempted (trace_of (extract_product E html url w)) = [].
Proof. apply (attempted_framed w), io_only_extract_product. Qed.

Lemma attempted_record_result (url : string) (html : option string) (w : world) :
  attempted (trace_of (record_result E url html w)) = [].
Proof.
  destruct (match html with Some h => truthy h | None => false end) eqn:Hh.
  - destruct html as [h|]; [|discriminate].
    pose proof (attempted_extract_product h url w) as Hx.
    unfold record_result. rewrite Hh. unfold bind.
    destruct (extract_product E h url w) as [[[p|e] w1] t1]; simpl in *; [|exact Hx].
    destruct (truthy (title p)); simpl; rewrite attempted_app, Hx; reflexivity.
  - now rewrite record_result_failed.
Qed.

Lemma attempted_advance_and_save (i : Z) (w : world) :
  attempted (trace_of (advance_and_save E i w)) = [].
Proof.
  unfold advance_and_save, bind, get_self, set_self, random_delay, emit; simpl.
  destruct ((i + 1) mod 25 =? 0); reflexivity.
Qed.

(** A round whose URL exists ends normally, announces that URL and no
    other, and leaves the scraper at the next position. *)
Lemma batch_iteration_attempt (urls : list string) (i : Z) (url : string) (w : world) :
  item urls i = Some url ->
  outcome_of (batch_iteration E urls i w) = Val tt /\
  last_scraped_index (w_self (world_of (batch_iteration E urls i w))) = i + 1 /\
  attempted (trace_of (batch_iteration E urls i w)) = [url].
Proof.
  intros Hitem.
  destruct (total_fetch_page E url 3 (started i url w)) as [html Hf].
  destruct (batch_iteration_unfold E urls i url html w Hitem Hf)
    as (Hout & Hw & w1 & _ & _ & Ht).
  split; [exact Hout|]. rewrite Hw, Ht.
  destruct (advance_and_save_self E i
              (world_of (record_result E url html
                 (world_of (fetch_page E url 3 (started i url w)))))) as [_ Hself].
  split; [now rewrite Hself|].
  now rewrite !attempted_cons, !attempted_app, attempted_fetch_page,
    attempted_record_result, attempted_advance_and_save.
Qed.

Lemma length_range_from (a : Z) (n : nat) : length (range_from a n) = n.
Proof. unfold range_from. now rewrite length_map, length_seq. Qed.

(** The loop over [n] positions from [k], all inside the list. *)
Lemma window_loop (urls : list string) (k : Z) (n : nat) :
  0 <= k -> (Z.to_nat k + n <= length urls)%nat ->
  hoare (fun w => last_scraped_index (w_self w) = k)
        (for_each (range_from k n) (batch_iteration E urls))
        (fun r w t =>
           r = Val tt /\
           last_scraped_index (w_self w) = k + Z.of_nat n /\
           attempted t = firstn n (skipn (Z.to_nat k) urls)).
Proof.
  intros Hk Hn.
  pose (Inv := fun (rest : list Z) (w : world) (t : trace) =>
    exists d : nat,
      (d + length rest = n)%nat /\
      rest = range_from (k + Z.of_nat d) (length rest) /\
      last_scraped_index (w_self w) = k + Z.of_nat d /\
      attempted t = firstn d (skipn (Z.to_nat k) urls)).
  eapply hoare_conseq;
    [apply (hoare_for_each (batch_iteration E urls) Inv (fun _ _ _ => False))
       with (l := range_from k n) (t0 := []) | |].
  - intros a rest t0 w (d & Hlen & Hrest & Hidx & Hatt). simpl in Hlen, Hrest.
    rewrite range_from_succ in Hrest. injection Hrest as Ha Hrest.
    assert (Hnth : exists url, nth_error urls (Z.to_nat k + d) = Some url).
    { destruct (nth_error urls (Z.to_nat k + d)) as [url|] eqn:Hu; [now exists url|].
      apply nth_error_None in Hu. exfalso. lia. }
    destruct Hnth as [url Hurl].
    assert (Hitem : item urls a = Some url).
    { rewrite item_nonneg by lia. subst a.
      replace (Z.to_nat (k + Z.of_nat d)) with (Z.to_nat k + d)%nat by lia. exact Hurl. }
    destruct (batch_iteration_attempt urls a url w Hitem) as (Hout & Hidx' & Hatt').
    rewrite Hout. exists (S d). split; [lia|]. split.
    { rewrite Hrest at 1. f_equal. lia. }
    split; [rewrite Hidx'; lia|].
    rewrite attempted_app, Hatt, Hatt'. symmetry. apply firstn_snoc.
    now rewrite nth_error_skipn.
  - intros w Hw. exists 0%nat. rewrite length_range_from.
    split; [lia|]. split; [f_equal; lia|]. split; [lia | reflexivity].
  - intros r w t. simpl. destruct r as [[]|e]; [|intros []].
    intros (d & Hlen & _ & Hidx & Hatt). simpl in Hlen.
    replace d with n in * by lia. repeat split; assumption.
Qed.

Lemma resume_spec (total : Z) (w : world) (cp : checkpoint) :
  progress_file (w_disk w) = Some (Loads cp) ->
  outcome_of (resume total w) = Val (cp_last_index cp) /\
  last_scraped_index (w_self (world_of (resume total w))) = cp_last_index cp /\
  w_disk (world_of (resume total w)) = w_disk w /\
  attempted (trace_of (resume total w)) = [].
Proof.
  intros Hcp. unfold resume, load_products, load_progress.
  unfold bind, get_disk, get_self, set_self, set_status, ret.
  cbn [w_disk w_self w_status w_requests w_ticks].
  destruct (output_file (w_disk w)) as [[|cat]|]; cbn; rewrite Hcp; cbn; repeat split.
Qed.

Lemma finish_spec (w : world) :
  outcome_of (finish E w) = Val tt /\
  w_self (world_of (finish E w)) = w_self w /\
  persisted (world_of (finish E w)) /\
  attempted (trace_of (finish E w)) = [].
Proof.
  unfold finish, save_products, save_progress, now.
  unfold bind, get_disk, get_self, set_disk, set_status, emit, ret. cbn.
  repeat split. do 2 eexists. cbn. repeat split.
Qed.

(** The [try] block on a non-empty list with a checkpoint inside it. *)
Lemma run_batch_body_window (batch_size : Z) (w : world) (cp : checkpoint) :
  0 <= batch_size ->
  progress_file (w_disk w) = Some (Loads cp) ->
  0 <= cp_last_index cp <= len (loaded_urls (w_disk w)) ->
  loaded_urls (w_disk w) <> [] ->
  let n := Z.min batch_size (len (loaded_urls (w_disk w)) - cp_last_index cp) in
  outcome_of (run_batch_body E batch_size w) = Val tt /\
  last_scraped_index (w_self (world_of (run_batch_body E batch_size w)))
    = cp_last_index cp + n /\
  persisted (world_of (run_batch_body E batch_size w)) /\
  attempted (trace_of (run_batch_body E batch_size w))
    = firstn (Z.to_nat n) (skipn (Z.to_nat (cp_last_index cp)) (loaded_urls (w_disk w))).
Proof.
  intros HB Hcp Hk Hne. cbv zeta.
  unfold run_batch_body, init_scraper, load_urls.
  rewrite (bind_val (ret tt) _ w tt) by reflexivity.
  rewrite (bind_val (bind get_disk _) _ _ (loaded_urls (w_disk w))) by reflexivity.
  cbn [outcome_of world_of trace_of fst snd ret bind get_disk].
  destruct (loaded_urls (w_disk w)) as [|u0 urls'] eqn:Hurls; [contradiction|].
  cbv beta iota. remember (u0 :: urls') as urls eqn:Hu0. clear Hu0 Hne Hurls u0 urls'.
  set (k := cp_last_index cp) in *.
  set (n := Z.min batch_size (len urls - k)).
  destruct (resume_spec (len urls) w cp Hcp) as (Hr1 & Hr2 & Hr3 & Hr4).
  rewrite (bind_val (resume (len urls)) _ w k) by exact Hr1.
  assert (Hend : Z.to_nat (Z.min (k + batch_size) (len urls) - k) = Z.to_nat n)
    by (unfold n; f_equal; lia).
  unfold range. rewrite Hend.
  pose proof (window_loop urls k (Z.to_nat n)) as Hloop.
  specialize (Hloop ltac:(lia) ltac:(unfold n, len in *; lia)
                    (world_of (resume (len urls) w)) Hr2).
  cbv beta in Hloop. destruct Hloop as (Hl1 & Hl2 & Hl3).
  rewrite (bind_val (for_each _ _) _ _ tt) by exact Hl1.
  destruct (finish_spec
              (world_of (for_each (range_from k (Z.to_nat n)) (batch_iteration E urls)
                                  (world_of (resume (len urls) w)))))
    as (Hf1 & Hf2 & Hf3 & Hf4).
  unfold outcome_of, world_of, trace_of in *. cbn [fst snd].
  split; [exact Hf1|]. split; [rewrite Hf2, Hl2; unfold n; lia|]. split; [exact Hf3|].
  cbn [app]. rewrite !attempted_app, Hr4, Hl3, Hf4, app_nil_r. reflexivity.
Qed.

(** [run_batch] around its [try] block: the two assignments at entry and
    the handlers change the status only and announce no URL. *)
Lemma run_batch_around_body (batch_size : Z) (w : world) :
  w_disk (world_of (run_batch E batch_size w))
    = w_disk (world_of (run_batch_body E batch_size (entered w))) /\
  w_self (world_of (run_batch E batch_size w))
    = w_self (world_of (run_batch_body E batch_size (entered w))) /\
  attempted (trace_of (run_batch E batch_size w))
    = attempted (trace_of (run_batch_body E batch_size (entered w))).
Proof.
  unfold run_batch.
  rewrite (bind_val (set_status _) _ w tt) by reflexivity.
  cbn [outcome_of world_of trace_of fst snd set_status].
  rewrite (bind_val (set_status _) _ _ tt) by reflexivity.
  cbn [outcome_of world_of trace_of fst snd set_status w_status w_self w_disk w_requests w_ticks].
  fold (entered w). unfold try_finally, try_except.
  destruct (run_batch_body E batch_size (entered w)) as [[[[]|e] w1] t1]; cbn;
    rewrite ?attempted_cons, ?attempted_app; cbn; rewrite ?app_nil_r; repeat split.
Qed.

Lemma attempted_events (t : trace) :
  attempted t = List.flat_map announced (events t).
Proof.
  unfold attempted, events. induction t as [|[e w] t IH]; [reflexivity|].
  simpl. now rewrite IH.
Qed.

(** C2. With a checkpoint at [k] inside a URL list of length [L] and a
    batch size [B] (a size: not negative), [run_batch] attempts the URLs at
    positions [k], ..., [k + min(B, L - k) - 1], each once and in this
    order, so [min(B, L - k)] of them, and ends with the checkpoint on disk
    at [k + min(B, L - k)]. *)
Theorem run_batch_window (batch_size : Z) (w : world) (cp : checkpoint) :
  0 <= batch_size ->
  progress_file (w_disk w) = Some (Loads cp) ->
  0 <= cp_last_index cp <= len (loaded_urls (w_disk w)) ->
  let urls := loaded_urls (w_disk w) in
  let k := cp_last_index cp in
  let n := Z.min batch_size (len urls - k) in
  attempted (trace_of (run_batch E batch_size w))
    = firstn (Z.to_nat n) (skipn (Z.to_nat k) urls) /\
  len (attempted (trace_of (run_batch E batch_size w))) = n /\
  exists cp',
    progress_file (w_disk (world_of (run_batch E batch_size w))) = Some (Loads cp') /\
    cp_last_index cp' = k + n.
Proof.
  intros HB Hcp Hk urls k n.
  assert (Hatt : attempted (trace_of (run_batch E batch_size w))
                 = firstn (Z.to_nat n) (skipn (Z.to_nat k) urls) /\
                 exists cp',
                   progress_file (w_disk (world_of (run_batch E batch_size w)))
                     = Some (Loads cp') /\
                   cp_last_index cp' = k + n).
  { destruct (decide (urls = [])) as [Hnil|Hne].
    - destruct (run_batch_no_urls E batch_size w Hnil) as (Hev & Hdisk & _).
      rewrite attempted_events, Hev, Hdisk.
      assert (Hn0 : n = 0) by (unfold n, k, len in *; fold urls in Hk; rewrite Hnil in *; simpl in *; lia).
      rewrite Hn0. split; [reflexivity|]. exists cp. split; [exact Hcp | lia].
    - destruct (run_batch_around_body batch_size w) as (Hd & Hs & Ha).
      destruct (run_batch_body_window batch_size (entered w) cp HB Hcp Hk Hne)
        as (_ & Hidx & (cat & cp' & _ & _ & _ & Hp & Hpi & _) & Hatt).
      rewrite Ha, Hd. split; [exact Hatt|].
      exists cp'. split; [exact Hp|]. rewrite Hpi. exact Hidx. }
  destruct Hatt as [Hatt Hcp']. split; [exact Hatt|]. split; [|exact Hcp'].
  rewrite Hatt. unfold len. rewrite length_take, length_drop.
  unfold n, k, len in *. fold urls in Hk. lia.
Qed.

End WindowFacts.

(** ** Checkpoint cadence *)

Section CadenceFacts.
Variable E : env.

Lemma bind_exc {A B} (m : M A) (k : A -> M B) (w : world) (e : exn) :
  outcome_of (m w) = Exc e ->
  bind m k w = (Exc e, world_of (m w), trace_of (m w)).
Proof.
  intros H. unfold bind. destruct (m w) as [[r w1] t1]. simpl in *. now subst r.
Qed.

Lemma same_checkpoint_trans (w1 w2 w3 : world) :
  same_checkpoint w1 w2 -> same_checkpoint w2 w3 -> same_checkpoint w1 w3.
Proof. unfold same_checkpoint. intros [a b] [c d]. split; congruence. Qed.

Lemma frame_same_checkpoint (w w' : world) : frame w w' -> same_checkpoint w w'.
Proof. intros (Hs & _ & _ & _ & Hp & _). split; [now rewrite Hs | exact Hp]. Qed.

Lemma unsaved_same (w w' : world) : same_checkpoint w w' -> unsaved w' = unsaved w.
Proof. intros [Hi Hp]. unfold unsaved, resume_point. now rewrite Hi, Hp. Qed.

Lemma within_cadence_same (w w' : world) :
  same_checkpoint w w' -> within_cadence w -> within_cadence w'.
Proof.
  intros Hs H. unfold within_cadence in *. rewrite (unsaved_same _ _ Hs).
  destruct Hs as [-> _]. exact H.
Qed.

Lemma within_cadence_bound (w : world) : within_cadence w -> unsaved w <= 24.
Proof.
  unfold within_cadence. intros H.
  pose proof (Z.mod_pos_bound (last_scraped_index (w_self w)) 25). lia.
Qed.

Lemma throughout_same (D : world -> Prop) (w : world) (t : trace) :
  (forall w', same_checkpoint w w' -> D w') ->
  Forall (fun ew => same_checkpoint w (snd ew)) t -> throughout D t.
Proof. intros HD H. eapply Forall_impl; [exact H|]. intros ew. apply HD. Qed.

Lemma framed_same_checkpoint (w : world) (t : trace) :
  Forall (fun ew => io_event (fst ew) = true /\ frame w (snd ew)) t ->
  Forall (fun ew => same_checkpoint w (snd ew)) t.
Proof.
  intros H. eapply Forall_impl; [exact H|]. intros ew [_ Hf].
  now apply frame_same_checkpoint.
Qed.

(** Recording the result of a fetch moves neither position nor checkpoint. *)
Lemma record_result_checkpoint (url : string) (html : option string) (w : world) :
  same_checkpoint w (world_of (record_result E url html w)) /\
  Forall (fun ew => same_checkpoint w (snd ew)) (trace_of (record_result E url html w)).
Proof.
  destruct (match html with Some h => truthy h | None => false end) eqn:Hh.
  - destruct html as [h|]; [|discriminate].
    destruct (io_only_extract_product E h url w) as [Hf Ht].
    apply frame_same_checkpoint in Hf. apply framed_same_checkpoint in Ht.
    unfold record_result. rewrite Hh. unfold bind.
    destruct (extract_product E h url w) as [[[p|e] w1] t1]; simpl in *; [|now split].
    destruct (truthy (title p)); simpl.
    + destruct Hf as [Hi Hp]. split; [now split|].
      apply Forall_app. split; [exact Ht|]. constructor; [|constructor]. now split.
    + rewrite app_nil_r. now split.
  - rewrite record_result_failed by exact Hh. simpl.
    split; [now split|]. constructor; [|constructor]. now split.
Qed.

Lemma mod_succ_cadence (i : Z) : (i + 1) mod 25 <> 0 -> (i + 1) mod 25 = i mod 25 + 1.
Proof. intros H. Z.to_euclidean_division_equations. lia. Qed.

(** Advancing past position [i], with the save when [i + 1] is a multiple
    of 25. *)
Lemma advance_and_save_bound (i : Z) (w : world) :
  last_scraped_index (w_self w) = i ->
  within_cadence w ->
  throughout (fun w' => unsaved w' <= 25) (trace_of (advance_and_save E i w)) /\
  within_cadence (world_of (advance_and_save E i w)).
Proof.
  intros Hi Hc. apply within_cadence_bound in Hc as Hb.
  unfold within_cadence, unsaved in *. rewrite Hi in *.
  pose proof (Z.mod_pos_bound i 25) as Hm.
  unfold advance_and_save, save_products, save_progress, now, random_delay.
  unfold bind, get_self, set_self, get_disk, set_disk, emit, ret.
  cbn [w_disk w_self w_status w_requests w_ticks].
  destruct ((i + 1) mod 25 =? 0) eqn:Hsave; cbn.
  - apply Z.eqb_eq in Hsave. unfold throughout, unsaved, resume_point; cbn.
    split; [|rewrite Hsave; lia].
    repeat (apply List.Forall_cons; [cbn; fold (resume_point (w_disk w)); lia|]).
    apply List.Forall_nil.
  - apply Z.eqb_neq in Hsave. unfold throughout, unsaved, resume_point; cbn.
    split; [|fold (resume_point (w_disk w)); rewrite (mod_succ_cadence i Hsave); lia].
    repeat (apply List.Forall_cons; [cbn; fold (resume_point (w_disk w)); lia|]).
    apply List.Forall_nil.
Qed.

Lemma advance_and_save_persists (i : Z) (w : world) :
  (i + 1) mod 25 = 0 -> persisted (world_of (advance_and_save E i w)).
Proof.
  intros Hsave. apply Z.eqb_eq in Hsave.
  unfold advance_and_save, save_products, save_progress, now, random_delay.
  unfold bind, get_self, set_self, get_disk, set_disk, emit, ret.
  cbn [w_disk w_self w_status w_requests w_ticks]. rewrite Hsave. cbn.
  do 2 eexists. cbn. repeat split.
Qed.

(** One round keeps what is unsaved within 25 at every point, and within
    the cadence at its end. *)
Lemma batch_iteration_bound (urls : list string) (i : Z) (w : world) :
  last_scraped_index (w_self w) = i ->
  within_cadence w ->
  throughout (fun w' => unsaved w' <= 25) (trace_of (batch_iteration E urls i w)) /\
  within_cadence (world_of (batch_iteration E urls i w)) /\
  (outcome_of (batch_iteration E urls i w) = Val tt ->
   last_scraped_index (w_self (world_of (batch_iteration E urls i w))) = i + 1).
Proof.
  intros Hi Hc.
  assert (HD : forall w', same_checkpoint w w' -> unsaved w' <= 25).
  { intros w' Hs. rewrite (unsaved_same _ _ Hs).
    apply within_cadence_bound in Hc. lia. }
  destruct (item urls i) as [url|] eqn:Hitem.
  - destruct (total_fetch_page E url 3 (started i url w)) as [html Hf].
    destruct (batch_iteration_unfold E urls i url html w Hitem Hf)
      as (Hout & Hw & w1 & Hs1 & Hd1 & Ht).
    set (f := fetch_page E url 3 (started i url w)) in *.
    set (g := record_result E url html (world_of f)) in *.
    assert (Hsf : same_checkpoint w (world_of f) /\
                  Forall (fun ew => same_checkpoint w (snd ew)) (trace_of f)).
    { destruct (io_only_fetch_page E url 3 (started i url w)) as [Hff Htf].
      fold f in Hff, Htf.
      split; [apply (frame_same_checkpoint (started i url w)), Hff|].
      exact (framed_same_checkpoint (started i url w) _ Htf). }
    destruct Hsf as [Hsf Htf].
    destruct (record_result_checkpoint url html (world_of f)) as [Hsg Htg].
    fold g in Hsg, Htg.
    assert (Hsg' : same_checkpoint w (world_of g))
      by exact (same_checkpoint_trans _ _ _ Hsf Hsg).
    destruct (advance_and_save_bound i (world_of g)) as [Hth Hch].
    { destruct Hsg' as [-> _]. exact Hi. }
    { exact (within_cadence_same _ _ Hsg' Hc). }
    destruct (advance_and_save_self E i (world_of g)) as [_ Hself].
    rewrite Hw, Ht. split; [|split].
    + unfold throughout.
      apply List.Forall_cons.
      { apply HD. split; simpl; [rewrite Hs1 | rewrite Hd1]; reflexivity. }
      apply List.Forall_cons; [apply HD; now split|].
      apply Forall_app. split; [exact (throughout_same _ w _ HD Htf)|].
      apply Forall_app. split; [|exact Hth].
      apply (throughout_same _ w _ HD).
      eapply Forall_impl; [exact Htg|]. intros ew Hew.
      exact (same_checkpoint_trans _ _ _ Hsf Hew).
    + exact Hch.
    + intros _. now rewrite Hself.
  - unfold batch_iteration, index. rewrite Hitem.
    unfold bind, raise. cbn. split; [apply List.Forall_nil|]. split; [exact Hc | discriminate].
Qed.

(** The loop from the scraper's position on. *)
Lemma window_loop_bound (urls : list string) (l : list Z) :
  hoare (fun w => within_cadence w /\ l = range_from (last_scraped_index (w_self w)) (length l))
        (for_each l (batch_iteration E urls))
        (fun r w t => throughout (fun w' => unsaved w' <= 25) t /\ within_cadence w).
Proof.
  pose (Inv := fun (rest : list Z) (w : world) (t : trace) =>
    throughout (fun w' => unsaved w' <= 25) t /\ within_cadence w /\
    rest = range_from (last_scraped_index (w_self w)) (length rest)).
  eapply hoare_conseq;
    [apply (hoare_for_each (batch_iteration E urls) Inv
              (fun _ w t => throughout (fun w' => unsaved w' <= 25) t /\ within_cadence w))
       with (l := l) (t0 := []) | |].
  - intros a rest t0 w (Ht0 & Hc & Hrest). simpl in Hrest.
    rewrite range_from_succ in Hrest. injection Hrest as Ha Hrest.
    destruct (batch_iteration_bound urls a w (eq_sym Ha) Hc) as (Ht & Hc' & Hidx).
    destruct (outcome_of (batch_iteration E urls a w)) as [[]|e] eqn:Hout.
    + split; [now apply throughout_app|]. split; [exact Hc'|].
      rewrite (Hidx eq_refl), Ha. exact Hrest.
    + split; [now apply throughout_app | exact Hc'].
  - intros w [Hc Hl]. split; [apply List.Forall_nil | now split].
  - intros r w t. simpl. destruct r as [[]|e].
    + intros (Ht & Hc & _). now split.
    + intros H. exact H.
Qed.

Lemma resume_bound (total : Z) (w : world) :
  unsaved w <= 0 ->
  (exists k, outcome_of (resume total w) = Val k /\
             last_scraped_index (w_self (world_of (resume total w))) = k) /\
  within_cadence (world_of (resume total w)) /\
  throughout (fun w' => unsaved w' <= 25) (trace_of (resume total w)).
Proof.
  intros Hu. unfold unsaved, resume_point in Hu.
  pose proof (Z.mod_pos_bound (last_scraped_index (w_self w)) 25) as Hm.
  unfold resume, load_products, load_progress.
  unfold bind, get_disk, get_self, set_self, set_status, ret.
  cbn [w_disk w_self w_status w_requests w_ticks].
  destruct (output_file (w_disk w)) as [[|cat]|]; cbn;
    destruct (progress_file (w_disk w)) as [[|cp]|] eqn:Hp; cbn;
    (split; [eexists; split; reflexivity|]);
    unfold within_cadence, throughout, unsaved, resume_point; cbn; rewrite Hp;
    try pose proof (Z.mod_pos_bound (cp_last_index cp) 25);
    (split; [lia|]);
    repeat (apply List.Forall_cons; [cbn; rewrite Hp; lia|]); apply List.Forall_nil.
Qed.

Lemma finish_bound (w : world) :
  within_cadence w ->
  throughout (fun w' => unsaved w' <= 25) (trace_of (finish E w)) /\
  unsaved (world_of (finish E w)) <= 24.
Proof.
  intros Hc. apply within_cadence_bound in Hc. unfold unsaved in Hc.
  unfold finish, save_products, save_progress, now.
  unfold bind, get_disk, get_self, set_disk, set_status, emit, ret.
  cbn [w_disk w_self w_status w_requests w_ticks].
  unfold throughout, unsaved, resume_point; cbn.
  split; [|lia].
  repeat (apply List.Forall_cons; [cbn; fold (resume_point (w_disk w)); lia|]).
  apply List.Forall_nil.
Qed.

Lemma run_batch_body_bound (batch_size : Z) (w : world) :
  unsaved w <= 0 ->
  throughout (fun w' => unsaved w' <= 25) (trace_of (run_batch_body E batch_size w)) /\
  unsaved (world_of (run_batch_body E batch_size w)) <= 24.
Proof.
  intros Hu. unfold run_batch_body, init_scraper, load_urls.
  rewrite (bind_val (ret tt) _ w tt) by reflexivity.
  rewrite (bind_val (bind get_disk _) _ _ (loaded_urls (w_disk w))) by reflexivity.
  cbn [outcome_of world_of trace_of fst snd ret bind get_disk app].
  destruct (loaded_urls (w_disk w)) as [|u0 urls'].
  - unfold bind, set_status. cbn. unfold throughout, unsaved in *. cbn.
    split; [|lia].
    repeat (apply List.Forall_cons; [cbn; lia|]). apply List.Forall_nil.
  - cbv beta iota. remember (u0 :: urls') as urls eqn:Hu0. clear Hu0 u0 urls'.
    destruct (resume_bound (len urls) w Hu) as ((k & Hr1 & Hr2) & Hrc & Hrt).
    rewrite (bind_val (resume (len urls)) _ w k) by exact Hr1.
    set (w1 := world_of (resume (len urls) w)) in *.
    set (l := range k (Z.min (k + batch_size) (len urls))).
    destruct (window_loop_bound urls l w1) as [Hlt Hlc].
    { split; [exact Hrc|]. rewrite Hr2. unfold l, range. now rewrite length_range_from. }
    destruct (outcome_of (for_each l (batch_iteration E urls) w1)) as [[]|e] eqn:Hlo.
    + rewrite (bind_val (for_each l _) _ w1 tt) by exact Hlo.
      destruct (finish_bound _ Hlc) as [Hft Hfu].
      cbn [outcome_of world_of trace_of fst snd].
      split; [|exact Hfu].
      apply throughout_app; [exact Hrt|]. now apply throughout_app.
    + rewrite (bind_exc (for_each l _) _ w1 e) by exact Hlo.
      cbn [outcome_of world_of trace_of fst snd].
      split; [now apply throughout_app | now apply within_cadence_bound].
Qed.

(** The entry assignments and the handlers of [run_batch] show worlds with
    the scraper object and the disk of the [try] block around them. *)
Lemma run_batch_throughout (D : world -> Prop) (batch_size : Z) (w : world) :
  (forall w1 w2, w_self w2 = w_self w1 -> w_disk w2 = w_disk w1 -> D w1 -> D w2) ->
  D w ->
  throughout D (trace_of (run_batch_body E batch_size (entered w))) ->
  D (world_of (run_batch_body E batch_size (entered w))) ->
  throughout D (trace_of (run_batch E batch_size w)).
Proof.
  intros Hext Hw Ht Hend. unfold run_batch.
  rewrite (bind_val (set_status _) _ w tt) by reflexivity.
  cbn [outcome_of world_of trace_of fst snd set_status].
  rewrite (bind_val (set_status _) _ _ tt) by reflexivity.
  cbn [outcome_of world_of trace_of fst snd set_status w_status w_self w_disk w_requests w_ticks].
  fold (entered w). unfold try_finally, try_except.
  destruct (run_batch_body E batch_size (entered w)) as [[[[]|e] w1] t1];
    cbn in *; unfold throughout in *;
    (apply List.Forall_cons; [now apply (Hext w)|]);
    (apply List.Forall_cons; [now apply (Hext w)|]);
    rewrite ?app_nil_r, <- ?app_assoc; cbn [app]; apply Forall_app; (split; [exact Ht|]);
    repeat (apply List.Forall_cons; [now apply (Hext w1)|]); apply List.Forall_nil.
Qed.

Lemma persisted_ext (w w' : world) :
  w_self w' = w_self w -> w_disk w' = w_disk w -> persisted w -> persisted w'.
Proof. intros Hs Hd. unfold persisted. now rewrite Hs, Hd. Qed.

Lemma total_resume (total : Z) (w : world) :
  exists k, outcome_of (resume total w) = Val k.
Proof.
  unfold resume, load_products, load_progress.
  unfold bind, get_disk, get_self, set_self, set_status, ret.
  cbn [w_disk w_self w_status w_requests w_ticks].
  destruct (output_file (w_disk w)) as [[|cat]|]; cbn;
    destruct (progress_file (w_disk w)) as [[|cp]|]; cbn; eexists; reflexivity.
Qed.

(** A [try] block that ends normally on a non-empty list ran [finish]. *)
Lemma run_batch_body_completes (batch_size : Z) (w : world) :
  loaded_urls (w_disk w) <> [] ->
  outcome_of (run_batch_body E batch_size w) = Val tt ->
  persisted (world_of (run_batch_body E batch_size w)).
Proof.
  intros Hne. unfold run_batch_body, init_scraper, load_urls.
  rewrite (bind_val (ret tt) _ w tt) by reflexivity.
  rewrite (bind_val (bind get_disk _) _ _ (loaded_urls (w_disk w))) by reflexivity.
  cbn [outcome_of world_of trace_of fst snd ret bind get_disk app].
  destruct (loaded_urls (w_disk w)) as [|u0 urls']; [contradiction|].
  cbv beta iota. remember (u0 :: urls') as urls eqn:Hu0. clear Hu0 Hne u0 urls'.
  destruct (total_resume (len urls) w) as [k Hr].
  rewrite (bind_val (resume (len urls)) _ w k) by exact Hr.
  set (w1 := world_of (resume (len urls) w)).
  set (l := range k (Z.min (k + batch_size) (len urls))).
  destruct (outcome_of (for_each l (batch_iteration E urls) w1)) as [[]|e] eqn:Hlo.
  - rewrite (bind_val (for_each l _) _ w1 tt) by exact Hlo.
    cbn [outcome_of world_of trace_of fst snd]. intros _. apply finish_spec.
  - rewrite (bind_exc (for_each l _) _ w1 e) by exact Hlo.
    cbn [outcome_of world_of trace_of fst snd]. discriminate.
Qed.

(** A run that ends with no error in the status went through a [try] block
    that ended normally on a non-empty list. *)
Lemma run_batch_no_error (batch_size : Z) (w : world) :
  error (w_status (world_of (run_batch E batch_size w))) = None ->
  loaded_urls (w_disk w) <> [] /\
  outcome_of (run_batch_body E batch_size (entered w)) = Val tt.
Proof.
  intros Herr. split.
  - intros Hnil. destruct (run_batch_no_urls E batch_size w Hnil) as (_ & _ & _ & _ & He).
    congruence.
  - revert Herr. unfold run_batch.
    rewrite (bind_val (set_status _) _ w tt) by reflexivity.
    cbn [outcome_of world_of trace_of fst snd set_status].
    rewrite (bind_val (set_status _) _ _ tt) by reflexivity.
    cbn [outcome_of world_of trace_of fst snd set_status w_status w_self w_disk w_requests w_ticks].
    fold (entered w). unfold try_finally, try_except.
    destruct (run_batch_body E batch_size (entered w)) as [[[[]|e] w1] t1]; cbn;
      [reflexivity | discriminate].
Qed.


End CadenceFacts.


(** ** The theorems at concrete inputs *)

Lemma run_batch_window_witness :
  attempted (trace_of (run_batch Scenario.gone_env 10 Scenario.resumed_world))
    = firstn 5 (skipn 20 Scenario.backlog_urls) /\
  len (attempted (trace_of (run_batch Scenario.gone_env 10 Scenario.resumed_world))) = 5 /\
  exists cp',
    progress_file (w_disk (world_of (run_batch Scenario.gone_env 10 Scenario.resumed_world)))
      = Some (Loads cp') /\
    cp_last_index cp' = 20 + 5.
Proof.
  apply (run_batch_window Scenario.gone_env 10 Scenario.resumed_world
           (Checkpoint 20 [] "2026-01-01T00:00:00")).
  - lia.
  - reflexivity.
  - vm_compute. split; discriminate.
Defined.


Lemma batch_iteration_accounting_witness :
  (products (w_self (world_of (batch_iteration Scenario.untitled_env [Scenario.widget_url] 0
                                               Scenario.widget_world)))
     = products (w_self Scenario.widget_world) /\
   failed_urls (w_self (world_of (batch_iteration Scenario.untitled_env [Scenario.widget_url] 0
                                                  Scenario.widget_world)))
     = failed_urls (w_self Scenario.widget_world))
  /\
  (products (w_self (world_of (batch_iteration Scenario.gone_env [Scenario.widget_url] 0
                                               Scenario.widget_world)))
     = products (w_self Scenario.widget_world) /\
   failed_urls (w_self (world_of (batch_iteration Scenario.gone_env [Scenario.widget_url] 0
                                                  Scenario.widget_world)))
     = failed_urls (w_self Scenario.widget_world) ++ [Scenario.widget_url]).
Proof.
  split.
  - eapply (proj1 (batch_iteration_accounting Scenario.untitled_env [Scenario.widget_url] 0
                     Scenario.widget_url Scenario.widget_world eq_refl)
                  Scenario.untitled_html).
    + vm_compute. reflexivity.
    + reflexivity.
    + vm_compute. reflexivity.
    + reflexivity.
  - apply (proj2 (batch_iteration_accounting Scenario.gone_env [Scenario.widget_url] 0
                    Scenario.widget_url Scenario.widget_world eq_refl)).
    vm_compute. reflexivity.
Defined.

Lemma empty_body_is_a_failure_witness :
  outcome_of (fetch_page Scenario.empty_env Scenario.widget_url 3
                         (started 0 Scenario.widget_url Scenario.widget_world))
    = Val (Some EmptyString) /\
  failed_urls (w_self (world_of (batch_iteration Scenario.empty_env [Scenario.widget_url] 0
                                                 Scenario.widget_world)))
    = failed_urls (w_self Scenario.widget_world) ++ [Scenario.widget_url] /\
  products (w_self (world_of (batch_iteration Scenario.empty_env [Scenario.widget_url] 0
                                              Scenario.widget_world)))
    = products (w_self Scenario.widget_world) /\
  events (trace_of (batch_iteration Scenario.empty_env [Scenario.widget_url] 0
                                    Scenario.widget_world)) =
    [EvStatus (SetCurrentIndex (0 + 1));
     EvStatus (SetCurrentProduct (Some Scenario.widget_url))]
    ++ retry_events Scenario.widget_url 0
    ++ [EvGet Scenario.widget_url;
        EvStatus (SetFailedCount
                    (len (failed_urls (w_self Scenario.widget_world) ++ [Scenario.widget_url])));
        EvSleep 1 2]
    ++ (if (0 + 1) mod 25 =? 0 then [EvWriteProducts; EvWriteProgress] else []).
Proof.
  apply (empty_body_is_a_failure Scenario.empty_env [Scenario.widget_url] 0
           Scenario.widget_url 0 Scenario.widget_world).
  - reflexivity.
  - lia.
  - intros a Ha. lia.
  - reflexivity.
Defined.

(** The link both classifiers accept. *)
Example both_classifiers_accept :
  is_product_url Scenario.both_url = true /\ is_category_url Scenario.both_url = true.
Proof. split; vm_compute; reflexivity. Qed.

Lemma crawl_frontier_has_no_product_witness :
  let c := scrape_page Scenario.listing_env (Response 200 "<html>listing</html>") new_crawler in
  (forall u, u ∈ category_links c -> is_product_url u = false) /\
  (forall u, u ∈ visited c -> is_product_url u = false) /\
  product_links (classify Scenario.both_url c) = {[Scenario.both_url]} ∪ product_links c /\
  category_links (classify Scenario.both_url c) = category_links c /\
  visited (classify Scenario.both_url c) = visited c.
Proof.
  intros c.
  destruct (crawl_frontier_has_no_product Scenario.listing_env 500 c 0
              (reach_first Scenario.listing_env 500 (Response 200 "<html>listing</html>")))
    as (Hc & Hv & Hp).
  split; [exact Hc|]. split; [exact Hv|].
  apply Hp. vm_compute. reflexivity.
Defined.

Section ImageFacts.
Variable E : env.

Lemma download_image_hit (url sku : string) (idx : nat) (w : world) :
  stored (w_disk w) (image_target E url sku idx) = true ->
  download_image E url sku idx w = (Val (Some (image_target E url sku idx)), w, []).
Proof.
  intros H. unfold download_image, try_except, bind, get_disk.
  fold (image_name url sku idx). fold (image_target E url sku idx).
  unfold stored in H. rewrite H. reflexivity.
Qed.

Lemma download_image_miss (url sku : string) (idx : nat) (w : world) :
  stored (w_disk w) (image_target E url sku idx) = false ->
  let w1 := bump_by 1 w in
  let w2 := World (w_status w) (w_self w)
                  (Disk (urls_file (w_disk w)) (bundled_urls_file (w_disk w))
                        (progress_file (w_disk w)) (output_file (w_disk w))
                        (image_target E url sku idx :: image_files (w_disk w)))
                  (w_requests w + 1) (w_ticks w) in
  download_image E url sku idx w =
  match http E (w_requests w) url with
  | Response code _ =>
      if code =? 200
      then (Val (Some (image_target E url sku idx)), w2,
            [(EvGet url, w1); (EvWriteImage (image_target E url sku idx), w2)])
      else (Val None, w1, [(EvGet url, w1)])
  | Failed _ => (Val None, w1, [(EvGet url, w1)])
  end.
Proof.
  intros H w1 w2. unfold download_image, try_except, bind, get_disk.
  fold (image_name url sku idx). fold (image_target E url sku idx).
  unfold stored in H. rewrite H. unfold scraper_get.
  subst w1 w2. unfold bump_by. rewrite Nat.add_1_r.
  destruct (http E (w_requests w) url) as [code text|e]; cbn.
  - destruct (code =? 200); reflexivity.
  - reflexivity.
Qed.


Lemma download_image_stored (url sku : string) (idx : nat) (w : world) :
  let r := download_image E url sku idx w in
  (exists v, outcome_of r = Val v) /\
  (forall p, stored (w_disk w) p = true -> stored (w_disk (world_of r)) p = true) /\
  (forall path, outcome_of r = Val (Some path) ->
     path = image_target E url sku idx /\ stored (w_disk (world_of r)) path = true).
Proof.
  cbv zeta.
  destruct (stored (w_disk w) (image_target E url sku idx)) eqn:Hs.
  - rewrite (download_image_hit _ _ _ _ Hs). cbn.
    split; [eauto|]. split; [auto|]. intros path [= <-]. auto.
  - rewrite (download_image_miss _ _ _ _ Hs).
    destruct (http E (w_requests w) url) as [code text|e];
      [destruct (code =? 200)|]; cbn.
    + split; [eauto|]. split.
      * intros p Hp. unfold stored in *. cbn. rewrite Hp. apply orb_true_r.
      * intros path [= <-]. split; [reflexivity|].
        unfold stored. cbn. rewrite String.eqb_refl. reflexivity.
    + split; [eauto|]. split; [auto|]. intros path [=].
    + split; [eauto|]. split; [auto|]. intros path [=].
Qed.

(** The descriptor at position [j] of an image list built for [sku]. *)
Lemma collect_images_spec (imgs : list node) (sku : string) :
  forall seen images w,
    (forall j im, nth_error images j = Some im ->
       numbered_image E sku j im /\ stored (w_disk w) (img_local_path im) = true) ->
    let r := collect_images E imgs sku seen images w in
    exists out,
      outcome_of r = Val out /\
      (forall j im, nth_error out j = Some im ->
         numbered_image E sku j im /\ stored (w_disk (world_of r)) (img_local_path im) = true) /\
      (forall p, stored (w_disk w) p = true -> stored (w_disk (world_of r)) p = true).
Proof.
  induction imgs as [|img rest IH]; intros seen images w Hinv; cbv zeta.
  - cbn. exists images. auto.
  - cbn [collect_images].
    set (src0 := str_or (attr_or_empty img "src") (attr_or_empty img "data-src")).
    destruct (contains "prodimage" src0 && contains "media.nisbets.com" src0);
      [|apply IH; exact Hinv].
    set (src := sub size_re (fun _ => "/largezoom/") src0).
    set (base := sub base_re _ _).
    destruct (existsb (String.eqb base) seen); [apply IH; exact Hinv|].
    destruct (download_image_stored src sku (length images + 1) w) as [[v Hv] [Hmono Hpath]].
    rewrite (bind_val _ _ _ _ Hv).
    set (w1 := world_of (download_image E src sku (length images + 1) w)) in *.
    assert (Hinv1 : forall j im, nth_error images j = Some im ->
              numbered_image E sku j im /\ stored (w_disk w1) (img_local_path im) = true).
    { intros j im Hj. destruct (Hinv j im Hj). auto. }
    cbn [outcome_of world_of trace_of fst snd].
    destruct v as [path|].
    + destruct (Hpath path Hv) as [-> Hst].
      destruct (truthy (image_target E src sku (length images + 1))).
      * edestruct (IH (base :: seen)
                      (images ++ [Image src (image_target E src sku (length images + 1))
                                        (basename (image_target E src sku (length images + 1)))])
                      w1) as [out [Ho [Hg Hm]]].
        { intros j im Hj.
          destruct (Nat.lt_ge_cases j (length images)) as [Hlt|Hge].
          - rewrite nth_error_app1 in Hj by exact Hlt. auto.
          - rewrite nth_error_app2 in Hj by exact Hge.
            destruct (j - length images)%nat as [|d] eqn:Hd.
            + cbn in Hj. injection Hj as <-. cbn.
              assert (j = length images) as -> by lia.
              split; [split; reflexivity|exact Hst].
            + destruct d; discriminate Hj. }
        exists out. split; [exact Ho|]. split; [exact Hg|]. auto.
      * edestruct (IH (base :: seen) images w1 Hinv1) as [out [Ho [Hg Hm]]].
        exists out. split; [exact Ho|]. split; [exact Hg|]. auto.
    + edestruct (IH (base :: seen) images w1 Hinv1) as [out [Ho [Hg Hm]]].
      exists out. split; [exact Ho|]. split; [exact Hg|]. auto.
Qed.



(** X2. A stored image is found again by SKU, number and extension, not
    by URL: once [download_image] returned a path, a call for any URL with
    the same extension, the same SKU and the same number returns that path
    without a request and changes nothing. *)
Theorem download_image_cache_key (url url' sku : string) (idx : nat) (w : world) (p : string) :
  outcome_of (download_image E url sku idx w) = Val (Some p) ->
  contains ".png" (lower url') = contains ".png" (lower url) ->
  let w' := world_of (download_image E url sku idx w) in
  download_image E url' sku idx w' = (Val (Some p), w', []).
Proof.
  intros Hp Hext w'.
  destruct (download_image_stored url sku idx w) as [_ [_ Hpath]].
  destruct (Hpath p Hp) as [-> Hst].
  assert (Ht : image_target E url' sku idx = image_target E url sku idx).
  { unfold image_target, image_name. rewrite Hext. reflexivity. }
  rewrite <- Ht. apply download_image_hit. rewrite Ht. exact Hst.
Qed.

Lemma extract_product_run (html url : string) (soup : node) (w w2 : world)
      (out : list image) (t2 : trace) :
  lxml E html = Val soup ->
  let w1 := World (w_status w) (w_self w) (w_disk w) (w_requests w) (S (w_ticks w)) in
  collect_images E (find_all "img" soup) (sku_of_url url) [] [] w1 = (Val out, w2, t2) ->
  extract_product E html url w =
  (Val (Product (title_of soup) (description_of E soup) (brand_of soup) ""
                ["SKU:" +:+ sku_of_url url; "UK"; "Nisbets UK"; "GBP"] "draft"
                [default_variant (probe_price price_selectors soup) (sku_of_url url)]
                (List.firstn 10%nat out) uk_metafields url (sku_of_url url)
                (match probe_price price_selectors soup with
                 | Some p => p
                 | None => EmptyString
                 end)
                (isoformat_now E (w_ticks w))),
   w2, (EvParse html, w1) :: t2).
Proof.
  intros Hl w1 Hc.
  unfold extract_product, now, extract_fields, BeautifulSoup, try_except, bind.
  rewrite Hl. fold w1. rewrite Hc. unfold ret. cbn [app].
  rewrite app_nil_r. reflexivity.
Qed.

Lemma extract_product_blank (html url : string) (e : exn) (w : world) :
  lxml E html = Exc e ->
  let w1 := World (w_status w) (w_self w) (w_disk w) (w_requests w) (S (w_ticks w)) in
  extract_product E html url w =
  (Val (blank_product url (isoformat_now E (w_ticks w))), w1, [(EvParse html, w1)]).
Proof.
  intros Hl w1.
  unfold extract_product, now, extract_fields, BeautifulSoup, try_except, bind.
  rewrite Hl. reflexivity.
Qed.

Lemma extract_product_summary (html url : string) (w : world) :
  let r := extract_product E html url w in
  exists p,
    outcome_of r = Val p /\
    source_url p = url /\
    (length (images p) <= 10)%nat /\
    (forall j im, nth_error (images p) j = Some im ->
       numbered_image E (source_sku p) j im /\
       stored (w_disk (world_of r)) (img_local_path im) = true) /\
    (forall q, stored (w_disk w) q = true -> stored (w_disk (world_of r)) q = true).
Proof.
  cbv zeta.
  destruct (lxml E html) as [soup|e] eqn:Hl.
  - set (w1 := World (w_status w) (w_self w) (w_disk w) (w_requests w) (S (w_ticks w))).
    destruct (collect_images_spec (find_all "img" soup) (sku_of_url url) [] [] w1)
      as [out [Ho [Hg Hm]]].
    { intros j im Hj. destruct j; discriminate Hj. }
    destruct (collect_images E (find_all "img" soup) (sku_of_url url) [] [] w1)
      as [[o w2] t2] eqn:Hc.
    cbn in Ho, Hg, Hm. subst o.
    rewrite (extract_product_run _ _ _ _ _ _ _ Hl Hc). cbn.
    eexists. split; [reflexivity|]. cbn. split; [reflexivity|]. split; [|split].
    + rewrite length_take. lia.
    + intros j im Hj. apply Hg.
      rewrite nth_error_firstn in Hj.
      destruct (j <? 10)%nat; [exact Hj|discriminate Hj].
    + exact Hm.
  - rewrite (extract_product_blank _ _ _ _ Hl). cbn.
    eexists. split; [reflexivity|]. cbn. split; [reflexivity|]. split; [lia|].
    split; [|auto]. intros j im Hj. destruct j; discriminate Hj.
Qed.

(** X3. [extract_product] returns a record with at most ten images.  The
    image at position [j] (from 0) is the file [download_image] names for
    the SKU of the record with the number [j + 1], its [filename] is the
    base name of its [local_path], and the file is in the image directory
    when [extract_product] returns. *)
Theorem extract_product_images (html url : string) (w : world) :
  let r := extract_product E html url w in
  exists p,
    outcome_of r = Val p /\
    (length (images p) <= 10)%nat /\
    forall j im, nth_error (images p) j = Some im ->
      numbered_image E (source_sku p) j im /\
      stored (w_disk (world_of r)) (img_local_path im) = true.
Proof.
  cbv zeta. destruct (extract_product_summary html url w) as (p & Hp & _ & Hlen & Himg & _).
  exists p. auto.
Qed.

End ImageFacts.

(** ** Saving and loading *)

Section PersistenceFacts.
Variable E : env.

Lemma resume_run (total : Z) (w : world) :
  outcome_of (resume total w) = Val (last_scraped_index (resumed w)) /\
  world_of (resume total w) =
    World (resumed_status total w) (resumed w) (w_disk w) (w_requests w) (w_ticks w) /\
  events (trace_of (resume total w)) =
    [EvStatus (SetTotalUrls total);
     EvStatus (SetCurrentIndex (last_scraped_index (resumed w)));
     EvStatus (SetProductsScraped (len (products (resumed w))))].
Proof.
  unfold resume, resumed_status, load_products, load_progress. unfold resumed.
  unfold bind, get_disk, get_self, set_self, set_status, ret.
  cbn [w_disk w_self w_status w_requests w_ticks].
  destruct (output_file (w_disk w)) as [[|cat]|]; cbn;
    destruct (progress_file (w_disk w)) as [[|cp]|]; cbn; repeat split.
Qed.

Lemma resumed_persisted (w w' : world) :
  persisted w -> w_disk w' = w_disk w -> resumed w' = w_self w.
Proof.
  intros (cat & cp & Ho & Hp & _ & Hc & Hi & Hf) Hd.
  unfold resumed. rewrite Hd, Ho, Hc. cbn. rewrite Hp, Hi, Hf.
  destruct (w_self w); reflexivity.
Qed.

Lemma bind_cases {A B} (m : M A) (k : A -> M B) (w : world) :
  (exists a, outcome_of (m w) = Val a /\
             outcome_of (bind m k w) = outcome_of (k a (world_of (m w))) /\
             world_of (bind m k w) = world_of (k a (world_of (m w))) /\
             trace_of (bind m k w) = trace_of (m w) ++ trace_of (k a (world_of (m w)))) \/
  (exists e, outcome_of (m w) = Exc e /\
             outcome_of (bind m k w) = Exc e /\
             world_of (bind m k w) = world_of (m w) /\
             trace_of (bind m k w) = trace_of (m w)).
Proof.
  unfold bind. destruct (m w) as [[[a|e] w1] t1]; cbn.
  - left. exists a. destruct (k a w1) as [[r w2] t2]. cbn. auto.
  - right. exists e. auto.
Qed.

(** The [try] block of [run_batch] on a non-empty URL list. *)
Lemma run_batch_body_nonempty (batch_size : Z) (w : world) :
  loaded_urls (w_disk w) <> [] ->
  run_batch_body E batch_size w =
  (start <- resume (len (loaded_urls (w_disk w))) ;;
   for_each (range start (Z.min (start + batch_size) (len (loaded_urls (w_disk w)))))
            (batch_iteration E (loaded_urls (w_disk w))) ;;
   finish E) w.
Proof.
  intros Hne. unfold run_batch_body, init_scraper, load_urls.
  unfold bind at 1 2 3. unfold ret at 1 2, get_disk. cbn [fst snd].
  destruct (loaded_urls (w_disk w)) as [|u0 urls'] eqn:Hurls; [contradiction|].
  match goal with |- context [bind ?m ?k w] => destruct (bind m k w) as [[r w2] t2] end.
  reflexivity.
Qed.



(** X6. After a batch that ended without an error, a new process that
    loads the two files at the start of its next batch holds the records,
    the failed URLs and the position the old process ended with. *)
Theorem restart_after_clean_batch (batch_size total : Z) (w : world) (st : run_status)
        (r t : nat) :
  let w1 := world_of (run_batch E batch_size w) in
  error (w_status w1) = None ->
  w_self (world_of (resume total (World st new_scraper (w_disk w1) r t))) = w_self w1.
Proof.
  intros w1 Herr. subst w1.
  destruct (run_batch_no_error E batch_size w Herr) as [Hne Hbody].
  pose proof (run_batch_body_completes E batch_size (entered w) Hne Hbody) as Hp.
  destruct (run_batch_around_body E batch_size w) as (Hd & Hs & _).
  destruct (resume_run total (World st new_scraper
              (w_disk (world_of (run_batch E batch_size w))) r t)) as (_ & Hw & _).
  rewrite Hw. cbn [w_self].
  rewrite Hs. apply resumed_persisted; [exact Hp|].
  cbn [w_disk]. exact Hd.
Qed.

End PersistenceFacts.

(** ** What a batch adds *)

Section ProgressFacts.
Variable E : env.

Lemma kept_refl (d : disk) : kept d d.
Proof. repeat split; auto. Qed.

Lemma kept_trans (d1 d2 d3 : disk) : kept d1 d2 -> kept d2 d3 -> kept d1 d3.
Proof.
  intros (A1 & B1 & C1) (A2 & B2 & C2). repeat split; [congruence..|auto].
Qed.

Lemma on_disk_kept (d d' : disk) (p : product) : kept d d' -> on_disk d p -> on_disk d' p.
Proof.
  intros (_ & _ & Hk) Hp. unfold on_disk in *.
  eapply Forall_impl; [exact Hp|]. intros im; apply Hk.
Qed.

Lemma batch_progress_refl (w w' : world) :
  products (w_self w') = products (w_self w) ->
  failed_urls (w_self w') = failed_urls (w_self w) ->
  kept (w_disk w) (w_disk w') -> batch_progress [] w w'.
Proof.
  intros Hp Hf Hk. split; [exact Hk|]. exists [], []. rewrite Hp, Hf, !app_nil_r.
  repeat split; auto.
Qed.

Lemma batch_progress_trans (a1 a2 : list string) (w1 w2 w3 : world) :
  batch_progress a1 w1 w2 -> batch_progress a2 w2 w3 -> batch_progress (a1 ++ a2) w1 w3.
Proof.
  intros (K1 & ps1 & fs1 & P1 & F1 & Hp1 & Hf1 & L1) (K2 & ps2 & fs2 & P2 & F2 & Hp2 & Hf2 & L2).
  split; [eapply kept_trans; eassumption|].
  exists (ps1 ++ ps2), (fs1 ++ fs2).
  rewrite P2, P1, F2, F1, <- !app_assoc. split; [reflexivity|]. split; [reflexivity|].
  split; [|split].
  - apply Forall_app; split.
    + eapply Forall_impl; [exact Hp1|]. intros p (Ht & Hin & Hd).
      split; [exact Ht|]. split; [apply in_or_app; auto|].
      eapply on_disk_kept; eassumption.
    + eapply Forall_impl; [exact Hp2|]. intros p (Ht & Hin & Hd).
      split; [exact Ht|]. split; [apply in_or_app; auto|exact Hd].
  - apply Forall_app; split.
    + eapply Forall_impl; [exact Hf1|]. intros u Hin. apply in_or_app; auto.
    + eapply Forall_impl; [exact Hf2|]. intros u Hin. apply in_or_app; auto.
  - rewrite !length_app. lia.
Qed.

Lemma fetch_page_world (url : string) (n : nat) :
  forall w,
    w_self (world_of (fetch_page E url n w)) = w_self w /\
    w_status (world_of (fetch_page E url n w)) = w_status w /\
    w_disk (world_of (fetch_page E url n w)) = w_disk w.
Proof.
  induction n as [|n IH]; intros w; [repeat split|].
  cbn [fetch_page]. unfold try_except, bind, scraper_get, random_delay, emit, ret.
  destruct (http E (w_requests w) url) as [code text|e]; cbn.
  - destruct (code =? 200); [repeat split|].
    destruct (code =? 404); [repeat split|]. cbn.
    match goal with |- context [fetch_page E url n ?w1] =>
      destruct (IH w1) as (A & B & C); destruct (fetch_page E url n w1) as [[o w2] t2] end.
    cbn in *. auto.
  - match goal with |- context [fetch_page E url n ?w1] =>
      destruct (IH w1) as (A & B & C); destruct (fetch_page E url n w1) as [[o w2] t2] end.
    cbn in *. auto.
Qed.

Lemma record_result_run (url html : string) (p : product) (w : world) :
  truthy html = true ->
  outcome_of (extract_product E html url w) = Val p ->
  truthy (title p) = true ->
  let w1 := world_of (extract_product E html url w) in
  let w2 := World (apply_write (SetProductsScraped (len (products (w_self w1) ++ [p])))
                               (w_status w1))
                  (Scraper (products (w_self w1) ++ [p]) (failed_urls (w_self w1))
                           (last_scraped_index (w_self w1)))
                  (w_disk w1) (w_requests w1) (w_ticks w1) in
  record_result E url (Some html) w =
  (Val tt, w2,
   trace_of (extract_product E html url w)
     ++ [(EvStatus (SetProductsScraped (len (products (w_self w1) ++ [p]))), w2)]).
Proof.
  intros Hh Hp Ht. unfold record_result. rewrite Hh. unfold bind.
  destruct (extract_product E html url w) as [[r w1] t1]. simpl in *. subst r.
  rewrite Ht. reflexivity.
Qed.

Lemma truthy_nonempty (s : string) : truthy s = true -> s <> EmptyString.
Proof. destruct s; [discriminate|discriminate]. Qed.

Lemma record_result_progress (url : string) (html : option string) (w : world) :
  batch_progress [url] w (world_of (record_result E url html w)).
Proof.
  destruct (match html with Some h => truthy h | None => false end) eqn:Hh.
  - destruct html as [h|]; [|discriminate].
    destruct (extract_product_summary E h url w) as (p & Hp & Hsrc & _ & Himg & Hmono).
    destruct (io_only_extract_product E h url w) as [(Hself & _ & Hu & Hb & _) _].
    assert (Hk : kept (w_disk w) (w_disk (world_of (extract_product E h url w))))
      by (repeat split; assumption).
    destruct (truthy (title p)) eqn:Ht.
    + rewrite (record_result_run url h p w Hh Hp Ht).
      unfold world_of in *. cbn [fst snd] in *.
      split; [exact Hk|]. exists [p], []. cbn [w_self products failed_urls w_disk].
      rewrite Hself, app_nil_r. split; [reflexivity|]. split; [reflexivity|].
      split; [|split; [constructor|cbn; lia]].
      constructor; [|constructor]. split; [apply truthy_nonempty; exact Ht|].
      split; [rewrite Hsrc; left; reflexivity|].
      unfold on_disk. apply List.Forall_forall. intros im Him.
      apply In_nth_error in Him. destruct Him as [j Hj]. apply (Himg j im Hj).
    + rewrite (record_result_untitled E url h p w Hh Hp Ht).
      unfold world_of in *. cbn [fst snd] in *.
      split; [exact Hk|]. exists [], []. rewrite Hself, !app_nil_r.
      repeat split; auto. cbn; lia.
  - rewrite (record_result_failed E url html w Hh). cbn.
    split; [apply kept_refl|]. exists [], [url]. rewrite app_nil_r.
    repeat split; auto. constructor; [left; reflexivity|constructor].
Qed.


Lemma advance_and_save_progress (i : Z) (w : world) :
  batch_progress [] w (world_of (advance_and_save E i w)).
Proof.
  unfold advance_and_save, save_products, save_progress, now.
  unfold bind, get_self, get_disk, set_self, set_disk, random_delay, emit, ret.
  destruct ((i + 1) mod 25 =? 0); cbn;
    (apply batch_progress_refl; [reflexivity|reflexivity|repeat split; auto]).
Qed.

Lemma finish_progress (w : world) : batch_progress [] w (world_of (finish E w)).
Proof.
  unfold finish, save_products, save_progress, now.
  unfold bind, get_self, get_disk, set_self, set_disk, set_status, emit, ret. cbn.
  apply batch_progress_refl; [reflexivity|reflexivity|repeat split; auto].
Qed.

Lemma batch_iteration_progress (urls : list string) (i : Z) (w : world) :
  batch_progress (attempted (trace_of (batch_iteration E urls i w))) w
                 (world_of (batch_iteration E urls i w)).
Proof.
  destruct (item urls i) as [url|] eqn:Hitem.
  - destruct (batch_iteration_attempt E urls i url w Hitem) as (_ & _ & ->).
    destruct (total_fetch_page E url 3 (started i url w)) as [html Hf].
    destruct (batch_iteration_unfold E urls i url html w Hitem Hf) as (_ & -> & _).
    destruct (fetch_page_world url 3 (started i url w)) as (Hs & _ & Hd).
    apply (batch_progress_trans [] [url] w (world_of (fetch_page E url 3 (started i url w)))).
    { apply batch_progress_refl; rewrite ?Hs, ?Hd; try reflexivity. apply kept_refl. }
    change [url] with ([url] ++ []).
    eapply batch_progress_trans; [apply record_result_progress|apply advance_and_save_progress].
  - unfold batch_iteration, index. rewrite Hitem. cbn.
    apply batch_progress_refl; try reflexivity. apply kept_refl.
Qed.

Lemma loop_progress (urls : list string) (l : list Z) :
  forall w,
    batch_progress (attempted (trace_of (for_each l (batch_iteration E urls) w))) w
                   (world_of (for_each l (batch_iteration E urls) w)).
Proof.
  induction l as [|i rest IH]; intros w.
  - cbn. apply batch_progress_refl; try reflexivity. apply kept_refl.
  - cbn [for_each].
    pose proof (batch_iteration_progress urls i w) as H1.
    destruct (outcome_of (batch_iteration E urls i w)) as [[]|e] eqn:Ho.
    + rewrite (bind_val _ _ _ _ Ho). cbn [world_of trace_of fst snd].
      rewrite attempted_app. eapply batch_progress_trans; [exact H1|apply IH].
    + rewrite (bind_exc _ _ _ _ Ho). exact H1.
Qed.

Lemma run_batch_body_progress (batch_size : Z) (w : world) :
  loaded_urls (w_disk w) <> [] ->
  batch_progress (attempted (trace_of (run_batch_body E batch_size w)))
                 (World (w_status w) (resumed w) (w_disk w) (w_requests w) (w_ticks w))
                 (world_of (run_batch_body E batch_size w)).
Proof.
  intros Hne. rewrite (run_batch_body_nonempty E batch_size w Hne).
  destruct (resume_run (len (loaded_urls (w_disk w))) w) as (Hr1 & Hr2 & Hr3).
  assert (Hra : attempted (trace_of (resume (len (loaded_urls (w_disk w))) w)) = [])
    by (rewrite attempted_events, Hr3; reflexivity).
  assert (H0 : batch_progress []
                 (World (w_status w) (resumed w) (w_disk w) (w_requests w) (w_ticks w))
                 (world_of (resume (len (loaded_urls (w_disk w))) w))).
  { rewrite Hr2. apply batch_progress_refl; try reflexivity. apply kept_refl. }
  match goal with |- context [bind ?m ?k w] =>
    destruct (bind_cases m k w) as [(a & Ho & _ & -> & ->)|(e & Ho & _)] end;
    [|rewrite Hr1 in Ho; discriminate Ho].
  rewrite attempted_app, Hra.
  refine (batch_progress_trans [] _ _ _ _ H0 _).
  match goal with |- context [bind ?m ?k ?w1] =>
    destruct (bind_cases m k w1) as [(u & Hu & _ & -> & ->)|(e & He & _ & -> & ->)] end.
  - rewrite attempted_app.
    eapply batch_progress_trans; [apply loop_progress|].
    destruct (finish_spec E (world_of (for_each
                (range a (Z.min (a + batch_size) (len (loaded_urls (w_disk w)))))
                (batch_iteration E (loaded_urls (w_disk w)))
                (world_of (resume (len (loaded_urls (w_disk w))) w)))))
      as (_ & _ & _ & ->).
    apply finish_progress.
  - apply loop_progress.
Qed.

Lemma batch_progress_ext (att : list string) (w1 w1' w2 w2' : world) :
  w_self w1' = w_self w1 -> w_disk w1' = w_disk w1 ->
  w_self w2' = w_self w2 -> w_disk w2' = w_disk w2 ->
  batch_progress att w1 w2 -> batch_progress att w1' w2'.
Proof.
  unfold batch_progress. intros -> -> -> ->. auto.
Qed.

Lemma run_batch_progress (batch_size : Z) (w : world) :
  loaded_urls (w_disk w) <> [] ->
  batch_progress (attempted (trace_of (run_batch E batch_size w)))
                 (World (w_status w) (resumed w) (w_disk w) (w_requests w) (w_ticks w))
                 (world_of (run_batch E batch_size w)).
Proof.
  intros Hne.
  destruct (run_batch_around_body E batch_size w) as (Hd & Hs & ->).
  refine (batch_progress_ext _ _ _ _ _ _ _ Hs Hd
            (run_batch_body_progress batch_size (entered w) Hne)); reflexivity.
Qed.

(** X7. On a non-empty URL list a batch only appends: [products] ends as
    the resumed records followed by new ones, [failed_urls] as the resumed
    list followed by new entries.  Every new record has a non-empty title
    and the URL of an attempted page as [source_url], every new failure is
    an attempted URL, and there are at most as many new entries as
    attempted URLs. *)
Theorem run_batch_appends (batch_size : Z) (w : world) :
  loaded_urls (w_disk w) <> [] ->
  let r := run_batch E batch_size w in
  exists ps fs,
    products (w_self (world_of r)) = products (resumed w) ++ ps /\
    failed_urls (w_self (world_of r)) = failed_urls (resumed w) ++ fs /\
    Forall (fun p => title p <> EmptyString /\ In (source_url p) (attempted (trace_of r))) ps /\
    Forall (fun u => In u (attempted (trace_of r))) fs /\
    (length ps + length fs <= length (attempted (trace_of r)))%nat.
Proof.
  intros Hne r. subst r.
  destruct (run_batch_progress batch_size w Hne) as (_ & ps & fs & Hp & Hf & Hps & Hfs & Hlen).
  exists ps, fs. cbn [w_self] in Hp, Hf.
  split; [exact Hp|]. split; [exact Hf|]. split; [|split; assumption].
  eapply Forall_impl; [exact Hps|]. intros p (Ht & Hin & _). auto.
Qed.

(** X8. A batch keeps the catalog and the image directory consistent:
    when every image of every resumed record has its file in the image
    directory at the start, every image of every record has its file there
    at the end. *)
Theorem catalog_images_on_disk (batch_size : Z) (w : world) :
  loaded_urls (w_disk w) <> [] ->
  Forall (on_disk (w_disk w)) (products (resumed w)) ->
  Forall (on_disk (w_disk (world_of (run_batch E batch_size w))))
         (products (w_self (world_of (run_batch E batch_size w)))).
Proof.
  intros Hne Hall.
  destruct (run_batch_progress batch_size w Hne) as (Hk & ps & fs & Hp & _ & Hps & _).
  cbn [w_self w_disk] in Hp, Hk. rewrite Hp. apply Forall_app; split.
  - eapply Forall_impl; [exact Hall|]. intros p. apply on_disk_kept. exact Hk.
  - eapply Forall_impl; [exact Hps|]. intros p (_ & _ & Hd). exact Hd.
Qed.

(** X9. A batch never writes the two URL lists, so [load_urls] reads
    after it what it read before, and it removes no image file. *)
Theorem run_batch_keeps_files (batch_size : Z) (w : world) :
  let d := w_disk w in
  let d' := w_disk (world_of (run_batch E batch_size w)) in
  urls_file d' = urls_file d /\
  bundled_urls_file d' = bundled_urls_file d /\
  loaded_urls d' = loaded_urls d /\
  forall p, stored d p = true -> stored d' p = true.
Proof.
  cbv zeta.
  assert (Hk : kept (w_disk w) (w_disk (world_of (run_batch E batch_size w)))).
  { destruct (decide (loaded_urls (w_disk w) = [])) as [Hnil|Hne].
    - destruct (run_batch_no_urls E batch_size w Hnil) as (_ & -> & _). apply kept_refl.
    - destruct (run_batch_progress batch_size w Hne) as (Hk & _). exact Hk. }
  destruct Hk as (Hu & Hb & Hs). repeat split; try assumption.
  unfold loaded_urls. rewrite Hu, Hb. reflexivity.
Qed.

End ProgressFacts.

(** ** Batches one after the other *)

Section SequenceFacts.
Variable E : env.

Lemma run_batch_body_from (batch_size : Z) (w : world) :
  0 <= batch_size ->
  0 <= last_scraped_index (resumed w) <= len (loaded_urls (w_disk w)) ->
  loaded_urls (w_disk w) <> [] ->
  let k := last_scraped_index (resumed w) in
  let n := Z.min batch_size (len (loaded_urls (w_disk w)) - k) in
  outcome_of (run_batch_body E batch_size w) = Val tt /\
  last_scraped_index (w_self (world_of (run_batch_body E batch_size w))) = k + n /\
  persisted (world_of (run_batch_body E batch_size w)) /\
  attempted (trace_of (run_batch_body E batch_size w))
    = firstn (Z.to_nat n) (skipn (Z.to_nat k) (loaded_urls (w_disk w))).
Proof.
  intros HB Hk Hne. cbv zeta. rewrite (run_batch_body_nonempty E batch_size w Hne).
  set (urls := loaded_urls (w_disk w)) in *.
  set (k := last_scraped_index (resumed w)) in *.
  set (n := Z.min batch_size (len urls - k)).
  destruct (resume_run (len urls) w) as (Hr1 & Hr2 & Hr3).
  assert (Hr4 : attempted (trace_of (resume (len urls) w)) = [])
    by (rewrite attempted_events, Hr3; reflexivity).
  assert (Hr5 : last_scraped_index (w_self (world_of (resume (len urls) w))) = k)
    by (rewrite Hr2; reflexivity).
  match goal with |- context [bind ?m ?f w] =>
    destruct (bind_cases m f w) as [(a & Ho & -> & -> & ->)|(e & Ho & _)] end;
    [|rewrite Hr1 in Ho; discriminate Ho].
  rewrite Hr1 in Ho. injection Ho as <-. fold k.
  assert (Hend : Z.to_nat (Z.min (k + batch_size) (len urls) - k) = Z.to_nat n)
    by (unfold n; f_equal; lia).
  unfold range. rewrite Hend.
  pose proof (window_loop E urls k (Z.to_nat n)) as Hloop.
  specialize (Hloop ltac:(lia) ltac:(unfold n, len in *; lia)
                    (world_of (resume (len urls) w)) Hr5).
  cbv beta in Hloop. destruct Hloop as (Hl1 & Hl2 & Hl3).
  match goal with |- context [bind ?m ?f ?w1] =>
    destruct (bind_cases m f w1) as [(u & Hu & -> & -> & ->)|(e & He & _)] end;
    [|rewrite Hl1 in He; discriminate He].
  destruct (finish_spec E
              (world_of (for_each (range_from k (Z.to_nat n)) (batch_iteration E urls)
                                  (world_of (resume (len urls) w)))))
    as (Hf1 & Hf2 & Hf3 & Hf4).
  split; [exact Hf1|]. split; [rewrite Hf2, Hl2; unfold n; lia|]. split; [exact Hf3|].
  rewrite !attempted_app, Hr4, Hl3, Hf4, app_nil_r. reflexivity.
Qed.

Lemma resumed_ext (w w' : world) :
  w_self w' = w_self w -> w_disk w' = w_disk w -> resumed w' = resumed w.
Proof. intros Hs Hd. unfold resumed. rewrite Hs, Hd. reflexivity. Qed.

(** One batch from wherever the object resumes. *)
Lemma run_batch_from (batch_size : Z) (w : world) :
  0 <= batch_size ->
  0 <= last_scraped_index (resumed w) <= len (loaded_urls (w_disk w)) ->
  let urls := loaded_urls (w_disk w) in
  let k := last_scraped_index (resumed w) in
  let n := Z.min batch_size (len urls - k) in
  let w' := world_of (run_batch E batch_size w) in
  attempted (trace_of (run_batch E batch_size w))
    = firstn (Z.to_nat n) (skipn (Z.to_nat k) urls) /\
  loaded_urls (w_disk w') = urls /\
  last_scraped_index (resumed w') = k + n.
Proof.
  intros HB Hk urls k n w'. subst w'.
  destruct (decide (urls = [])) as [Hnil|Hne].
  - destruct (run_batch_no_urls E batch_size w Hnil) as (Hev & Hdisk & Hself & _).
    rewrite attempted_events, Hev.
    assert (Hn0 : n = 0)
      by (unfold n, k, len in *; fold urls in Hk; rewrite Hnil in *; simpl in *; lia).
    rewrite Hn0. split; [reflexivity|]. rewrite Hdisk. split; [reflexivity|].
    rewrite (resumed_ext _ _ Hself Hdisk). fold k. lia.
  - destruct (run_batch_around_body E batch_size w) as (Hd & Hs & Ha).
    destruct (run_batch_body_from batch_size (entered w) HB Hk Hne)
      as (_ & Hidx & Hp & Hatt).
    split; [rewrite Ha; exact Hatt|].
    destruct (run_batch_progress E batch_size w Hne) as ((Hu & Hb & _) & _).
    cbn [w_disk] in Hu, Hb. split; [unfold urls, loaded_urls; rewrite Hu, Hb; reflexivity|].
    rewrite (resumed_persisted _ _ Hp Hd). exact Hidx.
Qed.


Lemma resumed_without_checkpoint (w : world) :
  match progress_file (w_disk w) with Some (Loads _) => False | _ => True end ->
  last_scraped_index (resumed w) = last_scraped_index (w_self w).
Proof.
  unfold resumed.
  destruct (progress_file (w_disk w)) as [[|cp]|]; intros H; try contradiction;
    destruct (output_file (w_disk w)) as [[|cat]|]; reflexivity.
Qed.

Lemma firstn_firstn_skipn {A} (a b : nat) (l : list A) :
  firstn a l ++ firstn b (skipn a l) = firstn (a + b) l.
Proof.
  revert l. induction a as [|a IH]; intros l; [reflexivity|].
  destruct l as [|x l]; [cbn; now rewrite firstn_nil|].
  cbn. now rewrite IH.
Qed.

(** X10. Without a checkpoint file that loads, a batch starts from the
    position the object holds in memory ([k], which is 0 in a new
    process): it attempts the URLs at [k], ..., [k + min(B, L - k) - 1] in
    order and leaves the object at [k + min(B, L - k)]. *)
Theorem run_batch_without_checkpoint (batch_size : Z) (w : world) :
  match progress_file (w_disk w) with Some (Loads _) => False | _ => True end ->
  0 <= batch_size ->
  0 <= last_scraped_index (w_self w) <= len (loaded_urls (w_disk w)) ->
  let urls := loaded_urls (w_disk w) in
  let k := last_scraped_index (w_self w) in
  let n := Z.min batch_size (len urls - k) in
  attempted (trace_of (run_batch E batch_size w))
    = firstn (Z.to_nat n) (skipn (Z.to_nat k) urls) /\
  last_scraped_index (w_self (world_of (run_batch E batch_size w))) = k + n.
Proof.
  intros Hno HB Hk urls k n.
  pose proof (resumed_without_checkpoint w Hno) as Hr.
  assert (Hk' : 0 <= last_scraped_index (resumed w) <= len (loaded_urls (w_disk w)))
    by (rewrite Hr; exact Hk).
  destruct (run_batch_from batch_size w HB Hk') as (Hatt & _ & _).
  rewrite Hr in Hatt. split; [exact Hatt|].
  destruct (decide (loaded_urls (w_disk w) = [])) as [Hnil|Hne].
  - destruct (run_batch_no_urls E batch_size w Hnil) as (_ & _ & -> & _).
    unfold n, k, urls, len in *. rewrite Hnil in *. simpl in *. lia.
  - destruct (run_batch_around_body E batch_size w) as (_ & -> & _).
    destruct (run_batch_body_from batch_size (entered w) HB Hk' Hne) as (_ & -> & _).
    change (resumed (entered w)) with (resumed w). rewrite Hr. reflexivity.
Qed.

(** X11. Two batches in a row do the work of one batch of the summed
    size: together they attempt the URLs a single batch of size
    [size1 + size2] attempts, in the same order, and a further batch would
    resume where that one would. *)
Theorem run_batch_twice (size1 size2 : Z) (w : world) :
  0 <= size1 -> 0 <= size2 ->
  0 <= last_scraped_index (resumed w) <= len (loaded_urls (w_disk w)) ->
  let urls := loaded_urls (w_disk w) in
  let k := last_scraped_index (resumed w) in
  let n := Z.min (size1 + size2) (len urls - k) in
  let r1 := run_batch E size1 w in
  let r2 := run_batch E size2 (world_of r1) in
  attempted (trace_of r1) ++ attempted (trace_of r2)
    = firstn (Z.to_nat n) (skipn (Z.to_nat k) urls) /\
  attempted (trace_of r1) ++ attempted (trace_of r2)
    = attempted (trace_of (run_batch E (size1 + size2) w)) /\
  last_scraped_index (resumed (world_of r2)) = k + n.
Proof.
  intros H1 H2 Hk urls k n r1 r2. subst r1 r2.
  destruct (run_batch_from size1 w H1 Hk) as (Ha1 & Hu1 & Hi1).
  fold urls k in Ha1, Hu1, Hi1.
  set (w1 := world_of (run_batch E size1 w)) in *.
  set (n1 := Z.min size1 (len urls - k)) in *.
  assert (Hk1 : 0 <= last_scraped_index (resumed w1) <= len (loaded_urls (w_disk w1))).
  { rewrite Hi1, Hu1. unfold n1. fold urls k in Hk. lia. }
  destruct (run_batch_from size2 w1 H2 Hk1) as (Ha2 & Hu2 & Hi2).
  rewrite Hu1, Hi1 in Ha2, Hi2.
  destruct (run_batch_from (size1 + size2) w ltac:(lia) Hk) as (Ha & _ & _).
  fold urls k n in Ha.
  assert (Hsum : firstn (Z.to_nat n) (skipn (Z.to_nat k) urls)
                 = attempted (trace_of (run_batch E size1 w))
                     ++ attempted (trace_of (run_batch E size2 w1))).
  { rewrite Ha1, Ha2.
    set (n2 := Z.min size2 (len urls - (k + n1))).
    replace (Z.to_nat (k + n1)) with (Z.to_nat k + Z.to_nat n1)%nat
      by (unfold n1; fold urls k in Hk; lia).
    rewrite <- drop_drop. rewrite firstn_firstn_skipn. f_equal.
    unfold n, n1, n2. fold urls k in Hk. lia. }
  split; [symmetry; exact Hsum|]. split; [rewrite Ha; symmetry; exact Hsum|].
  rewrite Hi2. unfold n, n1. fold urls k in Hk. lia.
Qed.


Lemma batch_iteration_raises (urls : list string) (i : Z) (w : world) :
  item urls i = None -> batch_iteration E urls i w = (Exc IndexError, w, []).
Proof. intros H. unfold batch_iteration, index. rewrite H. reflexivity. Qed.

Lemma run_batch_body_index_error (batch_size : Z) (w : world) :
  0 < batch_size ->
  loaded_urls (w_disk w) <> [] ->
  last_scraped_index (resumed w) < - len (loaded_urls (w_disk w)) ->
  run_batch_body E batch_size w =
  (Exc IndexError, world_of (resume (len (loaded_urls (w_disk w))) w),
   trace_of (resume (len (loaded_urls (w_disk w))) w)).
Proof.
  intros HB Hne Hk. unfold run_batch_body, init_scraper, load_urls.
  rewrite (bind_val (ret tt) _ w tt) by reflexivity.
  rewrite (bind_val (bind get_disk _) _ _ (loaded_urls (w_disk w))) by reflexivity.
  cbn [outcome_of world_of trace_of fst snd ret bind get_disk].
  destruct (loaded_urls (w_disk w)) as [|u0 urls'] eqn:Hurls; [contradiction|].
  cbv beta iota. remember (u0 :: urls') as urls eqn:Hu0. clear Hu0 Hne Hurls u0 urls'.
  set (k := last_scraped_index (resumed w)) in *.
  destruct (resume_run (len urls) w) as (Hr1 & _ & _).
  rewrite (bind_val (resume (len urls)) _ w k) by exact Hr1.
  unfold range.
  destruct (Z.to_nat (Z.min (k + batch_size) (len urls) - k)) as [|m] eqn:Hm;
    [unfold len in *; lia|].
  rewrite range_from_succ.
  assert (Hitem : item urls k = None).
  { unfold item. destruct (k <? 0) eqn:Hneg; [|apply Z.ltb_ge in Hneg; unfold len in *; lia].
    destruct (len urls + k <? 0) eqn:Hlow; [reflexivity|apply Z.ltb_ge in Hlow; lia]. }
  set (w1 := world_of (resume (len urls) w)).
  assert (Hloop : for_each (k :: range_from (k + 1) m) (batch_iteration E urls) w1
                  = (Exc IndexError, w1, [])).
  { cbn [for_each]. rewrite (bind_exc _ _ w1 IndexError);
      rewrite (batch_iteration_raises urls k w1 Hitem); reflexivity. }
  rewrite (bind_exc _ _ w1 IndexError) by (rewrite Hloop; reflexivity).
  rewrite Hloop. cbn [outcome_of world_of trace_of fst snd app].
  rewrite app_nil_r. reflexivity.
Qed.

(** X12. A resumed position below [-L] on a list of [L > 0] URLs makes
    the first [urls[i]] of a batch raise: the batch records the error
    "list index out of range", attempts no URL, issues no request, writes
    nothing, and leaves [running] false. *)
Theorem run_batch_index_error (batch_size : Z) (w : world) :
  0 < batch_size ->
  loaded_urls (w_disk w) <> [] ->
  last_scraped_index (resumed w) < - len (loaded_urls (w_disk w)) ->
  let r := run_batch E batch_size w in
  error (w_status (world_of r)) = Some "list index out of range" /\
  running (w_status (world_of r)) = false /\
  attempted (trace_of r) = [] /\
  w_requests (world_of r) = w_requests w /\
  w_disk (world_of r) = w_disk w /\
  w_self (world_of r) = resumed w.
Proof.
  intros HB Hne Hk. cbv zeta. unfold run_batch.
  rewrite (bind_val (set_status _) _ w tt) by reflexivity.
  cbn [outcome_of world_of trace_of fst snd set_status].
  rewrite (bind_val (set_status _) _ _ tt) by reflexivity.
  cbn [outcome_of world_of trace_of fst snd set_status w_status w_self w_disk w_requests w_ticks].
  fold (entered w). unfold try_finally, try_except.
  rewrite (run_batch_body_index_error batch_size (entered w) HB Hne Hk).
  destruct (resume_run (len (loaded_urls (w_disk (entered w)))) (entered w)) as (_ & Hw & Hev).
  assert (Ha : attempted (trace_of (resume (len (loaded_urls (w_disk (entered w)))) (entered w)))
               = []) by (rewrite attempted_events, Hev; reflexivity).
  change (w_disk (entered w)) with (w_disk w) in *.
  unfold world_of, trace_of in *. rewrite Hw. cbn -[attempted resume].
  rewrite !attempted_cons, !attempted_app, Ha. repeat split.
Qed.

End SequenceFacts.

(** ** The counters of the dashboard *)

Section CounterFacts.
Variable E : env.

Lemma record_result_status (url : string) (html : option string) (w : world) :
  let w' := world_of (record_result E url html w) in
  total_urls (w_status w') = total_urls (w_status w) /\
  current_index (w_status w') = current_index (w_status w) /\
  last_scraped_index (w_self w') = last_scraped_index (w_self w) /\
  (products_scraped (w_status w) = len (products (w_self w)) ->
   products_scraped (w_status w') = len (products (w_self w'))).
Proof.
  cbv zeta.
  destruct (match html with Some h => truthy h | None => false end) eqn:Hh.
  - destruct html as [h|]; [|discriminate].
    destruct (total_extract_product E h url w) as [p Hp].
    destruct (io_only_extract_product E h url w) as [(Hself & Hst & _) _].
    destruct (truthy (title p)) eqn:Ht.
    + rewrite (record_result_run E url h p w Hh Hp Ht).
      unfold world_of in *. cbn [fst snd] in *.
      cbn [w_status w_self products last_scraped_index apply_write total_urls
           current_index products_scraped].
      rewrite Hst, Hself. auto.
    + rewrite (record_result_untitled E url h p w Hh Hp Ht).
      unfold world_of in *. cbn [fst snd] in *. rewrite Hst, Hself. auto.
  - rewrite (record_result_failed E url html w Hh). cbn. auto.
Qed.

Lemma advance_and_save_status (i : Z) (w : world) :
  w_status (world_of (advance_and_save E i w)) = w_status w.
Proof.
  unfold advance_and_save, save_products, save_progress, now.
  unfold bind, get_self, get_disk, set_self, set_disk, random_delay, emit, ret.
  destruct ((i + 1) mod 25 =? 0); reflexivity.
Qed.

Lemma batch_iteration_published (urls : list string) (i total : Z) (w : world) :
  published total w -> published total (world_of (batch_iteration E urls i w)).
Proof.
  intros (Ht & Hp & Hi).
  destruct (item urls i) as [url|] eqn:Hitem.
  - destruct (total_fetch_page E url 3 (started i url w)) as [html Hf].
    destruct (batch_iteration_unfold E urls i url html w Hitem Hf) as (_ & -> & _).
    destruct (fetch_page_world E url 3 (started i url w)) as (Hfs & Hft & _).
    destruct (record_result_status url html (world_of (fetch_page E url 3 (started i url w))))
      as (Rt & Ri & _ & Rp).
    destruct (advance_and_save_self E i
                (world_of (record_result E url html
                             (world_of (fetch_page E url 3 (started i url w))))))
      as (_ & As).
    unfold published. rewrite advance_and_save_status, As. cbn [products last_scraped_index].
    rewrite Rt, Ri, Hft. cbn. split; [exact Ht|]. split; [|reflexivity].
    apply Rp. rewrite Hft, Hfs. exact Hp.
  - unfold batch_iteration, index. rewrite Hitem. cbn. repeat split; assumption.
Qed.

Lemma loop_published (urls : list string) (total : Z) (l : list Z) :
  forall w, published total w ->
            published total (world_of (for_each l (batch_iteration E urls) w)).
Proof.
  induction l as [|i rest IH]; intros w Hw; [exact Hw|].
  cbn [for_each].
  pose proof (batch_iteration_published urls i total w Hw) as H1.
  destruct (outcome_of (batch_iteration E urls i w)) as [[]|e] eqn:Ho.
  - rewrite (bind_val _ _ _ _ Ho). cbn [world_of fst snd]. apply IH. exact H1.
  - rewrite (bind_exc _ _ _ _ Ho). exact H1.
Qed.

Lemma finish_published (total : Z) (w : world) :
  published total w -> published total (world_of (finish E w)).
Proof.
  intros H. unfold finish, save_products, save_progress, now.
  unfold bind, get_self, get_disk, set_self, set_disk, set_status, emit, ret. cbn.
  exact H.
Qed.

Lemma run_batch_body_published (batch_size : Z) (w : world) :
  loaded_urls (w_disk w) <> [] ->
  published (len (loaded_urls (w_disk w))) (world_of (run_batch_body E batch_size w)).
Proof.
  intros Hne. rewrite (run_batch_body_nonempty E batch_size w Hne).
  destruct (resume_run (len (loaded_urls (w_disk w))) w) as (Hr1 & Hr2 & _).
  assert (H0 : published (len (loaded_urls (w_disk w)))
                         (world_of (resume (len (loaded_urls (w_disk w))) w)))
    by (rewrite Hr2; repeat split).
  match goal with |- context [bind ?m ?k w] =>
    destruct (bind_cases m k w) as [(a & Ho & _ & -> & _)|(e & Ho & _)] end;
    [|rewrite Hr1 in Ho; discriminate Ho].
  match goal with |- context [bind ?m ?k ?w1] =>
    destruct (bind_cases m k w1) as [(u & Hu & _ & -> & _)|(e & He & _ & -> & _)] end.
  - apply finish_published. apply loop_published. exact H0.
  - apply loop_published. exact H0.
Qed.

Lemma run_batch_counters (batch_size : Z) (w : world) :
  let st := w_status (world_of (run_batch E batch_size w)) in
  let st0 := w_status (world_of (run_batch_body E batch_size (entered w))) in
  total_urls st = total_urls st0 /\
  products_scraped st = products_scraped st0 /\
  current_index st = current_index st0 /\
  failed_count st = failed_count st0 /\
  last_run st = last_run st0.
Proof.
  cbv zeta. unfold run_batch.
  rewrite (bind_val (set_status _) _ w tt) by reflexivity.
  cbn [outcome_of world_of trace_of fst snd set_status].
  rewrite (bind_val (set_status _) _ _ tt) by reflexivity.
  cbn [outcome_of world_of trace_of fst snd set_status w_status w_self w_disk w_requests w_ticks].
  fold (entered w). unfold try_finally, try_except.
  destruct (run_batch_body E batch_size (entered w)) as [[[[]|e] w1] t1]; cbn; repeat split.
Qed.

(** X13. After a batch on a non-empty URL list the dashboard counters
    agree with the object, whether or not the batch ended with an error:
    [total_urls] is the length of the list, [products_scraped] the number
    of records, [current_index] the position. *)
Theorem run_batch_publishes (batch_size : Z) (w : world) :
  loaded_urls (w_disk w) <> [] ->
  published (len (loaded_urls (w_disk w))) (world_of (run_batch E batch_size w)).
Proof.
  intros Hne.
  destruct (run_batch_counters batch_size w) as (Ht & Hp & Hi & _).
  destruct (run_batch_around_body E batch_size w) as (_ & Hs & _).
  destruct (run_batch_body_published batch_size (entered w) Hne) as (Bt & Bp & Bi).
  unfold published. rewrite Ht, Hp, Hi, Hs. auto.
Qed.

End CounterFacts.

(** ** What the crawl collects *)

Section CollectFacts.
Variable E : env.

Lemma first_field_no_sep (sep : ascii) (s : string) :
  all_chars (fun c => negb (Ascii.eqb c sep)) (first_field sep s) = true.
Proof.
  unfold first_field. induction s as [|c t IH]; [reflexivity|].
  cbn [split_on]. destruct (Ascii.eqb c sep) eqn:Hc; [reflexivity|].
  destruct (split_on sep t) as [|h r]; cbn in *; rewrite Hc; [reflexivity|exact IH].
Qed.

Lemma rstrip_by_all_chars (p q : ascii -> bool) (s : string) :
  all_chars q s = true -> all_chars q (rstrip_by p s) = true.
Proof.
  induction s as [|c t IH]; [reflexivity|]. cbn [all_chars rstrip_by].
  intros H. apply andb_true_iff in H as [Hc Ht]. specialize (IH Ht).
  destruct (rstrip_by p t) as [|c' t'].
  - destruct (p c); cbn; [reflexivity|rewrite Hc; reflexivity].
  - cbn [all_chars]. rewrite Hc. exact IH.
Qed.

Lemma normalised_no_query (joined : string) :
  no_query (rstrip_by (Ascii.eqb "/") (first_field "?" joined)) = true.
Proof. apply rstrip_by_all_chars. apply (first_field_no_sep "?"). Qed.

Lemma classified_new : classified new_crawler.
Proof.
  split; [|split]; cbn; intros u Hu; exfalso; revert Hu; apply not_elem_of_empty.
Qed.

Lemma classified_classify (full : string) (c : crawler) :
  no_query full = true -> classified c -> classified (classify full c).
Proof.
  intros Hq (Hp & Hc & Hv). unfold classify.
  destruct (is_product_url full) eqn:Hprod.
  - split; [|split; assumption]. cbn. intros u Hu.
    apply elem_of_union in Hu as [Hu|Hu]; [|auto].
    apply elem_of_singleton in Hu. subst u. auto.
  - destruct (is_category_url full && negb (bool_decide (full ∈ visited c))) eqn:Hb;
      [|exact (conj Hp (conj Hc Hv))].
    apply andb_true_iff in Hb as [Hcat Hvis].
    apply negb_true_iff, bool_decide_eq_false in Hvis.
    split; [exact Hp|]. split; [|exact Hv]. cbn. intros u Hu.
    apply elem_of_union in Hu as [Hu|Hu]; [|auto].
    apply elem_of_singleton in Hu. subst u. auto.
Qed.

Lemma classified_scrape_links (l : list node) :
  forall c, classified c -> classified (scrape_links E l c).
Proof.
  induction l as [|a rest IH]; intros c Hc; [exact Hc|]. cbn [scrape_links].
  destruct (urljoin E base_url (attr_or_empty a "href")) as [joined|e]; [|exact Hc].
  apply IH. apply classified_classify; [apply normalised_no_query|exact Hc].
Qed.

Lemma classified_scrape_page (r : http_result) (c : crawler) :
  classified c -> classified (scrape_page E r c).
Proof.
  intros Hc. unfold scrape_page. destruct r as [code text|e]; [|exact Hc].
  destruct (negb (code =? 200)); [exact Hc|].
  destruct (lxml E text) as [soup|e]; [|exact Hc].
  apply classified_scrape_links. exact Hc.
Qed.

Lemma classified_pop (url : string) (c : crawler) : classified c -> classified (pop url c).
Proof.
  intros (Hp & Hc & Hv). split; [exact Hp|]. split; [|exact Hv]. cbn. intros u Hu.
  apply elem_of_difference in Hu as [Hu _]. auto.
Qed.

Lemma classified_visit (url : string) (c : crawler) :
  url ∈ category_links c -> classified c -> classified (visit url (pop url c)).
Proof.
  intros Hin (Hp & Hc & Hv). split; [exact Hp|]. split; cbn.
  - intros u Hu. apply elem_of_difference in Hu as [Hu Hne].
    destruct (Hc u Hu) as [Hcat Hnv]. split; [exact Hcat|].
    intros Hvis. apply elem_of_union in Hvis as [Hvis|Hvis]; [contradiction|contradiction].
  - intros u Hu. apply elem_of_union in Hu as [Hu|Hu]; [|auto].
    apply elem_of_singleton in Hu. subst u. apply Hc. exact Hin.
Qed.

Lemma crawl_reach_classified (max_pages : nat) (c : crawler) (n : nat) :
  crawl_reach E max_pages c n -> classified c.
Proof.
  induction 1 as [r|c n r _ IH|c n url _ IH _ _ _|c n url r _ IH _ Hin _].
  - apply classified_scrape_page. apply classified_new.
  - apply classified_scrape_page. exact IH.
  - apply classified_pop. exact IH.
  - apply classified_scrape_page. apply classified_visit; assumption.
Qed.

Lemma product_url_on_host (u : string) :
  is_product_url u = true -> startswith u base_url = true.
Proof.
  unfold is_product_url. destruct (startswith u base_url); [reflexivity|discriminate].
Qed.

Lemma category_url_on_host (u : string) :
  is_category_url u = true -> startswith u base_url = true.
Proof.
  unfold is_category_url. destruct (startswith u base_url); [reflexivity|discriminate].
Qed.

(** X14. In every state of a crawl no pending category link has been
    visited: the test [url in self.visited] in [run] never succeeds, and
    no category page is fetched twice. *)
Theorem crawl_never_revisits (max_pages : nat) (c : crawler) (n : nat) :
  crawl_reach E max_pages c n ->
  forall u, u ∈ category_links c -> u ∉ visited c.
Proof.
  intros H u Hu. destruct (crawl_reach_classified _ _ _ H) as (_ & Hc & _).
  apply (Hc u Hu).
Qed.

(** X15. In every state of a crawl every product link satisfies
    [is_product_url], has no query part and starts with the base URL;
    every pending or visited category link satisfies [is_category_url] and
    starts with the base URL. *)
Theorem crawl_stays_on_host (max_pages : nat) (c : crawler) (n : nat) :
  crawl_reach E max_pages c n ->
  (forall u, u ∈ product_links c ->
     is_product_url u = true /\ no_query u = true /\ startswith u base_url = true) /\
  (forall u, u ∈ category_links c ∪ visited c ->
     is_category_url u = true /\ startswith u base_url = true).
Proof.
  intros H. destruct (crawl_reach_classified _ _ _ H) as (Hp & Hc & Hv). split.
  - intros u Hu. destruct (Hp u Hu) as [H1 H2].
    split; [exact H1|]. split; [exact H2|apply product_url_on_host; exact H1].
  - intros u Hu.
    assert (Hcat : is_category_url u = true).
    { apply elem_of_union in Hu as [Hu|Hu]; [apply (Hc u Hu)|apply (Hv u Hu)]. }
    split; [exact Hcat|apply category_url_on_host; exact Hcat].
Qed.

Lemma classify_grows (full : string) (c : crawler) :
  product_links c ⊆ product_links (classify full c) /\
  category_links c ⊆ category_links (classify full c) /\
  visited (classify full c) = visited c.
Proof.
  unfold classify. destruct (is_product_url full); cbn.
  - split; [apply union_subseteq_r|]. split; reflexivity.
  - destruct (is_category_url full && negb (bool_decide (full ∈ visited c))); cbn.
    + split; [reflexivity|]. split; [apply union_subseteq_r|reflexivity].
    + split; [reflexivity|]. split; reflexivity.
Qed.

Lemma scrape_links_grows (l : list node) :
  forall c,
    product_links c ⊆ product_links (scrape_links E l c) /\
    category_links c ⊆ category_links (scrape_links E l c) /\
    visited (scrape_links E l c) = visited c.
Proof.
  induction l as [|a rest IH]; intros c; [split; [reflexivity|split; reflexivity]|].
  cbn [scrape_links].
  destruct (urljoin E base_url (attr_or_empty a "href")) as [joined|e];
    [|split; [reflexivity|split; reflexivity]].
  set (full := rstrip_by _ _).
  destruct (classify_grows full c) as (P1 & C1 & V1).
  destruct (IH (classify full c)) as (P2 & C2 & V2).
  split; [etrans; eassumption|]. split; [etrans; eassumption|congruence].
Qed.

(** X16. [scrape_page] only adds to [product_links] and
    [category_links] and leaves [visited] alone, whatever the network and
    the parser give: also when the request fails, the status is not 200,
    the page does not parse or [urljoin] raises on some link. *)
Theorem scrape_page_only_adds (r : http_result) (c : crawler) :
  product_links c ⊆ product_links (scrape_page E r c) /\
  category_links c ⊆ category_links (scrape_page E r c) /\
  visited (scrape_page E r c) = visited c.
Proof.
  unfold scrape_page.
  destruct r as [code text|e]; [|split; [reflexivity|split; reflexivity]].
  destruct (negb (code =? 200)); [split; [reflexivity|split; reflexivity]|].
  destruct (lxml E text) as [soup|e]; [|split; [reflexivity|split; reflexivity]].
  apply scrape_links_grows.
Qed.

End CollectFacts.

(** ** Groups of a match *)

Section GroupFacts.

Lemma length_append (a b : string) :
  String.length (a +:+ b) = (String.length a + String.length b)%nat.
Proof. induction a as [|c a IH]; cbn; [reflexivity|now rewrite IH]. Qed.

Lemma drop_append (a b : string) : drop (String.length a) (a +:+ b) = b.
Proof. induction a as [|c a IH]; cbn; [now destruct b|exact IH]. Qed.

Lemma take_append (a b : string) : take (String.length a) (a +:+ b) = a.
Proof. induction a as [|c a IH]; cbn; [now destruct b|now rewrite IH]. Qed.

Lemma length_take_run (p : ascii -> bool) (hi : option nat) (s : string) (j : nat) :
  (j <= run_length p hi s)%nat -> String.length (take j s) = j.
Proof.
  revert hi j; induction s as [|c t IH]; intros hi j Hj.
  - simpl in Hj. now replace j with O by lia.
  - destruct j as [|j]; [reflexivity|]. simpl in *.
    destruct hi as [[|h]|]; try lia; destruct (p c) eqn:Hc; try lia; simpl;
      f_equal; [apply (IH (Some h) j) | apply (IH None j)]; lia.
Qed.

Lemma run_length_capped (p : ascii -> bool) (h : nat) (s : string) :
  (run_length p (Some h) s <= h)%nat.
Proof.
  revert h; induction s as [|c t IH]; intros h; simpl; [lia|].
  destruct h as [|h]; [lia|]. destruct (p c); [|lia]. specialize (IH h). lia.
Qed.

(** A repetition consumes between [lo] and [hi] characters of its class
    and records no group. *)
Lemma rmatch_rep (p : ascii -> bool) (lo : nat) (hi : option nat) (st st' : mstate) :
  In st' (rmatch (RRep p lo hi) st) ->
  exists w,
    m_rest st = w +:+ m_rest st' /\
    m_pos st' = (m_pos st + String.length w)%nat /\
    m_groups st' = m_groups st /\
    all_chars p w = true /\
    (lo <= String.length w)%nat /\
    (forall h, hi = Some h -> String.length w <= h)%nat.
Proof.
  simpl. intros Hin. apply in_map_iff in Hin as (j & <- & Hj).
  apply in_rev, in_seq in Hj.
  assert (Hjr : (j <= run_length p hi (m_rest st))%nat) by lia.
  exists (take j (m_rest st)). cbn [advance m_rest m_pos m_groups].
  rewrite (length_take_run p hi _ _ Hjr).
  split; [now rewrite take_drop|]. split; [reflexivity|]. split; [reflexivity|].
  split; [apply (run_length_take p hi); exact Hjr|]. split; [lia|].
  intros h ->. pose proof (run_length_capped p h (m_rest st)). lia.
Qed.

(** What a match consumes, with the offsets. *)
Lemma rmatch_span (r : regex) :
  forall st st', In st' (rmatch r st) ->
    exists w, m_rest st = w +:+ m_rest st' /\
              m_pos st' = (m_pos st + String.length w)%nat /\
              all_chars (accepts r) w = true.
Proof.
  induction r as [|p|r1 IH1 r2 IH2|r1 IH1 r2 IH2|p lo hi|i r IH| |];
    intros st st' Hin.
  - simpl in Hin. destruct Hin as [<-|[]]. exists EmptyString. cbn. auto with arith.
  - simpl in Hin. destruct (m_rest st) as [|c t] eqn:Hrest; [destruct Hin|].
    destruct (p c) eqn:Hc; [|destruct Hin].
    destruct Hin as [<-|[]]. exists (String c EmptyString).
    simpl. rewrite Hrest. simpl. rewrite Hc. auto.
  - apply rmatch_seq in Hin as (st1 & H1 & H2).
    destruct (IH1 _ _ H1) as (w1 & E1 & P1 & A1).
    destruct (IH2 _ _ H2) as (w2 & E2 & P2 & A2).
    exists (w1 +:+ w2). split; [now rewrite E1, E2, append_assoc|]. split.
    + rewrite P2, P1, length_append. lia.
    + rewrite all_chars_app. apply andb_true_intro; split.
      * eapply all_chars_weaken; [|exact A1]. simpl. intros c ->. reflexivity.
      * eapply all_chars_weaken; [|exact A2]. simpl. intros c ->. apply orb_true_r.
  - simpl in Hin. apply in_app_or in Hin as [Hin|Hin].
    + destruct (IH1 _ _ Hin) as (w & E1 & P1 & A1). exists w. split; [exact E1|].
      split; [exact P1|].
      eapply all_chars_weaken; [|exact A1]. simpl. intros c ->. reflexivity.
    + destruct (IH2 _ _ Hin) as (w & E2 & P2 & A2). exists w. split; [exact E2|].
      split; [exact P2|].
      eapply all_chars_weaken; [|exact A2]. simpl. intros c ->. apply orb_true_r.
  - destruct (rmatch_rep _ _ _ _ _ Hin) as (w & E1 & P1 & _ & A1 & _).
    exists w. auto.
  - simpl in Hin. apply in_map_iff in Hin as (st1 & <- & H1). simpl.
    exact (IH _ _ H1).
  - simpl in Hin. destruct (m_pos st =? 0)%nat; [|destruct Hin].
    destruct Hin as [<-|[]]. exists EmptyString. cbn. auto with arith.
  - simpl in Hin. destruct (at_eol (m_rest st)); [|destruct Hin].
    destruct Hin as [<-|[]]. exists EmptyString. cbn. auto with arith.
Qed.

(** A group records the span of what its pattern consumed. *)
Lemma rmatch_group (i : nat) (r : regex) (st st' : mstate) :
  In st' (rmatch (RGroup i r) st) ->
  exists sx,
    In sx (rmatch r st) /\
    m_pos st' = m_pos sx /\ m_rest st' = m_rest sx /\
    m_groups st' = (i, (m_pos st, m_pos sx)) :: m_groups sx.
Proof.
  simpl. intros Hin. apply in_map_iff in Hin as (sx & <- & Hx).
  exists sx. auto.
Qed.

(** The head of the matches at the leftmost position where there are any. *)
Lemma search_from_head (r : regex) (rest : string) :
  forall pos m, search_from r pos rest = Some m ->
    exists pre suf st,
      rest = pre +:+ suf /\
      In st (rmatch r (MState (pos + String.length pre) suf [])) /\
      mo_groups m = m_groups st.
Proof.
  induction rest as [|c t IH]; intros pos m H; simpl in H.
  - destruct (rmatch r (MState pos EmptyString [])) as [|st l] eqn:Hm; [discriminate|].
    injection H as <-. exists EmptyString, EmptyString, st. simpl.
    rewrite Nat.add_0_r, Hm. split; [reflexivity|]. split; [now left|reflexivity].
  - destruct (rmatch r (MState pos (String c t) [])) as [|st l] eqn:Hm.
    + destruct (IH _ _ H) as (pre & suf & st & -> & Hin & Hg).
      exists (String c pre), suf, st. split; [reflexivity|].
      simpl. rewrite Nat.add_succ_r. auto.
    + injection H as <-. exists EmptyString, (String c t), st. simpl.
      rewrite Nat.add_0_r, Hm. split; [reflexivity|]. split; [now left|reflexivity].
Qed.

Lemma search_from_complete (r : regex) (pre suf : string) :
  forall pos,
    rmatch r (MState (pos + String.length pre) suf []) <> [] ->
    search_from r pos (pre +:+ suf) <> None.
Proof.
  induction pre as [|c pre IH]; intros pos Hne.
  - simpl in *. rewrite Nat.add_0_r in Hne.
    destruct suf; simpl; destruct (rmatch r _); try contradiction; discriminate.
  - simpl. destruct (rmatch r (MState pos (String c (pre +:+ suf)) [])); [|discriminate].
    apply IH. simpl in Hne. now rewrite Nat.add_succ_r in Hne.
Qed.

(** [m.group(i)] when the span of group [i] is known. *)
Lemma group_text (pre w rest : string) (m : rmatch_obj) (i : nat)
      (gs : list (nat * (nat * nat))) :
  mo_groups m = (i, (String.length pre, String.length pre + String.length w)%nat) :: gs ->
  group (pre +:+ w +:+ rest) m i = w.
Proof.
  intros Hg. unfold group. rewrite Hg. cbn [group_span]. rewrite Nat.eqb_refl.
  rewrite drop_append.
  replace (String.length pre + String.length w - String.length pre)%nat
    with (String.length w) by lia.
  apply take_append.
Qed.

End GroupFacts.

(** ** The SKU read off a URL *)

Section SkuFacts.

Lemma map_chars_append (f : ascii -> ascii) (a b : string) :
  map_chars f (a +:+ b) = map_chars f a +:+ map_chars f b.
Proof. induction a as [|c a IH]; cbn; [reflexivity|now rewrite IH]. Qed.

Lemma length_map_chars (f : ascii -> ascii) (s : string) :
  String.length (map_chars f s) = String.length s.
Proof. induction s as [|c s IH]; cbn; [reflexivity|now rewrite IH]. Qed.

Lemma all_chars_map (p q : ascii -> bool) (f : ascii -> ascii) (s : string) :
  (forall c, p c = true -> q (f c) = true) ->
  all_chars p s = true -> all_chars q (map_chars f s) = true.
Proof.
  intros Hf. induction s as [|c s IH]; cbn; [reflexivity|].
  intros H. apply andb_true_iff in H as [Hc Hs]. rewrite (Hf c Hc). cbn. auto.
Qed.

Lemma upper_char_alpha (c : ascii) : is_alpha c = true -> is_upper (upper_char c) = true.
Proof.
  destruct c as [b0 b1 b2 b3 b4 b5 b6 b7].
  destruct b0, b1, b2, b3, b4, b5, b6, b7; vm_compute; intros H;
    first [reflexivity|discriminate H].
Qed.

Lemma upper_char_digit (c : ascii) : is_digit c = true -> is_digit (upper_char c) = true.
Proof.
  destruct c as [b0 b1 b2 b3 b4 b5 b6 b7].
  destruct b0, b1, b2, b3, b4, b5, b6, b7; vm_compute; intros H;
    first [reflexivity|discriminate H].
Qed.

Lemma rmatch_lit_char_state (c : ascii) (st st' : mstate) :
  In st' (rmatch (lit_char c) st) ->
  exists t, m_rest st = String c t /\ st' = MState (m_pos st + 1) t (m_groups st).
Proof.
  unfold lit_char; simpl. destruct (m_rest st) as [|d t] eqn:Hrest; [intros []|].
  destruct (Ascii.eqb_spec c d) as [<-|]; [|intros []].
  intros [<-|[]]. exists t. split; [reflexivity|].
  unfold advance. rewrite Hrest. reflexivity.
Qed.

Lemma rmatch_eol_state (st st' : mstate) :
  In st' (rmatch REol st) -> st' = st /\ at_eol (m_rest st) = true.
Proof.
  simpl. destruct (at_eol (m_rest st)); [|intros []]. intros [<-|[]]. auto.
Qed.

(** A match of the URL pattern of [extract_product]: a slash, one to four
    letters and two to six digits, recorded as group 1. *)
Lemma sku_url_re_match (st st' : mstate) :
  In st' (rmatch sku_url_re st) ->
  exists letters digits rest,
    m_rest st = String "/" (letters +:+ digits +:+ rest) /\
    at_eol rest = true /\
    all_chars is_alpha letters = true /\ all_chars is_digit digits = true /\
    (1 <= String.length letters <= 4)%nat /\ (2 <= String.length digits <= 6)%nat /\
    m_groups st' =
      (1%nat, (m_pos st + 1, m_pos st + 1 + String.length (letters +:+ digits))%nat)
        :: m_groups st.
Proof.
  unfold sku_url_re. intros H.
  apply rmatch_seq in H as (st1 & H1 & H).
  apply rmatch_seq in H as (st2 & H2 & H3).
  apply rmatch_lit_char_state in H1 as (t & Ht & ->).
  apply rmatch_eol_state in H3 as (-> & Heol).
  apply rmatch_group in H2 as (sx & Hx & Hpos & Hrest & Hg).
  apply rmatch_seq in Hx as (sm & Ha & Hd).
  apply rmatch_rep in Ha as (wl & El & Pl & Gl & Al & Lo1 & Hi1).
  apply rmatch_rep in Hd as (wd & Ed & Pd & Gd & Ad & Lo2 & Hi2).
  cbn [m_rest m_pos m_groups] in *.
  exists wl, wd, (m_rest sx).
  split; [rewrite Ht, El, Ed; reflexivity|].
  split; [rewrite <- Hrest; exact Heol|].
  split; [exact Al|]. split; [exact Ad|].
  split; [split; [exact Lo1|apply Hi1; reflexivity]|].
  split; [split; [exact Lo2|apply Hi2; reflexivity]|].
  rewrite Hg, Gd, Gl, Pd, Pl, length_append. f_equal. f_equal. f_equal. lia.
Qed.

Lemma sku_of_url_found (url : string) (m : rmatch_obj) :
  search sku_url_re url = Some m -> sku_shaped (upper (group url m 1)).
Proof.
  unfold search. intros H.
  apply search_from_head in H as (pre & suf & st & -> & Hin & Hg).
  apply sku_url_re_match in Hin
    as (letters & digits & rest & Hsuf & _ & Al & Ad & Ll & Ld & Hgs).
  cbn [m_rest m_pos m_groups] in *. subst suf.
  assert (Hgroup : group (pre +:+ String "/" (letters +:+ digits +:+ rest)) m 1
                   = letters +:+ digits).
  { change (pre +:+ String "/" (letters +:+ digits +:+ rest))
      with (pre +:+ ("/" +:+ (letters +:+ digits +:+ rest))).
    rewrite <- append_assoc, <- (append_assoc letters digits rest).
    eapply group_text. rewrite Hg, Hgs, !length_append. cbn [String.length].
    rewrite Nat.add_0_l. reflexivity. }
  rewrite Hgroup. unfold upper. rewrite map_chars_append.
  exists (map_chars upper_char letters), (map_chars upper_char digits).
  rewrite !length_map_chars. split; [reflexivity|].
  split; [eapply all_chars_map; [apply upper_char_alpha|exact Al]|].
  split; [eapply all_chars_map; [apply upper_char_digit|exact Ad]|].
  split; assumption.
Qed.



Lemma rmatch_group_intro (i : nat) (r : regex) (st sx : mstate) :
  In sx (rmatch r st) ->
  In (MState (m_pos sx) (m_rest sx) ((i, (m_pos st, m_pos sx)) :: m_groups sx))
     (rmatch (RGroup i r) st).
Proof.
  intros H. cbn [rmatch]. apply in_map_iff. exists sx. auto.
Qed.

Lemma rmatch_eol_intro (st : mstate) :
  at_eol (m_rest st) = true -> In st (rmatch REol st).
Proof. intros H. cbn [rmatch]. rewrite H. now left. Qed.

(** Where the crawler's product pattern matches, so does the extractor's
    URL pattern: they differ in the group only. *)
Lemma product_re_sku_url_re (st : mstate) :
  rmatch product_re st <> [] -> rmatch sku_url_re st <> [].
Proof.
  intros Hne. apply nonempty_in in Hne as (st' & H).
  unfold product_re, URLScraper.sku_re in H.
  apply rmatch_seq in H as (st1 & H1 & H).
  apply rmatch_seq in H as (st2 & H2 & H).
  apply rmatch_seq in H as (st3 & H3 & H4).
  apply rmatch_eol_state in H4 as (-> & Heol).
  set (g := MState (m_pos st3) (m_rest st3) ((1%nat, (m_pos st1, m_pos st3)) :: m_groups st3)).
  apply (in_nonempty g). unfold sku_url_re.
  apply rmatch_seq. exists st1. split; [exact H1|].
  apply rmatch_seq. exists g. split.
  - apply rmatch_group_intro. apply rmatch_seq. exists st2. auto.
  - apply rmatch_eol_intro. exact Heol.
Qed.

Lemma first_field_whole (u : string) : no_query u = true -> first_field "?" u = u.
Proof.
  intros H. unfold first_field. rewrite (split_on_whole "?" u); [reflexivity|exact H].
Qed.

Lemma product_url_sku (u : string) :
  is_product_url u = true -> no_query u = true -> sku_shaped (sku_of_url u).
Proof.
  intros Hp Hq. unfold is_product_url in Hp. rewrite (first_field_whole u Hq) in Hp.
  destruct (negb (startswith u base_url)); [discriminate|].
  destruct (existsb _ product_skip); [discriminate|].
  apply matches_true in Hp.
  destruct (search product_re u) as [m|] eqn:Hs; [|contradiction].
  apply search_from_found in Hs as (pre & suf & -> & Hne).
  apply product_re_sku_url_re in Hne.
  apply (search_from_complete sku_url_re pre suf 0) in Hne.
  unfold sku_of_url, search.
  destruct (search_from sku_url_re 0 (pre +:+ suf)) as [m'|] eqn:Hs'; [|contradiction].
  apply sku_of_url_found. exact Hs'.
Qed.


End SkuFacts.

(** ** The price read off a page *)

Section PriceFacts.
Variable E : env.

Lemma rmatch_lit (s : string) :
  forall st st', In st' (rmatch (lit s) st) ->
    m_rest st = s +:+ m_rest st' /\
    m_pos st' = (m_pos st + String.length s)%nat /\
    m_groups st' = m_groups st.
Proof.
  induction s as [|c s IH]; intros st st' H.
  - simpl in H. destruct H as [<-|[]]. cbn. auto with arith.
  - cbn [lit] in H. apply rmatch_seq in H as (st1 & H1 & H2).
    apply rmatch_lit_char_state in H1 as (t & Ht & ->).
    destruct (IH _ _ H2) as (Hr & Hp & Hg). cbn [m_rest m_pos m_groups] in *.
    rewrite Ht, Hr, Hp, Hg. cbn. split; [reflexivity|]. split; [lia|reflexivity].
Qed.

Lemma remove_char_all (q : ascii -> bool) (c : ascii) (s : string) :
  all_chars (fun a => q a || Ascii.eqb a c) s = true ->
  all_chars q (remove_char c s) = true.
Proof.
  induction s as [|a s IH]; cbn; [reflexivity|]. intros H.
  apply andb_true_iff in H as [Ha Hs]. destruct (Ascii.eqb a c) eqn:Hac; [auto|].
  rewrite orb_false_r in Ha. cbn. rewrite Ha. auto.
Qed.

(** Group 1 of a price match holds digits, commas and points only. *)
Lemma price_found (text : string) (m : rmatch_obj) :
  search price_re text = Some m ->
  all_chars (fun a => decimal_char a || Ascii.eqb a ",") (group text m 1) = true.
Proof.
  unfold search. intros H.
  apply search_from_head in H as (pre & suf & st & -> & Hin & Hg).
  unfold price_re in Hin. apply rmatch_seq in Hin as (st1 & H1 & H2).
  apply rmatch_lit in H1 as (Hr1 & Hp1 & Hg1).
  apply rmatch_group in H2 as (sx & Hx & _ & _ & Hgs).
  destruct (rmatch_span _ _ _ Hx) as (w & Ew & Pw & Aw).
  cbn [m_rest m_pos m_groups] in *.
  assert (Hgroup : group (pre +:+ suf) m 1 = w).
  { rewrite Hr1, Ew, <- append_assoc. eapply group_text.
    rewrite Hg, Hgs, Pw, Hp1, length_append, Nat.add_0_l. reflexivity. }
  rewrite Hgroup. eapply all_chars_weaken; [|exact Aw].
  intros c. unfold decimal_char. cbn [accepts]. rewrite (Ascii.eqb_sym c ".").
  destruct (is_digit c), (Ascii.eqb c ","), (Ascii.eqb "." c);
    cbn; first [reflexivity|discriminate].
Qed.

Lemma probe_price_decimal (sels : list selector) (soup : node) (p : string) :
  probe_price sels soup = Some p -> all_chars decimal_char p = true.
Proof.
  induction sels as [|sel rest IH]; [discriminate|]. cbn [probe_price].
  destruct (select_one sel soup) as [elem|]; [|exact IH].
  destruct (search price_re (get_text elem)) as [m|] eqn:Hs; [|exact IH].
  intros [= <-]. apply remove_char_all. apply (price_found _ _ Hs).
Qed.


End PriceFacts.

(** ** The URL list on disk *)

Section UrlListFacts.

Lemma lstrip_by_idem (p : ascii -> bool) (s : string) :
  lstrip_by p (lstrip_by p s) = lstrip_by p s.
Proof.
  induction s as [|c t IH]; [reflexivity|]. cbn [lstrip_by].
  destruct (p c) eqn:Hc; [exact IH|]. cbn [lstrip_by]. now rewrite Hc.
Qed.

Lemma rstrip_by_cons (p : ascii -> bool) (c : ascii) (t : string) :
  rstrip_by p (String c t) =
  match rstrip_by p t with
  | EmptyString => if p c then EmptyString else String c EmptyString
  | t' => String c t'
  end.
Proof. reflexivity. Qed.

Lemma rstrip_by_idem (p : ascii -> bool) (s : string) :
  rstrip_by p (rstrip_by p s) = rstrip_by p s.
Proof.
  induction s as [|c t IH]; [reflexivity|]. rewrite rstrip_by_cons.
  destruct (rstrip_by p t) as [|c' t'] eqn:Ht.
  - destruct (p c) eqn:Hc; [reflexivity|]. cbn. now rewrite Hc.
  - rewrite rstrip_by_cons, IH. reflexivity.
Qed.

Lemma strip_commute (p : ascii -> bool) (s : string) :
  rstrip_by p (lstrip_by p s) = lstrip_by p (rstrip_by p s).
Proof.
  induction s as [|c t IH]; [reflexivity|]. cbn [lstrip_by]. rewrite rstrip_by_cons.
  destruct (p c) eqn:Hc.
  - rewrite IH. destruct (rstrip_by p t) as [|c' t']; [reflexivity|].
    cbn [lstrip_by]. now rewrite Hc.
  - rewrite rstrip_by_cons.
    destruct (rstrip_by p t) as [|c' t']; cbn [lstrip_by]; now rewrite Hc.
Qed.

Lemma strip_idem (s : string) : strip (strip s) = strip s.
Proof.
  unfold strip. rewrite (strip_commute is_space (rstrip_by is_space s)).
  rewrite rstrip_by_idem, lstrip_by_idem. reflexivity.
Qed.

Lemma clean_lines_clean (lines : list string) :
  Forall (fun u => u <> EmptyString /\ strip u = u) (clean_lines lines).
Proof.
  unfold clean_lines. induction lines as [|l lines IH]; [constructor|].
  cbn [List.map List.filter]. destruct (truthy (strip l)) eqn:Ht; [|exact IH].
  constructor; [|exact IH]. split; [|apply strip_idem].
  destruct (strip l); [discriminate|discriminate].
Qed.

(** X20. Every entry of the list [load_urls] returns is non-empty and
    has no white space around it. *)
Theorem load_urls_clean (d : disk) :
  Forall (fun u => u <> EmptyString /\ strip u = u) (loaded_urls d).
Proof.
  unfold loaded_urls.
  destruct (urls_file d) as [lines|]; [apply clean_lines_clean|].
  destruct (bundled_urls_file d) as [lines|]; [apply clean_lines_clean|constructor].
Qed.


Lemma text_lines_line (u rest : string) :
  one_line u = true ->
  text_lines (u +:+ newline +:+ rest) = (u +:+ newline) :: text_lines rest.
Proof.
  induction u as [|c u IH]; intros H; [reflexivity|].
  cbn [one_line all_chars] in H. apply andb_true_iff in H as [Hc Hu].
  apply andb_true_iff in Hc as [Hlf Hcr].
  apply negb_true_iff in Hlf. apply negb_true_iff in Hcr.
  change (String c u +:+ newline +:+ rest) with (String c (u +:+ newline +:+ rest)).
  cbn [text_lines]. rewrite Hlf, Hcr, (IH Hu). reflexivity.
Qed.

Lemma text_lines_join (l : list string) :
  Forall (fun u => one_line u = true) l ->
  text_lines (join (List.map (fun u => u +:+ newline) l)) = List.map (fun u => u +:+ newline) l.
Proof.
  induction 1 as [|u l Hu _ IH]; [reflexivity|].
  cbn [List.map join]. rewrite append_assoc, (text_lines_line _ _ Hu), IH. reflexivity.
Qed.

Lemma rstrip_by_all (p : ascii -> bool) (w : string) :
  all_chars p w = true -> rstrip_by p w = EmptyString.
Proof.
  induction w as [|c w IH]; [reflexivity|]. cbn [all_chars]. intros H.
  apply andb_true_iff in H as [Hc Hw]. rewrite rstrip_by_cons, (IH Hw), Hc. reflexivity.
Qed.

Lemma rstrip_by_append (p : ascii -> bool) (s w : string) :
  all_chars p w = true -> rstrip_by p (s +:+ w) = rstrip_by p s.
Proof.
  intros Hw. induction s as [|c s IH]; [apply rstrip_by_all; exact Hw|].
  change (String c s +:+ w) with (String c (s +:+ w)).
  rewrite !rstrip_by_cons, IH. reflexivity.
Qed.

Lemma rstrip_by_fixed (p : ascii -> bool) (body : string) (d : ascii) :
  p d = false ->
  rstrip_by p (body +:+ String d EmptyString) = body +:+ String d EmptyString.
Proof.
  intros Hd. induction body as [|c body IH]; [cbn; now rewrite Hd|].
  change (String c body +:+ String d EmptyString)
    with (String c (body +:+ String d EmptyString)).
  rewrite rstrip_by_cons, IH. destruct body; reflexivity.
Qed.

Lemma last_char (s : string) :
  s <> EmptyString -> exists body d, s = body +:+ String d EmptyString.
Proof.
  induction s as [|c s IH]; [contradiction|]. intros _.
  destruct s as [|c' s']; [exists EmptyString, c; reflexivity|].
  destruct IH as (body & d & Hs); [discriminate|].
  exists (String c body), d. rewrite Hs. reflexivity.
Qed.

Lemma digit_not_space (c : ascii) : is_digit c = true -> is_space c = false.
Proof.
  destruct c as [b0 b1 b2 b3 b4 b5 b6 b7].
  destruct b0, b1, b2, b3, b4, b5, b6, b7; vm_compute; intros H;
    first [reflexivity|discriminate H].
Qed.

(** A product link on one line ends in a digit. *)
Lemma product_url_ends_digit (u : string) :
  is_product_url u = true -> no_query u = true -> one_line u = true ->
  exists body d, u = body +:+ String d EmptyString /\ is_digit d = true.
Proof.
  intros Hp Hq Hl. unfold is_product_url in Hp. rewrite (first_field_whole u Hq) in Hp.
  destruct (negb (startswith u base_url)); [discriminate|].
  destruct (existsb _ product_skip); [discriminate|].
  apply matches_true in Hp.
  destruct (search product_re u) as [m|] eqn:Hs; [|contradiction].
  apply search_from_found in Hs as (pre & suf & -> & Hne).
  apply product_re_sku_url_re, nonempty_in in Hne as (st & Hin).
  apply sku_url_re_match in Hin
    as (letters & digits & rest & Hsuf & Heol & _ & Ad & _ & Ld & _).
  cbn [m_rest] in Hsuf. subst suf.
  unfold one_line in Hl.
  change (pre +:+ String "/" (letters +:+ digits +:+ rest))
    with (pre +:+ ("/" +:+ (letters +:+ digits +:+ rest))) in *.
  rewrite !all_chars_app in Hl.
  apply andb_true_iff in Hl as [_ Hl]. apply andb_true_iff in Hl as [_ Hl].
  apply andb_true_iff in Hl as [_ Hl]. apply andb_true_iff in Hl as [_ Hrest].
  assert (rest = EmptyString) as ->.
  { destruct rest as [|c [|c' r]]; [reflexivity| |discriminate Heol].
    cbn in Heol, Hrest. rewrite Heol in Hrest. discriminate Hrest. }
  destruct (last_char digits) as (body & d & ->).
  { intros ->. cbn in Ld. lia. }
  rewrite all_chars_app in Ad. apply andb_true_iff in Ad as [_ Ad].
  cbn in Ad. rewrite andb_true_r in Ad.
  exists (pre +:+ "/" +:+ letters +:+ body), d. split; [|exact Ad].
  rewrite !append_assoc. reflexivity.
Qed.

Lemma strip_written_line (u : string) :
  is_product_url u = true -> no_query u = true -> one_line u = true ->
  strip (u +:+ newline) = u /\ truthy u = true.
Proof.
  intros Hp Hq Hl.
  destruct (product_url_ends_digit u Hp Hq Hl) as (body & d & Hu & Hd).
  apply product_url_on_host in Hp.
  destruct u as [|h t]; [discriminate Hp|]. split; [|reflexivity].
  cbn in Hp. apply andb_true_iff in Hp as [Hh _]. apply Ascii.eqb_eq in Hh. subst h.
  unfold strip. rewrite rstrip_by_append by reflexivity.
  rewrite Hu, (rstrip_by_fixed is_space body d (digit_not_space d Hd)), <- Hu.
  reflexivity.
Qed.

Lemma clean_written_lines (l : list string) :
  Forall (fun u => strip (u +:+ newline) = u /\ truthy u = true) l ->
  clean_lines (List.map (fun u => u +:+ newline) l) = l.
Proof.
  unfold clean_lines. induction 1 as [|u l [Hs Ht] _ IH]; [reflexivity|].
  cbn [List.map List.filter]. rewrite Hs, Ht, IH. reflexivity.
Qed.

Lemma sorted_links_elem (c : crawler) (u : string) :
  In u (sorted_links c) <-> u ∈ product_links c.
Proof.
  unfold sorted_links. rewrite <- list_elem_of_In, merge_sort_Permutation.
  apply elem_of_elements.
Qed.

(** X21. What [save_urls] writes, [load_urls] reads back: for a state
    of a crawl whose product links hold no line break, the list loaded
    from the written file is the sorted list of the product links, in
    ascending order and each link once. *)
Theorem save_urls_round_trip (E : env) (max_pages : nat) (c : crawler) (n : nat) (d : disk) :
  crawl_reach E max_pages c n ->
  (forall u, u ∈ product_links c -> one_line u = true) ->
  loaded_urls (save_urls c d) = sorted_links c /\
  StronglySorted String.le (sorted_links c) /\
  NoDup (sorted_links c) /\
  forall u, In u (sorted_links c) <-> u ∈ product_links c.
Proof.
  intros Hreach Hone.
  destruct (crawl_reach_classified E _ _ _ Hreach) as (Hp & _ & _).
  split; [|split; [|split]].
  - unfold loaded_urls, save_urls, urls_text. cbn [urls_file].
    rewrite text_lines_join.
    + apply clean_written_lines. apply List.Forall_forall. intros u Hu.
      apply sorted_links_elem in Hu. destruct (Hp u Hu).
      apply strip_written_line; auto.
    + apply List.Forall_forall. intros u Hu. apply sorted_links_elem in Hu. auto.
  - apply StronglySorted_merge_sort; apply _.
  - unfold sorted_links. rewrite merge_sort_Permutation. apply NoDup_elements.
  - apply sorted_links_elem.
Qed.

End UrlListFacts.

(** ** The further theorems at concrete inputs *)

Example gallery_record :
  let r := run_batch Scenario.gallery_env 100 Scenario.gallery_world in
  List.map (fun p => (title p, source_sku p, images p)) (products (w_self (world_of r)))
    = [("Whisk", "K546",
        [Image Scenario.whisk_image "/app/data/images/K546_1.jpg" "K546_1.jpg"])] /\
  image_files (w_disk (world_of r)) = ["/app/data/images/K546_1.jpg"].
Proof. vm_compute. split; reflexivity. Qed.

Lemma download_image_cache_key_witness :
  let w' := world_of (download_image Scenario.gallery_env Scenario.whisk_image "K546" 1
                                     Scenario.gallery_world) in
  download_image Scenario.gallery_env Scenario.whisk_image_2 "K546" 1 w'
    = (Val (Some "/app/data/images/K546_1.jpg"), w', []).
Proof.
  apply (download_image_cache_key Scenario.gallery_env Scenario.whisk_image
           Scenario.whisk_image_2 "K546" 1 Scenario.gallery_world
           "/app/data/images/K546_1.jpg").
  - vm_compute. reflexivity.
  - vm_compute. reflexivity.
Defined.

Lemma restart_after_clean_batch_witness :
  let w1 := world_of (run_batch Scenario.gone_env 10 Scenario.resumed_world) in
  w_self (world_of (resume 25 (World initial_status new_scraper (w_disk w1) 0 0))) = w_self w1.
Proof.
  apply (restart_after_clean_batch Scenario.gone_env 10 25 Scenario.resumed_world
           initial_status 0 0).
  vm_compute. reflexivity.
Defined.

Lemma run_batch_appends_witness :
  let r := run_batch Scenario.gallery_env 100 Scenario.gallery_world in
  exists ps fs,
    products (w_self (world_of r)) = products (resumed Scenario.gallery_world) ++ ps /\
    failed_urls (w_self (world_of r)) = failed_urls (resumed Scenario.gallery_world) ++ fs /\
    Forall (fun p => title p <> EmptyString /\ In (source_url p) (attempted (trace_of r))) ps /\
    Forall (fun u => In u (attempted (trace_of r))) fs /\
    (length ps + length fs <= length (attempted (trace_of r)))%nat.
Proof.
  apply (run_batch_appends Scenario.gallery_env 100 Scenario.gallery_world).
  vm_compute. discriminate.
Defined.

Lemma catalog_images_on_disk_witness :
  Forall (on_disk (w_disk (world_of (run_batch Scenario.gallery_env 100
                                               Scenario.gallery_world))))
         (products (w_self (world_of (run_batch Scenario.gallery_env 100
                                                Scenario.gallery_world)))).
Proof.
  apply (catalog_images_on_disk Scenario.gallery_env 100 Scenario.gallery_world).
  - vm_compute. discriminate.
  - vm_compute. constructor.
Defined.

Lemma run_batch_without_checkpoint_witness :
  attempted (trace_of (run_batch Scenario.gone_env 2 Scenario.unreadable_world))
    = firstn 2 (skipn 3 Scenario.backlog_urls) /\
  last_scraped_index (w_self (world_of (run_batch Scenario.gone_env 2
                                                  Scenario.unreadable_world))) = 3 + 2.
Proof.
  apply (run_batch_without_checkpoint Scenario.gone_env 2 Scenario.unreadable_world).
  - exact I.
  - lia.
  - vm_compute. split; discriminate.
Defined.

Lemma run_batch_twice_witness :
  let r1 := run_batch Scenario.gone_env 2 Scenario.resumed_world in
  let r2 := run_batch Scenario.gone_env 2 (world_of r1) in
  attempted (trace_of r1) ++ attempted (trace_of r2)
    = firstn 4 (skipn 20 Scenario.backlog_urls) /\
  attempted (trace_of r1) ++ attempted (trace_of r2)
    = attempted (trace_of (run_batch Scenario.gone_env (2 + 2) Scenario.resumed_world)) /\
  last_scraped_index (resumed (world_of r2)) = 20 + 4.
Proof.
  apply (run_batch_twice Scenario.gone_env 2 2 Scenario.resumed_world).
  - lia.
  - lia.
  - vm_compute. split; discriminate.
Defined.

Lemma run_batch_index_error_witness :
  let r := run_batch Scenario.gone_env 10 Scenario.corrupt_world in
  error (w_status (world_of r)) = Some "list index out of range" /\
  running (w_status (world_of r)) = false /\
  attempted (trace_of r) = [] /\
  w_requests (world_of r) = w_requests Scenario.corrupt_world /\
  w_disk (world_of r) = w_disk Scenario.corrupt_world /\
  w_self (world_of r) = resumed Scenario.corrupt_world.
Proof.
  apply (run_batch_index_error Scenario.gone_env 10 Scenario.corrupt_world).
  - lia.
  - vm_compute. discriminate.
  - vm_compute. reflexivity.
Defined.

Lemma run_batch_publishes_witness :
  published 1 (world_of (run_batch Scenario.gallery_env 100 Scenario.gallery_world)).
Proof.
  apply (run_batch_publishes Scenario.gallery_env 100 Scenario.gallery_world).
  vm_compute. discriminate.
Defined.

Lemma crawl_never_revisits_witness :
  let c := scrape_page Scenario.listing_env (Response 200 "<html>listing</html>") new_crawler in
  "https://www.nisbets.co.uk/ovens/c/12" ∈ category_links c /\
  "https://www.nisbets.co.uk/ovens/c/12" ∉ visited c.
Proof.
  intros c.
  assert (Hin : "https://www.nisbets.co.uk/ovens/c/12" ∈ category_links c)
    by (apply (bool_decide_unpack _); vm_compute; exact I).
  split; [exact Hin|].
  apply (crawl_never_revisits Scenario.listing_env 500 c 0
           (reach_first Scenario.listing_env 500 (Response 200 "<html>listing</html>"))
           "https://www.nisbets.co.uk/ovens/c/12" Hin).
Defined.

Lemma crawl_stays_on_host_witness :
  let c := scrape_page Scenario.listing_env (Response 200 "<html>listing</html>") new_crawler in
  (forall u, u ∈ product_links c ->
     is_product_url u = true /\ no_query u = true /\ startswith u base_url = true) /\
  (forall u, u ∈ category_links c ∪ visited c ->
     is_category_url u = true /\ startswith u base_url = true).
Proof.
  intros c.
  apply (crawl_stays_on_host Scenario.listing_env 500 c 0
           (reach_first Scenario.listing_env 500 (Response 200 "<html>listing</html>"))).
Defined.


Lemma save_urls_round_trip_witness :
  let c := scrape_page Scenario.listing_env (Response 200 "<html>listing</html>") new_crawler in
  let d := w_disk (Scenario.idle_world 0) in
  loaded_urls (save_urls c d) = sorted_links c /\
  StronglySorted String.le (sorted_links c) /\
  NoDup (sorted_links c) /\
  forall u, In u (sorted_links c) <-> u ∈ product_links c.
Proof.
  intros c d.
  apply (save_urls_round_trip Scenario.listing_env 500 c 0 d
           (reach_first Scenario.listing_env 500 (Response 200 "<html>listing</html>"))).
  intros u Hu.
  assert (Hc : product_links c = {[Scenario.both_url]}) by (vm_compute; reflexivity).
  rewrite Hc in Hu. apply elem_of_singleton in Hu. subst u. vm_compute. reflexivity.
Defined.

Example saved_list :
  let c := scrape_page Scenario.listing_env (Response 200 "<html>listing</html>") new_crawler in
  urls_file (save_urls c (w_disk (Scenario.idle_world 0)))
    = Some [Scenario.both_url +:+ newline].
Proof. vm_compute. reflexivity. Qed.
